(** * doit: deadline parsing, task ordering and the completion streak

    A shallow embedding of the Go packages [utils] (deadline parser),
    [models] (the [Todo] record) and [storage] (BoltDB-backed store, task
    ordering, streak tracker) of akr411/doit, of the command line of
    [main] and of the key handling of the list view of [ui], followed by
    the properties of the specification that were checked against it and
    by further properties of the code.

    Conventions of the embedding:
    - Go's [int], [int64] and [time.Duration] are [Z] with the 64-bit
      wrap-around written out ([GoInt.wrap64]);
    - [float64] values are the rationals they denote, and every float
      operation rounds its exact result to the nearest binary64 value,
      ties to even ([Float64.RN]);
    - a [time.Time] is its number of nanoseconds since the Unix epoch;
      [time.Local] is taken to be UTC;
    - Go strings are [string]s of bytes; the case and white-space
      functions are the ASCII parts of their Go counterparts, which they
      agree with on every input that [strings.isASCII] accepts;
    - [time.Now()] is an explicit argument of every function that reads
      the clock, one argument per call site;
    - a pointer to a todo is the todo where it is used by one holder;
      the pointers that the list view shares are places in a memory of
      todos ([ui.memory]). *)

From Stdlib Require Import ZArith QArith Qround Qpower Lia Lqa.
From Stdlib Require Import String Ascii List Sorting.Sorted Permutation.
From Stdlib Require Import Floats.SpecFloat.
From stdpp Require Import gmap strings list sorting pretty.

(** ** Go integers *)

Module GoInt.
Local Open Scope Z_scope.

Definition minInt64 : Z := - 2 ^ 63.
Definition maxInt64 : Z := 2 ^ 63 - 1.

(** Two's-complement reduction of a mathematical integer to [int64]. *)
Definition wrap64 (z : Z) : Z := (z + 2 ^ 63) mod 2 ^ 64 - 2 ^ 63.

Definition add (x y : Z) : Z := wrap64 (x + y).
Definition mul (x y : Z) : Z := wrap64 (x * y).

(** [x++] on an [int]. *)
Definition incr (x : Z) : Z := add x 1.

End GoInt.

(** ** IEEE 754 binary64 arithmetic

    Only the finite, normal range is needed: the values that occur are
    quotients and sums of integers below [2^63].  A float is represented
    by the rational it denotes. *)

Module Float64.
Local Open Scope Q_scope.

(** Nearest integer, ties to even. *)
Definition rne (q : Q) : Z :=
  let f := Qfloor q in
  match Qcompare (q - inject_Z f) (1 # 2) with
  | Lt => f
  | Gt => (f + 1)%Z
  | Eq => if Z.even f then f else (f + 1)%Z
  end.

(** For [0 < x], the exponent [e] with [2^e <= x < 2^(e+1)]. *)
Definition binade (x : Q) : Z :=
  let e0 := (Z.log2 (Qnum x) - Z.log2 (Zpos (Qden x)))%Z in
  if Qle_bool (2 ^ e0) x then e0 else (e0 - 1)%Z.

(** Rounding of a positive rational to 53 significant bits. *)
Definition RNpos (x : Q) : Q :=
  let e := binade x in
  inject_Z (rne (x * 2 ^ (52 - e))) * 2 ^ (e - 52).

(** Round to nearest binary64, ties to even. *)
Definition RN (x : Q) : Q :=
  match Qcompare 0 x with
  | Eq => 0
  | Lt => RNpos x
  | Gt => - RNpos (- x)
  end.

(** [float64(z)] for an integer [z]. *)
Definition of_int (z : Z) : Q := RN (inject_Z z).

Definition add (x y : Q) : Q := RN (x + y).
Definition div (x y : Q) : Q := RN (x / y).

(** [int(x)]: conversion to an integer discards the fraction. *)
Definition to_int (x : Q) : Z :=
  if Qle_bool 0 x then Qfloor x else Qceiling x.

(** The rational denoted by a finite float of the Standard Library's
    specification of binary64, used to cross-check [RN]. *)
Definition SF2Q (f : spec_float) : Q :=
  match f with
  | S754_finite s m e =>
      (if s then - inject_Z (Zpos m) else inject_Z (Zpos m)) * 2 ^ e
  | _ => 0
  end.

Definition SF_of_int (z : Z) : spec_float := binary_normalize 53 1024 z 0 false.

(** [(float64(hour) + float64(nsec)/(60*60*1e9)) / 24] with the operations
    of the Standard Library's specification of binary64. *)
Definition SF_days (hour nsec : Z) : spec_float :=
  SFdiv 53 1024
    (SFadd 53 1024 (SF_of_int hour)
       (SFdiv 53 1024 (SF_of_int nsec) (SF_of_int 3600000000000)))
    (SF_of_int 24).

End Float64.

(** ** Package [time] *)

Module time.
Local Open Scope Z_scope.

(** [time.Duration]: a signed 64-bit count of nanoseconds. *)
Abbreviation Duration := Z (only parsing).

(** [time.Time]: nanoseconds since 1970-01-01T00:00:00Z. *)
Abbreviation Time := Z (only parsing).

Definition Nanosecond : Duration := 1.
Definition Second : Duration := 1000000000.
Definition Minute : Duration := 60 * Second.
Definition Hour : Duration := 60 * Minute.

Definition minDuration : Duration := GoInt.minInt64.
Definition maxDuration : Duration := GoInt.maxInt64.

(** The zero [Time] is January 1, year 1, 00:00:00 UTC. *)
Definition zeroTime : Time := -62135596800 * 1000000000.

Definition IsZero (t : Time) : bool := t =? zeroTime.
Definition Before (t u : Time) : bool := t <? u.
Definition After (t u : Time) : bool := u <? t.
Definition Add (t : Time) (d : Duration) : Time := t + d.

(** [t.UnixNano()]: the count of nanoseconds as an [int64]. *)
Definition UnixNano (t : Time) : Z := GoInt.wrap64 t.

(** [t.Sub(u)]: the difference, saturated to the range of [Duration]. *)
Definition Sub (t u : Time) : Duration :=
  let d := t - u in
  if d <? minDuration then minDuration
  else if maxDuration <? d then maxDuration
  else d.

(** [time.Until(t)] is [t.Sub(time.Now())]. *)
Definition Until (now t : Time) : Duration := Sub t now.

(** [float64(hour) + float64(nsec)/(60*60*1e9)] *)
Definition hoursOf (hour nsec : Z) : Q :=
  Float64.add (Float64.of_int hour)
              (Float64.div (Float64.of_int nsec) (inject_Z 3600000000000)).

(** [d.Hours()]:
    [hour := d / Hour; nsec := d % Hour;
     return float64(hour) + float64(nsec)/(60*60*1e9)]. *)
Definition Hours (d : Duration) : Q :=
  let hour := Z.quot d Hour in
  let nsec := Z.rem d Hour in
  hoursOf hour nsec.

(** *** The proleptic Gregorian calendar *)

Definition isLeap (year : Z) : bool :=
  (Z.rem year 4 =? 0) && (negb (Z.rem year 100 =? 0) || (Z.rem year 400 =? 0)).

Definition daysBefore : list Z :=
  [0; 31; 59; 90; 120; 151; 181; 212; 243; 273; 304; 334; 365].

Definition daysBeforeMonth (m : Z) : Z := nth (Z.to_nat m) daysBefore 0.

Definition daysIn (m year : Z) : Z :=
  if (m =? 2) && isLeap year then 29
  else daysBeforeMonth m - daysBeforeMonth (m - 1).

Definition daysPer400Years : Z := 365 * 400 + 97.
Definition daysPer100Years : Z := 365 * 100 + 24.
Definition daysPer4Years : Z := 365 * 4 + 1.
Definition secondsPerDay : Z := 86400.

(** Days from 0001-01-01 to 1970-01-01. *)
Definition unixEpochDay : Z := 719162.

(** [daysSinceEpoch], counted from January 1 of year 1 (Go counts from a
    year that is congruent to 1 modulo 400, to stay unsigned). *)
Definition daysSinceEpoch (year : Z) : Z :=
  let y := year - 1 in
  let n := y / 400 in
  let y := y - 400 * n in
  let d := daysPer400Years * n in
  let n := y / 100 in
  let y := y - 100 * n in
  let d := d + daysPer100Years * n in
  let n := y / 4 in
  let y := y - 4 * n in
  let d := d + daysPer4Years * n in
  d + 365 * y.

(** [norm(hi, lo, base)] brings [lo] into [0, base). *)
Definition norm (hi lo base : Z) : Z * Z :=
  let '(hi, lo) :=
    if lo <? 0 then
      let n := Z.quot (- lo - 1) base + 1 in (hi - n, lo + n * base)
    else (hi, lo) in
  if base <=? lo then
    let n := Z.quot lo base in (hi + n, lo - n * base)
  else (hi, lo).

(** [time.Date(year, month, day, hour, min, sec, nsec, time.Local)]. *)
Definition Date (year month day hour min sec nsec : Z) : Time :=
  let m := month - 1 in
  let '(year, m) := norm year m 12 in
  let month := m + 1 in
  let '(sec, nsec) := norm sec nsec 1000000000 in
  let '(min, sec) := norm min sec 60 in
  let '(hour, min) := norm hour min 60 in
  let '(day, hour) := norm day hour 24 in
  let d := daysSinceEpoch year in
  let d := d + daysBeforeMonth (month - 1) in
  let d := if isLeap year && (3 <=? month) then d + 1 else d in
  let d := d + (day - 1) in
  let abs := d * secondsPerDay + (hour * 3600 + min * 60 + sec) in
  (abs - unixEpochDay * secondsPerDay) * 1000000000 + nsec.

(** Seconds since January 1 of year 1, and the nanosecond within. *)
Definition abs (t : Time) : Z := t / 1000000000 + unixEpochDay * secondsPerDay.
Definition nsec (t : Time) : Z := t mod 1000000000.

(** [absDate]: year, month and day of the month of an absolute second. *)
Definition absDate (abs : Z) : Z * Z * Z :=
  let d := abs / secondsPerDay in
  let n := d / daysPer400Years in
  let y := 400 * n in
  let d := d - daysPer400Years * n in
  let n := d / daysPer100Years in
  let n := n - Z.shiftr n 2 in
  let y := y + 100 * n in
  let d := d - daysPer100Years * n in
  let n := d / daysPer4Years in
  let y := y + 4 * n in
  let d := d - daysPer4Years * n in
  let n := d / 365 in
  let n := n - Z.shiftr n 2 in
  let y := y + n in
  let d := d - 365 * n in
  let year := y + 1 in
  let day := d in
  if isLeap year && (day =? 31 + 29 - 1) then (year, 2, 29)
  else
    let day := if isLeap year && (31 + 29 - 1 <? day) then day - 1 else day in
    let month := day / 31 in
    let end_ := daysBeforeMonth (month + 1) in
    let '(month, begin) :=
      if end_ <=? day then (month + 1, end_)
      else (month, daysBeforeMonth month) in
    (year, month + 1, day - begin + 1).

(** [t.Date()] and [t.Clock()]. *)
Definition DateOf (t : Time) : Z * Z * Z := absDate (abs t).

Definition Clock (t : Time) : Z * Z * Z :=
  let s := abs t mod secondsPerDay in
  (s / 3600, (s mod 3600) / 60, s mod 60).

(** [t.AddDate(years, months, days)]. *)
Definition AddDate (t : Time) (years months days : Z) : Time :=
  let '(year, month, day) := DateOf t in
  let '(hour, min, sec) := Clock t in
  Date (year + years) (GoInt.add month months) (day + days)
       hour min sec (nsec t).

(** [appendInt(b, x, width)]: decimal digits, zero-padded to [width]. *)
Definition appendInt (x : Z) (width : nat) : string :=
  let digits := pretty (Z.abs x) in
  let padded :=
    String.string_of_list_ascii
      (replicate (width - String.length digits) "0"%char) +:+ digits in
  if x <? 0 then "-" +:+ padded else padded.

(** [t.Format("2006-01-02")]. *)
Definition FormatDay (t : Time) : string :=
  let '(year, month, day) := DateOf t in
  appendInt year 4 +:+ "-" +:+ appendInt month 2 +:+ "-" +:+ appendInt day 2.

(** The text of a date and a time of day in the layout
    ["2006-01-02 15:04"]. *)
Definition layoutText (year month day hour min : Z) : string :=
  appendInt year 4 +:+ "-" +:+ appendInt month 2 +:+ "-" +:+ appendInt day 2
  +:+ " " +:+ appendInt hour 2 +:+ ":" +:+ appendInt min 2.

End time.

(** *** [time.ParseInLocation] for the layout ["2006-01-02 15:04"] *)

Module timeParse.
Import time.
Local Open Scope Z_scope.

Definition isDigitChar (c : ascii) : bool :=
  let n := N_of_ascii c in ((48 <=? n) && (n <=? 57))%N.

Definition digitVal (c : ascii) : Z := Z.of_N (N_of_ascii c) - 48.

Fixpoint allDigits (s : string) : bool :=
  match s with
  | String c s' => isDigitChar c && allDigits s'
  | EmptyString => true
  end.

(** [getnum(s, fixed)]: one or two decimal digits, exactly two when
    [fixed]. *)
Definition getnum (s : string) (fixed : bool) : option (Z * string) :=
  match s with
  | String c0 s1 =>
      if isDigitChar c0 then
        match s1 with
        | String c1 s2 =>
            if isDigitChar c1 then Some (digitVal c0 * 10 + digitVal c1, s2)
            else if fixed then None else Some (digitVal c0, s1)
        | EmptyString => if fixed then None else Some (digitVal c0, s1)
        end
      else None
  | EmptyString => None
  end.

(** The [stdLongYear] case: the next four bytes, the first a digit, read
    by [atoi], which rejects any byte that is not a digit. *)
Definition getyear (s : string) : option (Z * string) :=
  match s with
  | String c0 (String c1 (String c2 (String c3 rest))) =>
      if isDigitChar c0 && isDigitChar c1 && isDigitChar c2 && isDigitChar c3
      then Some (((digitVal c0 * 10 + digitVal c1) * 10 + digitVal c2) * 10
                 + digitVal c3, rest)
      else None
  | _ => None
  end.

Fixpoint cutspace (s : string) : string :=
  match s with
  | String " " s' => cutspace s'
  | _ => s
  end.

(** [skip(value, prefix)] for a one-byte literal of the layout.  A space
    of the layout matches any run of spaces of the value. *)
Definition skip (value : string) (prefix : ascii) : option string :=
  if Ascii.eqb prefix " " then
    match value with
    | String c _ => if Ascii.eqb c " " then Some (cutspace value) else None
    | EmptyString => Some value
    end
  else
    match value with
    | String c rest => if Ascii.eqb c prefix then Some rest else None
    | EmptyString => None
    end.

(** [time.ParseInLocation("2006-01-02 15:04", value, time.Local)];
    [None] stands for a non-nil error. *)
Definition ParseInLocation (value : string) : option Time :=
  '(year, value) ← getyear value;
  value ← skip value "-";
  '(month, value) ← getnum value true;
  if (month <=? 0) || (12 <? month) then None else
  value ← skip value "-";
  '(day, value) ← getnum value true;
  value ← skip value " ";
  '(hour, value) ← getnum value false;
  if (hour <? 0) || (24 <=? hour) then None else
  value ← skip value ":";
  '(min, value) ← getnum value true;
  if (min <? 0) || (60 <=? min) then None else
  if negb (String.length value =? 0)%nat then None else
  if (day <? 1) || (daysIn month year <? day) then None else
  Some (Date year month day hour min 0 0).

End timeParse.

(** ** Packages [strings], [strconv] and [regexp] *)

Module strings.

Definition toLowerChar (c : ascii) : ascii :=
  let n := N_of_ascii c in
  if ((65 <=? n) && (n <=? 90))%N then ascii_of_N (n + 32) else c.

Fixpoint ToLower (s : string) : string :=
  match s with
  | EmptyString => EmptyString
  | String c s' => String (toLowerChar c) (ToLower s')
  end.

(** White space: tab, line feed, vertical tab, form feed, carriage
    return, space. *)
Definition isSpace (c : ascii) : bool :=
  let n := N_of_ascii c in (((9 <=? n) && (n <=? 13)) || (n =? 32))%N.

(** Every byte of [s] satisfies [p]. *)
Fixpoint forallChars (p : ascii → bool) (s : string) : bool :=
  match s with
  | String c s' => p c && forallChars p s'
  | EmptyString => true
  end.

(** A space or a tab, the two bytes that [parseRelativeTime] strips. *)
Definition isBlank (c : ascii) : bool := Ascii.eqb c " " || Ascii.eqb c "009".

(** Every byte is below [utf8.RuneSelf]: the inputs on which [ToLower]
    and [TrimSpace] below are the functions of Go, which takes its
    ASCII path exactly then. *)
Definition isASCII (s : string) : bool :=
  forallChars (fun c => (N_of_ascii c <? 128)%N) s.

Fixpoint allSpaces (s : string) : bool :=
  match s with
  | String c s' => isSpace c && allSpaces s'
  | EmptyString => true
  end.

Fixpoint TrimLeft (s : string) : string :=
  match s with
  | String c s' => if isSpace c then TrimLeft s' else s
  | EmptyString => EmptyString
  end.

Fixpoint TrimRight (s : string) : string :=
  match s with
  | String c s' =>
      match TrimRight s' with
      | EmptyString => if isSpace c then EmptyString else String c EmptyString
      | r => String c r
      end
  | EmptyString => EmptyString
  end.

Definition TrimSpace (s : string) : string := TrimRight (TrimLeft s).

(** [strings.ReplaceAll(s, old, "")] for a one-byte [old]. *)
Fixpoint RemoveAll (old : ascii) (s : string) : string :=
  match s with
  | String c s' =>
      if Ascii.eqb c old then RemoveAll old s' else String c (RemoveAll old s')
  | EmptyString => EmptyString
  end.

Fixpoint drop (n : nat) (s : string) : string :=
  match n, s with
  | S n', String _ s' => drop n' s'
  | _, _ => s
  end.

(** [strings.Replace(s, old, new, 1)]: the first occurrence only. *)
Fixpoint Replace1 (s old new : string) : string :=
  if String.prefix old s then new +:+ drop (String.length old) s
  else match s with
       | String c s' => String c (Replace1 s' old new)
       | EmptyString => EmptyString
       end.

Fixpoint Repeat (s : string) (n : nat) : string :=
  match n with
  | O => EmptyString
  | S n' => s +:+ Repeat s n'
  end.

End strings.

(** ** Package [unicode/utf8] *)

Module utf8.

Definition between (lo hi : N) (c : ascii) : bool :=
  let n := N_of_ascii c in ((lo <=? n) && (n <=? hi))%N.

(** The tables [first] and [acceptRanges]: for a byte that starts an
    encoding of more than one byte, the size of the encoding and the
    range of its second byte. *)
Definition first (c : ascii) : option (nat * N * N) :=
  if between 194 223 c then Some (2%nat, 128%N, 191%N)
  else if between 224 224 c then Some (3%nat, 160%N, 191%N)
  else if between 225 236 c then Some (3%nat, 128%N, 191%N)
  else if between 237 237 c then Some (3%nat, 128%N, 159%N)
  else if between 238 239 c then Some (3%nat, 128%N, 191%N)
  else if between 240 240 c then Some (4%nat, 144%N, 191%N)
  else if between 241 243 c then Some (4%nat, 128%N, 191%N)
  else if between 244 244 c then Some (4%nat, 128%N, 143%N)
  else None.

(** A continuation byte, [locb] to [hicb]. *)
Definition continuation (c : ascii) : bool := between 128 191 c.

(** [utf8.ValidString]. *)
Fixpoint ValidString (s : string) : bool :=
  match s with
  | EmptyString => true
  | String c0 s1 =>
      if (N_of_ascii c0 <? 128)%N then ValidString s1
      else
        match first c0, s1 with
        | Some (size, lo, hi), String c1 s2 =>
            if between lo hi c1 then
              match size, s2 with
              | 2%nat, _ => ValidString s2
              | 3%nat, String c2 s3 =>
                  if continuation c2 then ValidString s3 else false
              | 4%nat, String c2 (String c3 s4) =>
                  if continuation c2 && continuation c3
                  then ValidString s4 else false
              | _, _ => false
              end
            else false
        | _, _ => false
        end
  end.

End utf8.

Module strconv.
Local Open Scope Z_scope.

Fixpoint digitsVal (acc : Z) (s : string) : option Z :=
  match s with
  | EmptyString => Some acc
  | String c s' =>
      if timeParse.isDigitChar c
      then digitsVal (acc * 10 + timeParse.digitVal c) s'
      else None
  end.

(** [strconv.Atoi]: an optional sign and decimal digits; [None] stands for
    a syntax or range error. *)
Definition Atoi (s : string) : option Z :=
  let '(neg, body) :=
    match s with
    | String c r =>
        if Ascii.eqb c "+" then (false, r)
        else if Ascii.eqb c "-" then (true, r)
        else (false, s)
    | EmptyString => (false, s)
    end in
  match body with
  | EmptyString => None
  | _ =>
      v ← digitsVal 0 body;
      let v := if neg then - v else v in
      if (v <? GoInt.minInt64) || (GoInt.maxInt64 <? v) then None else Some v
  end.

End strconv.

Module regexp.

Definition isEmpty (s : string) : bool :=
  match s with EmptyString => true | _ => false end.

(** A match of [(\d+)X] where [X] is one byte accepted by [isUnit]:
    the whole match, the digits, the unit byte. *)
Definition submatch : Type := string * string * string.

(** [FindAllStringSubmatch(s, -1)] for a pattern [(\d+)X].  The leftmost
    match starts at the first digit of a run of digits that is directly
    followed by a unit byte and takes the whole run; matching resumes
    behind the unit byte.  [run] is the run of digits read so far. *)
Fixpoint findAll (isUnit : ascii → bool) (run s : string) : list submatch :=
  match s with
  | EmptyString => []
  | String c s' =>
      if timeParse.isDigitChar c then findAll isUnit (run +:+ String c "") s'
      else if isUnit c && negb (isEmpty run)
      then (run +:+ String c "", run, String c "") :: findAll isUnit "" s'
      else findAll isUnit "" s'
  end.

(** [ReplaceAllString(s, "")] for the same patterns: the input without
    its matches. *)
Fixpoint removeAll (isUnit : ascii → bool) (run s : string) : string :=
  match s with
  | EmptyString => run
  | String c s' =>
      if timeParse.isDigitChar c then removeAll isUnit (run +:+ String c "") s'
      else if isUnit c && negb (isEmpty run) then removeAll isUnit "" s'
      else run +:+ String c (removeAll isUnit "" s')
  end.

End regexp.

(** [sort.Slice]: its insertion sort, which moves each element to the
    left for as long as it is [less] than its left neighbour.  (Go
    switches to other strategies for slices of more than twelve elements;
    the properties below use only that the result is the input reordered
    and ordered by [less].)  The prefix already sorted is kept reversed. *)

Module sort.
Section Slice.
Context {A : Type} (less : A → A → bool).

Fixpoint insertLeft (x : A) (rprefix : list A) : list A :=
  match rprefix with
  | y :: rest => if less x y then y :: insertLeft x rest else x :: rprefix
  | [] => [x]
  end.

Definition Slice (data : list A) : list A :=
  rev (fold_left (fun rprefix x => insertLeft x rprefix) data []).

End Slice.
End sort.

(** ** Package [utils]: the deadline parser *)

Module utils.
Import time strings.
Local Open Scope Z_scope.

(** One constructor per [fmt.Errorf] of the package. *)
Inductive error : Type :=
| EmptyInput
| InvalidFormat (cause : error)
| InvalidMonthNumber (digits : string)
| NonPositiveMonth
| NoValidUnits
| InvalidCharacters
| InvalidNumber (digits : string)
| NonPositiveValue
| InvalidUnit (unit : string)
| NonPositiveTotal.

Definition nl : string := String "010" "".

(** [err.Error()]. *)
Fixpoint Error (e : error) : string :=
  match e with
  | EmptyInput => "deadline cannot be empty"
  | InvalidFormat cause =>
      "invalid deadline format: " +:+ Error cause +:+ nl +:+
      "Supported formats:" +:+ nl +:+
      "  - Absolute: YYYY-MM-DD HH:MM (e.g., 2025-11-16 14:30)" +:+ nl +:+
      "  - Relative: 1d, 2h, 3w, 1M (e.g., 2d 3h 20m)"
  | InvalidMonthNumber digits => "invalid number, " +:+ digits
  | NonPositiveMonth => "time values must be postivie"
  | NoValidUnits => "no valid time units found (use: m, h, d, w, M)"
  | InvalidCharacters => "contains invalid characters or format"
  | InvalidNumber digits => "invalid number: " +:+ digits
  | NonPositiveValue => "time values must be positive"
  | InvalidUnit unit => "invalid time unit: " +:+ unit +:+ " (use: m, h, d, w, M)"
  | NonPositiveTotal => "total duration must be positive"
  end.

Inductive result (A : Type) : Type :=
| Ok (value : A)
| Err (err : error).
Arguments Ok {A} value.
Arguments Err {A} err.

(** [monthRegex = (\d+)M] and [unitRegex = (\d+)([mhdw])]. *)
Definition isMonthMarker (c : ascii) : bool := Ascii.eqb c "M".
Definition isUnitLetter (c : ascii) : bool :=
  Ascii.eqb c "m" || Ascii.eqb c "h" || Ascii.eqb c "d" || Ascii.eqb c "w".

Definition monthRegex_FindAll (s : string) : list regexp.submatch :=
  regexp.findAll isMonthMarker "" s.
Definition monthRegex_ReplaceAll (s : string) : string :=
  regexp.removeAll isMonthMarker "" s.
Definition unitRegex_FindAll (s : string) : list regexp.submatch :=
  regexp.findAll isUnitLetter "" s.

(** The errors of [parseRelativeTime] proper: every error of the package
    but the two of [ParseDeadline] and the one of [parseTimeUnit]. *)
Definition relativeError (e : error) : Prop :=
  match e with
  | EmptyInput | InvalidFormat _ | InvalidUnit _ => False
  | _ => True
  end.

Definition whole (m : regexp.submatch) : string := m.1.1.
Definition group1 (m : regexp.submatch) : string := m.1.2.
Definition group2 (m : regexp.submatch) : string := m.2.

Definition parseTimeUnit (value : Z) (unit : string) : result Duration :=
  if String.eqb unit "m" then Ok (GoInt.mul value Minute)
  else if String.eqb unit "h" then Ok (GoInt.mul value Hour)
  else if String.eqb unit "d" then Ok (GoInt.mul (GoInt.mul value 24) Hour)
  else if String.eqb unit "w" then
    Ok (GoInt.mul (GoInt.mul (GoInt.mul value 7) 24) Hour)
  else Err (InvalidUnit unit).

(** The loop over [monthMatches]. *)
Fixpoint sumMonths (monthMatches : list regexp.submatch) (months : Z)
  : result Z :=
  match monthMatches with
  | [] => Ok months
  | m :: rest =>
      match strconv.Atoi (group1 m) with
      | None => Err (InvalidMonthNumber (group1 m))
      | Some value =>
          if value <=? 0 then Err NonPositiveMonth
          else sumMonths rest (GoInt.add months value)
      end
  end.

(** The loop over [matches] that accumulates [totalDuration]. *)
Fixpoint sumUnits (matches : list regexp.submatch) (totalDuration : Duration)
  : result Duration :=
  match matches with
  | [] => Ok totalDuration
  | m :: rest =>
      match strconv.Atoi (group1 m) with
      | None => Err (InvalidNumber (group1 m))
      | Some value =>
          if value <=? 0 then Err NonPositiveValue
          else match parseTimeUnit value (group2 m) with
               | Err e => Err e
               | Ok unitDuration =>
                   sumUnits rest (GoInt.add totalDuration unitDuration)
               end
      end
  end.

(** [reconstructed]: every unit match, then one ["M"] for each of the
    [months] iterations of [for i := 0; i < months; i++]. *)
Definition reconstruct (matches : list regexp.submatch) (months : Z) : string :=
  fold_left (fun acc m => acc +:+ whole m) matches "" +:+
  Repeat "M" (Z.to_nat months).

(** [inputNoSpace]: the input without spaces and tabs, in lower case,
    with the first occurrence of each month match replaced by ["M"]. *)
Definition stripInput (originalInput : string)
    (monthMatches : list regexp.submatch) : string :=
  fold_left (fun acc m => Replace1 acc (ToLower (whole m)) "M") monthMatches
            (ToLower (RemoveAll "009" (RemoveAll " " originalInput))).

(** The two lengths that the coverage check of [parseRelativeTime]
    compares, for an input without month tokens. *)
Definition reconstructedShorter (input : string) : Prop :=
  (String.length
     (ToLower (reconstruct
                 (unitRegex_FindAll (ToLower (monthRegex_ReplaceAll input))) 0))
   < String.length (stripInput input (monthRegex_FindAll input)))%nat.

Definition parseRelativeTime (input : string) (now : Time) : result Duration :=
  let originalInput := input in
  let monthMatches := monthRegex_FindAll originalInput in
  match sumMonths monthMatches 0 with
  | Err e => Err e
  | Ok months =>
      let processedInput := ToLower (monthRegex_ReplaceAll originalInput) in
      let matches := unitRegex_FindAll processedInput in
      if (length matches =? 0)%nat && (months =? 0) then Err NoValidUnits
      else
        let reconstructedNoSpaces := ToLower (reconstruct matches months) in
        let inputNoSpace := stripInput originalInput monthMatches in
        if negb (String.length reconstructedNoSpaces
                 =? String.length inputNoSpace)%nat
        then Err InvalidCharacters
        else
          match sumUnits matches 0 with
          | Err e => Err e
          | Ok totalDuration =>
              let totalDuration :=
                if 0 <? months then
                  let targetTime := AddDate now 0 months 0 in
                  GoInt.add totalDuration (Sub targetTime now)
                else totalDuration in
              if (totalDuration <=? 0) && (months =? 0)
              then Err NonPositiveTotal
              else Ok totalDuration
          end
  end.

(** [ParseDeadline], with the relative parser it falls back to as an
    argument. *)
Definition ParseDeadlineWith (relative : string → result Duration)
    (input : string) (now : Time) : result Time :=
  let input := TrimSpace input in
  if regexp.isEmpty input then Err EmptyInput
  else
    match timeParse.ParseInLocation input with
    | Some t => Ok t
    | None =>
        match relative input with
        | Err e => Err (InvalidFormat e)
        | Ok duration => Ok (Add now duration)
        end
    end.

(** [ParseDeadline(input)]; [nowRel] is the clock read by
    [parseRelativeTime], [now] the one read afterwards. *)
Definition ParseDeadline (input : string) (nowRel now : Time) : result Time :=
  ParseDeadlineWith (fun s => parseRelativeTime s nowRel) input now.

End utils.

(** ** Package [models] *)

Module models.
Import time.
Local Open Scope Z_scope.

Record Todo : Type := {
  ID : string;
  Title : string;
  Description : string;
  Deadline : option Time;
  Completed : bool;
  CompletedAt : option Time;
  CreatedAt : Time;
  UpdatedAt : Time
}.

Definition IsOverdue (t : Todo) (now : Time) : bool :=
  match Deadline t with
  | None => false
  | Some deadline => if Completed t then false else Before deadline now
  end.

(** [int(duration.Hours() / 24)] *)
Definition daysOf (duration : Duration) : Z :=
  Float64.to_int (Float64.div (Hours duration) (inject_Z 24)).

Definition DaysUntilDeadline (t : Todo) (now : Time) : Z :=
  match Deadline t with
  | None => -1
  | Some deadline => daysOf (Until now deadline)
  end.

Definition MarkComplete (t : Todo) (now : Time) : Todo :=
  {| ID := ID t; Title := Title t; Description := Description t;
     Deadline := Deadline t; Completed := true; CompletedAt := Some now;
     CreatedAt := CreatedAt t; UpdatedAt := now |}.

Definition MarkIncomplete (t : Todo) (now : Time) : Todo :=
  {| ID := ID t; Title := Title t; Description := Description t;
     Deadline := Deadline t; Completed := false; CompletedAt := None;
     CreatedAt := CreatedAt t; UpdatedAt := now |}.

End models.

(** ** Package [encoding/json] on a todo

    The store holds the JSON encoding of a todo.  [json.Marshal] fails
    when a time has a year outside 0 to 9999, and writes U+FFFD for every
    byte of a string that is not part of a valid UTF-8 encoding; what
    [json.Unmarshal] reads back is the todo itself exactly when neither
    happens. *)

Module json.
Import time models.
Local Open Scope Z_scope.

(** [Time.MarshalJSON] returns no error. *)
Definition timeOK (t : Time) : bool :=
  let '(year, _, _) := DateOf t in (0 <=? year) && (year <=? 9999).

Definition pointerOK (t : option Time) : bool :=
  match t with Some t => timeOK t | None => true end.

(** The todos that are encoded without error and decoded to themselves. *)
Definition roundTrips (todo : Todo) : bool :=
  utf8.ValidString (ID todo) && utf8.ValidString (Title todo) &&
  utf8.ValidString (Description todo) &&
  pointerOK (Deadline todo) && pointerOK (CompletedAt todo) &&
  timeOK (CreatedAt todo) && timeOK (UpdatedAt todo).

End json.

(** ** A bbolt bucket

    A bucket maps keys to values and iterates in the byte order of its
    keys.  Values are kept as the records themselves: the JSON encoding
    of the store is taken to round-trip, which it does for the todos of
    [json.roundTrips]; the properties that read a todo back are stated
    for those.  [Put] rejects an empty key and a key of more than
    [MaxKeySize] bytes. *)

Module bolt.

Inductive error : Type :=
| ErrKeyRequired
| ErrKeyTooLarge.

Definition MaxKeySize : Z := 32768.

Definition Bucket (V : Type) : Type := list (string * V).

Fixpoint Get {V} (b : Bucket V) (key : string) : option V :=
  match b with
  | [] => None
  | (k, v) :: rest => if String.eqb k key then Some v else Get rest key
  end.

Fixpoint insert {V} (b : Bucket V) (key : string) (value : V) : Bucket V :=
  match b with
  | [] => [(key, value)]
  | (k, v) :: rest =>
      match String.compare key k with
      | Lt => (key, value) :: b
      | Eq => (key, value) :: rest
      | Gt => (k, v) :: insert rest key value
      end
  end.

(** The keys that [Put] accepts. *)
Definition validKey (key : string) : Prop :=
  key ≠ "" ∧ (Z.of_nat (String.length key) <= MaxKeySize)%Z.

Definition Put {V} (b : Bucket V) (key : string) (value : V)
  : Bucket V + error :=
  if (String.length key =? 0)%nat then inr ErrKeyRequired
  else if (MaxKeySize <? Z.of_nat (String.length key))%Z then inr ErrKeyTooLarge
  else inl (insert b key value).

Fixpoint Delete {V} (b : Bucket V) (key : string) : Bucket V :=
  match b with
  | [] => []
  | (k, v) :: rest =>
      if String.eqb k key then Delete rest key else (k, v) :: Delete rest key
  end.

(** The values in the order of [ForEach]. *)
Definition ForEach {V} (b : Bucket V) : list V := map snd b.

End bolt.

(** ** Package [storage] *)

Module storage.
Import time models.
Local Open Scope Z_scope.

Inductive error : Type :=
| TodoNotFound
| BoltError (e : bolt.error).

(** [DailyCompletions] is [None] for a nil map. *)
Record Streak : Type := {
  CurrentStreak : Z;
  MaxStreak : Z;
  LastCompletedAt : Time;
  TotalCompleted : Z;
  DailyCompletions : option (gmap string Z)
}.

(** The database: the buckets ["todos"] and ["streaks"]. *)
Record BoltStorage : Type := {
  todoBucket : bolt.Bucket Todo;
  streakBucket : bolt.Bucket Streak
}.

(** [NewBoltStorage] on a fresh file: both buckets exist and are empty. *)
Definition NewBoltStorage : BoltStorage :=
  {| todoBucket := []; streakBucket := [] |}.

Definition putTodo (s : BoltStorage) (todo : Todo) : BoltStorage * option error :=
  match bolt.Put (todoBucket s) (ID todo) todo with
  | inl b => ({| todoBucket := b; streakBucket := streakBucket s |}, None)
  | inr e => (s, Some (BoltError e))
  end.

(** [SaveTodo]; returns the todo as the caller sees it afterwards. *)
Definition SaveTodo (s : BoltStorage) (todo : Todo) (now1 now2 : Time)
  : BoltStorage * Todo * option error :=
  let todo :=
    {| ID := ID todo; Title := Title todo; Description := Description todo;
       Deadline := Deadline todo; Completed := Completed todo;
       CompletedAt := CompletedAt todo; CreatedAt := now1; UpdatedAt := now2 |} in
  let '(s, err) := putTodo s todo in
  (s, todo, err).

Definition GetTodo (s : BoltStorage) (id : string) : option Todo * option error :=
  match bolt.Get (todoBucket s) id with
  | None => (None, Some TodoNotFound)
  | Some todo => (Some todo, None)
  end.

Definition todoLess (a b : Todo) : bool :=
  if negb (Bool.eqb (Completed a) (Completed b)) then negb (Completed a)
  else
    let byCreation := After (CreatedAt a) (CreatedAt b) in
    if negb (Completed a) then
      match Deadline a, Deadline b with
      | Some da, Some db => Before da db
      | Some _, None => true
      | None, Some _ => false
      | None, None => byCreation
      end
    else byCreation.

(** The listing order in the words of the specification: [a] may stand
    before [b].  Incomplete before completed; among the incomplete, with
    a deadline before without, and the earlier deadline first; every
    other pair by creation time, the most recent first. *)
Definition listedBefore (a b : Todo) : Prop :=
  match Completed a, Completed b with
  | false, true => True
  | true, false => False
  | false, false =>
      match Deadline a, Deadline b with
      | Some da, Some db => da <= db
      | Some _, None => True
      | None, Some _ => False
      | None, None => CreatedAt b <= CreatedAt a
      end
  | true, true => CreatedAt b <= CreatedAt a
  end.

Definition GetAllTodos (s : BoltStorage) : list Todo :=
  sort.Slice todoLess (bolt.ForEach (todoBucket s)).

Definition GetStreak (s : BoltStorage) : Streak :=
  match bolt.Get (streakBucket s) "current" with
  | None =>
      {| CurrentStreak := 0; MaxStreak := 0; LastCompletedAt := zeroTime;
         TotalCompleted := 0; DailyCompletions := Some ∅ |}
  | Some streak => streak
  end.

Definition UpdateStreak (s : BoltStorage) (streak : Streak)
  : BoltStorage * option error :=
  match bolt.Put (streakBucket s) "current" streak with
  | inl b => ({| todoBucket := todoBucket s; streakBucket := b |}, None)
  | inr e => (s, Some (BoltError e))
  end.

(** The changes [updateStreakOnCompletion] makes to the streak it has
    read, before it writes it back. *)
Definition recordCompletion (streak : Streak) (now : Time) : Streak :=
  let today := FormatDay now in
  let daily := default ∅ (DailyCompletions streak) in
  let daily := <[today := GoInt.incr (default 0 (daily !! today))]> daily in
  let total := GoInt.incr (TotalCompleted streak) in
  let '(current, max) :=
    if negb (IsZero (LastCompletedAt streak)) then
      let daysSinceLastCompletion :=
        daysOf (Sub now (LastCompletedAt streak)) in
      if daysSinceLastCompletion =? 0 then
        (CurrentStreak streak, MaxStreak streak)
      else if daysSinceLastCompletion =? 1 then
        let current := GoInt.incr (CurrentStreak streak) in
        (current, if MaxStreak streak <? current then current
                  else MaxStreak streak)
      else (1, MaxStreak streak)
    else (1, if MaxStreak streak =? 0 then 1 else MaxStreak streak) in
  {| CurrentStreak := current; MaxStreak := max; LastCompletedAt := now;
     TotalCompleted := total; DailyCompletions := Some daily |}.

Definition updateStreakOnCompletion (s : BoltStorage) (now : Time)
  : BoltStorage * option error :=
  let streak := GetStreak s in
  UpdateStreak s (recordCompletion streak now).

(** The store after a history of completions, each at its instant,
    starting from the empty store. *)
Definition afterCompletions (nows : list Time) : BoltStorage :=
  fold_left (fun s now => (updateStreakOnCompletion s now).1) nows
            NewBoltStorage.

(** What holds of the streak after [n] completions. *)
Definition streak_inv (n : Z) (st : Streak) : Prop :=
  TotalCompleted st = n /\
  ((n = 0 /\ CurrentStreak st = 0 /\ MaxStreak st = 0 /\
    LastCompletedAt st = zeroTime) \/
   (1 <= CurrentStreak st <= MaxStreak st /\ CurrentStreak st <= n)).

(** The sum of the per-day counts. *)
Definition dailyTotal (daily : gmap string Z) : Z :=
  map_fold (fun _ count acc => count + acc) 0 daily.

(** What holds of the per-day counts after the completions [nows]. *)
Definition daily_inv (nows : list Time) (st : Streak) : Prop :=
  TotalCompleted st = Z.of_nat (length nows) ∧
  ∃ m, DailyCompletions st = Some m ∧
       map_Forall (λ _ c, 1 <= c) m ∧
       dailyTotal m = Z.of_nat (length nows) ∧
       ∀ day, default 0 (m !! day)
              = Z.of_nat (length (filter (λ now, FormatDay now = day) nows)).

(** The shape of the bucket of todos that the operations of the package
    keep: keys in strictly ascending byte order, each the [ID] of its
    record. *)
Definition keysAscending {V} (b : bolt.Bucket V) : Prop :=
  StronglySorted (fun x y => String.compare x.1 y.1 = Lt) b.

Definition wellFormed (s : BoltStorage) : Prop :=
  keysAscending (todoBucket s) ∧
  Forall (fun kv => kv.1 = ID kv.2) (todoBucket s).

Definition isNil {E} (err : option E) : bool :=
  match err with None => true | Some _ => false end.

(** [UpdateTodo]; [now] is the clock read inside the transaction,
    [nowStreak] the one read by [updateStreakOnCompletion].  Returns the
    todo as the caller sees it afterwards. *)
Definition UpdateTodo (s : BoltStorage) (todo : Todo) (now nowStreak : Time)
  : BoltStorage * Todo * option error :=
  let wasCompleted :=
    match (GetTodo s (ID todo)).1 with
    | Some existingTodo => Completed existingTodo
    | None => false
    end in
  let todo :=
    {| ID := ID todo; Title := Title todo; Description := Description todo;
       Deadline := Deadline todo; Completed := Completed todo;
       CompletedAt := CompletedAt todo; CreatedAt := CreatedAt todo;
       UpdatedAt := now |} in
  let '(s, err) := putTodo s todo in
  let s :=
    if negb (isNil err) && negb wasCompleted && Completed todo
    then (updateStreakOnCompletion s nowStreak).1
    else s in
  (s, todo, err).

Definition DeleteTodo (s : BoltStorage) (id : string) : BoltStorage :=
  {| todoBucket := bolt.Delete (todoBucket s) id;
     streakBucket := streakBucket s |}.

Definition hasDeadline (todo : Todo) : bool :=
  match Deadline todo with Some _ => true | None => false end.

Definition isUpcoming (todo : Todo) : bool :=
  negb (Completed todo) && hasDeadline todo.

Definition deadlineLess (a b : Todo) : bool :=
  match Deadline a, Deadline b with
  | Some da, Some db => Before da db
  | _, _ => false
  end.

(** [a] is due no later than [b]. *)
Definition dueNoLater (a b : Todo) : Prop :=
  ∀ da db, Deadline a = Some da → Deadline b = Some db → da <= db.

(** [GetTopUpcomingTodos]; [None] stands for the run-time panic of a
    slice expression with a negative bound. *)
Definition GetTopUpcomingTodos (todos : list Todo) (limit : Z)
  : option (list Todo) :=
  let upcomingTodos := List.filter isUpcoming todos in
  let upcomingTodos := sort.Slice deadlineLess upcomingTodos in
  if limit <? Z.of_nat (length upcomingTodos) then
    if limit <? 0 then None else Some (take (Z.to_nat limit) upcomingTodos)
  else Some upcomingTodos.

Definition GetTodosWithoutDeadline (todos : list Todo) : list Todo :=
  List.filter (fun todo => negb (Completed todo) && negb (hasDeadline todo))
              todos.

End storage.

(** ** Package [main]: the command line *)

Module cli.
Import time models storage utils.
Local Open Scope Z_scope.

Definition MaxTitleLength : Z := 100.
Definition MaxDescriptionLength : Z := 500.

(** [fmt.Sprintf("%d", time.Now().UnixNano())] *)
Definition generateID (now : Time) : string := pretty (UnixNano now).

(** The readings of the clock on the path of [main] that creates a todo,
    in the order in which they are taken. *)
Record Clock : Type := {
  nowRelative : Time;
  nowDeadline : Time;
  nowID : Time;
  nowCreated : Time;
  nowSaveCreated : Time;
  nowSaveUpdated : Time
}.

(** How [main] ends. *)
Inductive outcome : Type :=
| HelpShown
| ListView
| FormView
| MissingArgument
| TitleTooLong
| DescriptionTooLong
| InvalidDeadline (err : utils.error)
| SaveFailed (err : storage.error)
| Created (todo : Todo).

(** [main] after the flags are parsed and the store is open. *)
Definition main (store : BoltStorage) (title description deadline : string)
    (listMode showHelp : bool) (clock : Clock) : BoltStorage * outcome :=
  if showHelp then (store, HelpShown)
  else if listMode then (store, ListView)
  else if regexp.isEmpty title && regexp.isEmpty description
  then (store, FormView)
  else if regexp.isEmpty title || regexp.isEmpty description
  then (store, MissingArgument)
  else if MaxTitleLength <? Z.of_nat (String.length title)
  then (store, TitleTooLong)
  else if MaxDescriptionLength <? Z.of_nat (String.length description)
  then (store, DescriptionTooLong)
  else
    let parsed :=
      if regexp.isEmpty deadline then Ok None
      else match ParseDeadline deadline (nowRelative clock) (nowDeadline clock) with
           | Ok t => Ok (Some t)
           | Err e => Err e
           end in
    match parsed with
    | Err e => (store, InvalidDeadline e)
    | Ok deadlineTime =>
        let todo :=
          {| ID := generateID (nowID clock); Title := title;
             Description := description; Deadline := deadlineTime;
             Completed := false; CompletedAt := None;
             CreatedAt := nowCreated clock; UpdatedAt := zeroTime |} in
        match SaveTodo store todo (nowSaveCreated clock) (nowSaveUpdated clock) with
        | (store', todo', None) => (store', Created todo')
        | (store', _, Some err) => (store', SaveFailed err)
        end
    end.


End cli.

(** ** Package [ui]: the list view

    The model of the list together with the store it works on.  The
    todos of the list are shared: [m.todos], [m.topUpcoming],
    [m.todosNoDeadline] and [m.todoToDelete] hold pointers to the same
    todos, and [toggleComplete] changes a todo through one of them.  The
    model therefore carries the todos in a memory, and its lists hold
    places of that memory.  The rendering is left out; a command returned
    to the run time is a tag. *)

Module ui.
Import time models storage.
Local Open Scope Z_scope.

Definition pageSize : Z := 10.

Inductive error : Type :=
| NoTodoSelected
| StorageError (e : storage.error).

(** A [*models.Todo]: the place of the todo in [memory], which holds every
    todo that the model has a pointer to.  The three lists and
    [todoToDelete] hold pointers, as in the code, so that a todo changed
    through one of them is changed for all. *)
Definition pointer : Type := nat.

Record ListModel : Type := {
  memory : list Todo;
  todos : list pointer;
  topUpcoming : list pointer;
  todosNoDeadline : list pointer;
  streak : option Streak;
  cursor : Z;
  expanded : gmap Z bool;
  currentPage : Z;
  showHelp : bool;
  err : option error;
  loading : bool;
  confirmingDelete : bool;
  todoToDelete : option pointer
}.

Definition NewListModel : ListModel :=
  {| memory := []; todos := []; topUpcoming := []; todosNoDeadline := [];
     streak := None; cursor := 0; expanded := ∅; currentPage := 0;
     showHelp := false; err := None; loading := true;
     confirmingDelete := false; todoToDelete := None |}.

(** What the run time is asked to do next. *)
Inductive Cmd : Type :=
| NoCmd
| Quit
| LoadData
| OpenForm.

(** The message that [loadData] returns. *)
Definition loadData (s : BoltStorage) : list Todo * Streak :=
  (GetAllTodos s, GetStreak s).

Definition zeroTodo : Todo :=
  {| ID := ""; Title := ""; Description := ""; Deadline := None;
     Completed := false; CompletedAt := None; CreatedAt := zeroTime;
     UpdatedAt := zeroTime |}.

(** Every pointer of the model is a place of its memory: so it is for
    the models that the program builds. *)
Definition pointersValid (m : ListModel) : Prop :=
  ∀ p, p ∈ todos m ++ topUpcoming m ++ todosNoDeadline m ∨
       todoToDelete m = Some p →
       (p < length (memory m))%nat.

(** The todo that a pointer leads to; at a place that [memory] does not
    have, which no pointer of a [pointersValid] model is, the zero todo is
    read. *)
Definition pointee (m : ListModel) (p : pointer) : Todo :=
  match memory m !! p with
  | Some todo => todo
  | None => zeroTodo
  end.

(** [getVisibleTodos], the slice of pointers that it returns. *)
Definition visiblePointers (m : ListModel) : list pointer :=
  topUpcoming m ++ todosNoDeadline m ++
  List.filter (fun p => Completed (pointee m p)) (todos m).

(** [getCurrentTodo], the pointer that it returns; [None] is [nil]. *)
Definition currentPointer (m : ListModel) : option pointer :=
  let visible := visiblePointers m in
  if (0 <=? cursor m) && (cursor m <? Z.of_nat (length visible))
  then visible !! Z.to_nat (cursor m)
  else None.

(** The todos behind the pointers of [getVisibleTodos] and of
    [getCurrentTodo]. *)
Definition getVisibleTodos (m : ListModel) : list Todo :=
  pointee m <$> visiblePointers m.

Definition getCurrentTodo (m : ListModel) : option Todo :=
  pointee m <$> currentPointer m.

Definition withCursor (m : ListModel) (cursor currentPage : Z) : ListModel :=
  {| memory := memory m; todos := todos m; topUpcoming := topUpcoming m;
     todosNoDeadline := todosNoDeadline m; streak := streak m;
     cursor := cursor; expanded := expanded m; currentPage := currentPage;
     showHelp := showHelp m; err := err m; loading := loading m;
     confirmingDelete := confirmingDelete m; todoToDelete := todoToDelete m |}.

Definition ensureCursorVisible (m : ListModel) : ListModel :=
  let visibleCount := Z.of_nat (length (visiblePointers m)) in
  let pageCount := Z.quot (visibleCount + pageSize - 1) pageSize in
  let targetPage := Z.quot (cursor m) pageSize in
  if negb (targetPage =? currentPage m) && (targetPage <? pageCount)
  then withCursor m (cursor m) targetPage
  else m.

(** What [renderTodo] writes behind the title of a todo, without the
    styling: nothing, [" (Overdue by %d days)"], [" (Due today!)"],
    [" (%d days left)"], or the deadline formatted as a date. *)
Inductive deadlineInfo : Type :=
| NoInfo
| OverdueBy (days : Z)
| DueToday
| DaysLeft (days : Z)
| OnDate (deadline : Time).

(** The computation of [deadlineInfo] in [renderTodo]; [now] is the clock
    read by [DaysUntilDeadline]. *)
Definition renderDeadlineInfo (todo : Todo) (now : Time) : deadlineInfo :=
  match Deadline todo with
  | Some deadline =>
      if negb (Completed todo) then
        let days := DaysUntilDeadline todo now in
        if days <? 0 then OverdueBy (GoInt.wrap64 (- days))
        else if days =? 0 then DueToday
        else if days <=? 3 then DaysLeft days
        else OnDate deadline
      else NoInfo
  | None => NoInfo
  end.

(** The cursor is an index of the visible list, or 0 when the list is
    empty. *)
Definition cursorInRange (m : ListModel) : Prop :=
  0 <= cursor m < Z.max 1 (Z.of_nat (length (getVisibleTodos m))).

(** The todo behind [p] becomes [todo]: an assignment through the
    pointer. *)
Definition withTodo (m : ListModel) (p : pointer) (todo : Todo) : ListModel :=
  {| memory := <[p := todo]> (memory m); todos := todos m;
     topUpcoming := topUpcoming m; todosNoDeadline := todosNoDeadline m;
     streak := streak m; cursor := cursor m; expanded := expanded m;
     currentPage := currentPage m; showHelp := showHelp m; err := err m;
     loading := loading m; confirmingDelete := confirmingDelete m;
     todoToDelete := todoToDelete m |}.

(** [toggleComplete]; [nowMark] is the clock read by [MarkComplete] or
    [MarkIncomplete], the other two are those of [UpdateTodo].  The
    selected todo is changed where it is, by the marking and by
    [UpdateTodo], whether or not it can be stored: the lists of the model
    see the change before any reload. *)
Definition toggleComplete (m : ListModel) (s : BoltStorage)
    (nowMark now nowStreak : Time) : ListModel * BoltStorage * option error :=
  match currentPointer m with
  | None => (m, s, Some NoTodoSelected)
  | Some p =>
      let todo := pointee m p in
      let todo :=
        if Completed todo then MarkIncomplete todo nowMark
        else MarkComplete todo nowMark in
      let '(s, todo, err) := UpdateTodo s todo now nowStreak in
      (withTodo m p todo, s, StorageError <$> err)
  end.

Definition withErr (m : ListModel) (e : option error) : ListModel :=
  {| memory := memory m; todos := todos m; topUpcoming := topUpcoming m;
     todosNoDeadline := todosNoDeadline m; streak := streak m;
     cursor := cursor m; expanded := expanded m; currentPage := currentPage m;
     showHelp := showHelp m; err := e; loading := loading m;
     confirmingDelete := confirmingDelete m; todoToDelete := todoToDelete m |}.

Definition withConfirm (m : ListModel) (confirming : bool)
    (todo : option pointer) : ListModel :=
  {| memory := memory m; todos := todos m; topUpcoming := topUpcoming m;
     todosNoDeadline := todosNoDeadline m; streak := streak m;
     cursor := cursor m; expanded := expanded m; currentPage := currentPage m;
     showHelp := showHelp m; err := err m; loading := loading m;
     confirmingDelete := confirming; todoToDelete := todo |}.

(** [storage.GetTopUpcomingTodos] and [storage.GetTodosWithoutDeadline] on
    a slice of pointers, as the list view calls them: the same
    computations, which read each todo through its pointer with [load]
    and return pointers of the slice. *)
Definition GetTopUpcomingTodosAt (load : pointer → Todo)
    (todos : list pointer) (limit : Z) : option (list pointer) :=
  let upcomingTodos := List.filter (fun p => isUpcoming (load p)) todos in
  let upcomingTodos :=
    sort.Slice (fun a b => deadlineLess (load a) (load b)) upcomingTodos in
  if limit <? Z.of_nat (length upcomingTodos) then
    if limit <? 0 then None else Some (take (Z.to_nat limit) upcomingTodos)
  else Some upcomingTodos.

Definition GetTodosWithoutDeadlineAt (load : pointer → Todo)
    (todos : list pointer) : list pointer :=
  List.filter (fun p => negb (Completed (load p)) && negb (hasDeadline (load p)))
              todos.

(** The todos of a message, which [GetAllTodos] has allocated, get the
    places behind those in use; [m.todos] points to them in the order of
    the message. *)
Definition allocate (m : ListModel) (todos : list Todo) : ListModel :=
  {| memory := memory m ++ todos;
     todos := seq (length (memory m)) (length todos);
     topUpcoming := topUpcoming m; todosNoDeadline := todosNoDeadline m;
     streak := streak m; cursor := cursor m; expanded := expanded m;
     currentPage := currentPage m; showHelp := showHelp m; err := err m;
     loading := loading m; confirmingDelete := confirmingDelete m;
     todoToDelete := todoToDelete m |}.

(** The case [dataLoadedMsg] of [Update]. *)
Definition dataLoaded (m : ListModel) (msg : list Todo * Streak) : ListModel :=
  let m := allocate m msg.1 in
  {| memory := memory m; todos := todos m;
     topUpcoming := default [] (GetTopUpcomingTodosAt (pointee m) (todos m) 10);
     todosNoDeadline := GetTodosWithoutDeadlineAt (pointee m) (todos m);
     streak := Some msg.2;
     cursor := cursor m; expanded := expanded m; currentPage := currentPage m;
     showHelp := showHelp m; err := err m; loading := false;
     confirmingDelete := confirmingDelete m; todoToDelete := todoToDelete m |}.

(** The case [tea.KeyMsg] of [Update], for the key named [key]. *)
Definition keyPressed (m : ListModel) (s : BoltStorage) (key : string)
    (nowMark now nowStreak : Time) : ListModel * BoltStorage * Cmd :=
  if String.eqb key "q" || String.eqb key "ctrl+c" || String.eqb key "esc"
  then (m, s, Quit)
  else if String.eqb key "up" || String.eqb key "k" then
    if 0 <? cursor m
    then (ensureCursorVisible (withCursor m (cursor m - 1) (currentPage m)),
          s, NoCmd)
    else (m, s, NoCmd)
  else if String.eqb key "down" || String.eqb key "j" then
    if cursor m <? Z.of_nat (length (visiblePointers m)) - 1
    then (ensureCursorVisible (withCursor m (cursor m + 1) (currentPage m)),
          s, NoCmd)
    else (m, s, NoCmd)
  else if String.eqb key "Space" then
    ({| memory := memory m; todos := todos m; topUpcoming := topUpcoming m;
        todosNoDeadline := todosNoDeadline m; streak := streak m;
        cursor := cursor m;
        expanded := <[cursor m := negb (default false (expanded m !! cursor m))]>
                      (expanded m);
        currentPage := currentPage m; showHelp := showHelp m; err := err m;
        loading := loading m; confirmingDelete := confirmingDelete m;
        todoToDelete := todoToDelete m |}, s, NoCmd)
  else if String.eqb key "c" then
    let '(m, s, e) := toggleComplete m s nowMark now nowStreak in
    ((match e with Some _ => withErr m e | None => m end), s, LoadData)
  else if String.eqb key "d" then
    if negb (confirmingDelete m) then
      match currentPointer m with
      | Some todo => (withConfirm m true (Some todo), s, NoCmd)
      | None => (m, s, NoCmd)
      end
    else (m, s, NoCmd)
  else if String.eqb key "n" then
    if confirmingDelete m then (withConfirm m false None, s, NoCmd)
    else (m, s, OpenForm)
  else if String.eqb key "y" then
    match confirmingDelete m, todoToDelete m with
    | true, Some todo =>
        (withConfirm m false None, DeleteTodo s (ID (pointee m todo)), LoadData)
    | _, _ => (m, s, NoCmd)
    end
  else if String.eqb key "r" then
    ({| memory := memory m; todos := todos m; topUpcoming := topUpcoming m;
        todosNoDeadline := todosNoDeadline m; streak := streak m;
        cursor := cursor m; expanded := expanded m;
        currentPage := currentPage m; showHelp := showHelp m; err := err m;
        loading := true; confirmingDelete := confirmingDelete m;
        todoToDelete := todoToDelete m |}, s, LoadData)
  else if String.eqb key "?" || String.eqb key "h" then
    ({| memory := memory m; todos := todos m; topUpcoming := topUpcoming m;
        todosNoDeadline := todosNoDeadline m; streak := streak m;
        cursor := cursor m; expanded := expanded m;
        currentPage := currentPage m; showHelp := negb (showHelp m);
        err := err m; loading := loading m;
        confirmingDelete := confirmingDelete m;
        todoToDelete := todoToDelete m |}, s, NoCmd)
  else if String.eqb key "pgup" || String.eqb key "b" then
    if 0 <? currentPage m
    then (withCursor m 0 (currentPage m - 1), s, NoCmd)
    else (m, s, NoCmd)
  else if String.eqb key "pgdown" || String.eqb key "f" then
    if (currentPage m + 1) * pageSize <? Z.of_nat (length (visiblePointers m))
    then (withCursor m 0 (currentPage m + 1), s, NoCmd)
    else (m, s, NoCmd)
  else (m, s, NoCmd).

End ui.

(** ** Sequences of unit tokens *)

Module tokens.
Import time strings utils.
Local Open Scope Z_scope.

(** A count, its unit letter, and the blanks written before it. *)
Record token : Type := {
  blanks : string;
  count : Z;
  unit : ascii
}.

Definition tokenText (t : token) : string :=
  blanks t +:+ pretty (count t) +:+ String (unit t) "".

(** The tokens one after the other, then [trailing]. *)
Definition text (ts : list token) (trailing : string) : string :=
  fold_right (fun t rest => tokenText t +:+ rest) trailing ts.

(** The duration of a token as [parseTimeUnit] computes it. *)
Definition tokenDuration (t : token) : Duration :=
  match parseTimeUnit (count t) (String (unit t) "") with
  | Ok d => d
  | Err _ => 0
  end.

(** The durations added up as [totalDuration += unitDuration] does. *)
Definition totalDuration (ts : list token) : Duration :=
  fold_left (fun acc t => GoInt.add acc (tokenDuration t)) ts 0.

Definition validToken (t : token) : Prop :=
  forallChars isBlank (blanks t) = true ∧
  0 < count t <= GoInt.maxInt64 ∧
  isUnitLetter (unit t) = true.

(** The nanoseconds of one unit: the factors of [parseTimeUnit]. *)
Definition unitNanos (unit : ascii) : Z :=
  if Ascii.eqb unit "m" then Minute
  else if Ascii.eqb unit "h" then Hour
  else if Ascii.eqb unit "d" then 24 * Hour
  else if Ascii.eqb unit "w" then 7 * 24 * Hour
  else 0.

(** The durations added up in the integers, without wrap-around. *)
Definition exactDuration (ts : list token) : Z :=
  fold_right (fun t acc => count t * unitNanos (unit t) + acc) 0 ts.

(** The match of [unitRegex] that a token gives rise to. *)
Definition matchOf (t : token) : regexp.submatch :=
  (pretty (count t) +:+ String (unit t) "", pretty (count t),
   String (unit t) "").

End tokens.

(** ** Sample data *)

Module samples.
Import time models storage.
Local Open Scope Z_scope.

Definition noon : Time := Date 2025 11 16 12 0 0 0.

Definition task (id : string) (deadline : option Time) (completed : bool)
    (created : Time) : Todo :=
  {| ID := id; Title := "Task " +:+ id; Description := "";
     Deadline := deadline; Completed := completed;
     CompletedAt := if completed then Some created else None;
     CreatedAt := created; UpdatedAt := created |}.

(** A store that holds one incomplete task. *)
Definition oneTask : BoltStorage :=
  (SaveTodo NewBoltStorage (task "t1" None false noon) noon noon).1.1.

(** A streak of 3 whose last completion was at [noon]. *)
Definition streak3 : Streak :=
  {| CurrentStreak := 3; MaxStreak := 5; LastCompletedAt := noon;
     TotalCompleted := 7; DailyCompletions := Some {[ "2025-11-16" := 2 ]} |}.

(** The tasks of [TestGetTopUpcomingTodos]. *)
Definition five : list Todo :=
  [ task "3" (Some (noon + 12 * Hour)) false noon;
    task "5" (Some (noon + 5 * Hour)) true noon;
    task "4" None false noon;
    task "2" (Some (noon + 10 * Hour)) false noon;
    task "1" (Some (noon + 1 * Hour)) false noon ].

(** The tasks A, B and C of the ordering example of the specification. *)
Definition taskA : Todo := task "A" None false noon.
Definition taskB : Todo := task "B" (Some (noon + 24 * Hour)) false noon.
Definition taskC : Todo := task "C" None true (noon + Hour).

Definition storeOf (todos : list Todo) : BoltStorage :=
  fold_left (fun s todo => (putTodo s todo).1) todos NewBoltStorage.

(** One open task without a deadline and twelve open tasks that are due
    one to twelve hours after [noon]. *)
Definition thirteen : list Todo :=
  taskA ::
  map (fun k => task (pretty k) (Some (noon + k * Hour)) false noon)
      [1; 2; 3; 4; 5; 6; 7; 8; 9; 10; 11; 12].

End samples.

(** * Properties *)

(** ** Rounding to binary64 is monotone *)

Section Float64Facts.
Import Float64.
Local Open Scope Q_scope.

Lemma rne_bounds q : (Qfloor q <= rne q <= Qfloor q + 1)%Z.
Proof.
  unfold rne. destruct (Qcompare _ _); [destruct (Z.even _)| |]; lia.
Qed.

Lemma rne_Z z : rne (inject_Z z) = z.
Proof.
  unfold rne. rewrite Qfloor_Z.
  assert (H : inject_Z z - inject_Z z == 0) by ring.
  destruct (Qcompare_spec (inject_Z z - inject_Z z) (1 # 2)) as [E|E|E];
    rewrite H in E; try discriminate; reflexivity.
Qed.

Lemma rne_mono x y : x <= y -> (rne x <= rne y)%Z.
Proof.
  intros Hxy.
  pose proof (Qfloor_resp_le _ _ Hxy) as Hf.
  pose proof (rne_bounds x) as Bx. pose proof (rne_bounds y) as By.
  destruct (Z.eq_dec (Qfloor x) (Qfloor y)) as [E|NE]; [|lia].
  unfold rne in *. rewrite <- E in *.
  destruct (Qcompare_spec (x - inject_Z (Qfloor x)) (1 # 2)) as [Ex|Ex|Ex];
  destruct (Qcompare_spec (y - inject_Z (Qfloor x)) (1 # 2)) as [Ey|Ey|Ey];
    try lia; try (destruct (Z.even (Qfloor x)); lia); exfalso; lra.
Qed.

Lemma pow2_pos e : 0 < 2 ^ e.
Proof. apply Qpower_0_lt. reflexivity. Qed.

Lemma pow2_succ e : 2 ^ (e + 1) == 2 * 2 ^ e.
Proof. rewrite Qpower_plus by discriminate. change (2 ^ 1) with 2. ring. Qed.

Lemma pow2_add a b : 2 ^ (a + b) == 2 ^ a * 2 ^ b.
Proof. apply Qpower_plus. discriminate. Qed.

Lemma pow2_le a b : (a <= b)%Z -> 2 ^ a <= 2 ^ b.
Proof. intros H. apply Qpower_le_compat_l; [exact H | discriminate]. Qed.

Lemma pow2_lt_inv a b : 2 ^ a < 2 ^ b -> (a < b)%Z.
Proof. intros H. apply (Qpower_lt_compat_l_inv 2); [exact H | reflexivity]. Qed.

Lemma log2_Q_bounds (n : Z) :
  (0 < n)%Z -> 2 ^ Z.log2 n <= inject_Z n /\ inject_Z n < 2 * 2 ^ Z.log2 n.
Proof.
  intros Hn. destruct (Z.log2_spec n Hn) as [L U].
  pose proof (Z.log2_nonneg n) as Hl.
  split.
  - rewrite <- (Zpower_Qpower 2) by exact Hl. rewrite <- Zle_Qle. exact L.
  - rewrite <- pow2_succ. rewrite <- (Zpower_Qpower 2) by lia.
    rewrite <- Zlt_Qlt. exact U.
Qed.

Lemma binade_spec x : 0 < x -> 2 ^ binade x <= x /\ x < 2 ^ (binade x + 1).
Proof.
  intros Hx. destruct x as [n d]. unfold binade. cbn [Qnum Qden].
  assert (Hn : (0 < n)%Z) by (unfold Qlt in Hx; cbn in Hx; lia).
  destruct (log2_Q_bounds n Hn) as [Ln Un].
  destruct (log2_Q_bounds (Zpos d) eq_refl) as [Ld Ud].
  set (a := Z.log2 n) in *. set (b := Z.log2 (Zpos d)) in *.
  assert (Hd : 0 < inject_Z (Zpos d)) by reflexivity.
  assert (Ex : n # d == inject_Z n / inject_Z (Zpos d)) by apply Qmake_Qdiv.
  pose proof (pow2_pos a) as Pa. pose proof (pow2_pos b) as Pb.
  pose proof (pow2_pos (a - b)) as Pab.
  assert (Eab : 2 ^ a == 2 ^ (a - b) * 2 ^ b).
  { rewrite <- pow2_add. replace (a - b + b)%Z with a by lia. reflexivity. }
  assert (Up : n # d < 2 ^ (a - b + 1)).
  { rewrite Ex, pow2_succ. apply Qlt_shift_div_r; [exact Hd|].
    apply Qlt_le_trans with (2 * 2 ^ a); [exact Un|].
    rewrite Eab. rewrite <- Qmult_assoc, (Qmult_assoc 2).
    rewrite <- Qmult_assoc. apply Qmult_le_l; [reflexivity|].
    apply Qmult_le_l; [exact Pab | exact Ld]. }
  assert (Lo : 2 ^ (a - b - 1) < n # d).
  { rewrite Ex. apply Qlt_shift_div_l; [exact Hd|].
    apply Qlt_le_trans with (2 ^ a); [|exact Ln].
    rewrite Eab. replace (a - b)%Z with (a - b - 1 + 1)%Z at 2 by lia.
    rewrite pow2_succ.
    rewrite (Qmult_comm 2), <- Qmult_assoc.
    apply Qmult_lt_l; [apply pow2_pos | exact Ud]. }
  destruct (Qle_bool (2 ^ (a - b)) (n # d)) eqn:E.
  - apply Qle_bool_iff in E. split; [exact E | exact Up].
  - split; [apply Qlt_le_weak; exact Lo|].
    replace (a - b - 1 + 1)%Z with (a - b)%Z by lia.
    apply Qnot_le_lt. intros C. apply Qle_bool_iff in C. congruence.
Qed.

Lemma binade_unique x e : 2 ^ e <= x -> x < 2 ^ (e + 1) -> binade x = e.
Proof.
  intros L U.
  assert (Hx : 0 < x) by (eapply Qlt_le_trans; [apply (pow2_pos e)|exact L]).
  destruct (binade_spec x Hx) as [L' U'].
  assert (e < binade x + 1)%Z by (apply pow2_lt_inv; eapply Qle_lt_trans; eassumption).
  assert (binade x < e + 1)%Z by (apply pow2_lt_inv; eapply Qle_lt_trans; eassumption).
  lia.
Qed.

Lemma binade_mono x y : 0 < x -> x <= y -> (binade x <= binade y)%Z.
Proof.
  intros Hx Hxy.
  destruct (binade_spec x Hx) as [Lx _].
  destruct (binade_spec y (Qlt_le_trans _ _ _ Hx Hxy)) as [_ Uy].
  assert (binade x < binade y + 1)%Z; [|lia].
  apply pow2_lt_inv. eapply Qle_lt_trans; [exact Lx|].
  eapply Qle_lt_trans; eassumption.
Qed.

Lemma scaled_bounds x :
  0 < x -> inject_Z (2 ^ 52) <= x * 2 ^ (52 - binade x) /\
           x * 2 ^ (52 - binade x) <= inject_Z (2 ^ 53).
Proof.
  intros Hx. destruct (binade_spec x Hx) as [L U].
  set (e := binade x) in *.
  pose proof (pow2_pos (52 - e)) as P.
  assert (E52 : inject_Z (2 ^ 52) == 2 ^ e * 2 ^ (52 - e)).
  { rewrite <- pow2_add. replace (e + (52 - e))%Z with 52%Z by lia. reflexivity. }
  assert (E53 : inject_Z (2 ^ 53) == 2 ^ (e + 1) * 2 ^ (52 - e)).
  { rewrite <- pow2_add. replace (e + 1 + (52 - e))%Z with 53%Z by lia. reflexivity. }
  split.
  - rewrite E52. apply Qmult_le_r; assumption.
  - rewrite E53. apply Qmult_le_r; [assumption|]. apply Qlt_le_weak, U.
Qed.

Lemma RNpos_bounds x :
  0 < x -> 2 ^ binade x <= RNpos x /\ RNpos x <= 2 ^ (binade x + 1).
Proof.
  intros Hx. destruct (scaled_bounds x Hx) as [L U].
  unfold RNpos. set (e := binade x) in *. set (s := x * 2 ^ (52 - e)) in *.
  apply rne_mono in L, U. rewrite rne_Z in L, U.
  pose proof (pow2_pos (e - 52)) as P.
  assert (E52 : 2 ^ e == inject_Z (2 ^ 52) * 2 ^ (e - 52)).
  { change (inject_Z (2 ^ 52)) with (2 ^ 52). rewrite <- pow2_add.
    replace (52 + (e - 52))%Z with e by lia. reflexivity. }
  assert (E53 : 2 ^ (e + 1) == inject_Z (2 ^ 53) * 2 ^ (e - 52)).
  { change (inject_Z (2 ^ 53)) with (2 ^ 53). rewrite <- pow2_add.
    replace (53 + (e - 52))%Z with (e + 1)%Z by lia. reflexivity. }
  split.
  - rewrite E52. apply Qmult_le_r; [assumption|]. rewrite <- Zle_Qle. exact L.
  - rewrite E53. apply Qmult_le_r; [assumption|]. rewrite <- Zle_Qle. exact U.
Qed.

Lemma RNpos_pos x : 0 < x -> 0 < RNpos x.
Proof.
  intros Hx. eapply Qlt_le_trans; [apply (pow2_pos (binade x))|].
  apply RNpos_bounds, Hx.
Qed.

Lemma RNpos_mono x y : 0 < x -> x <= y -> RNpos x <= RNpos y.
Proof.
  intros Hx Hxy.
  assert (Hy : 0 < y) by (eapply Qlt_le_trans; eassumption).
  pose proof (binade_mono x y Hx Hxy) as Hb.
  destruct (Z.eq_dec (binade x) (binade y)) as [E|NE].
  - unfold RNpos. rewrite <- E.
    apply Qmult_le_r; [apply pow2_pos|]. rewrite <- Zle_Qle.
    apply rne_mono. apply Qmult_le_r; [apply pow2_pos | exact Hxy].
  - apply Qle_trans with (2 ^ (binade x + 1)); [apply RNpos_bounds, Hx|].
    apply Qle_trans with (2 ^ binade y); [apply pow2_le; lia|].
    apply RNpos_bounds, Hy.
Qed.

Lemma RN_mono x y : x <= y -> RN x <= RN y.
Proof.
  intros Hxy. unfold RN.
  destruct (Qcompare_spec 0 x) as [Ex|Ex|Ex];
  destruct (Qcompare_spec 0 y) as [Ey|Ey|Ey]; try lra.
  - apply Qlt_le_weak, RNpos_pos, Ey.
  - apply RNpos_mono; assumption.
  - assert (0 < RNpos (- x)) by (apply RNpos_pos; lra). lra.
  - assert (0 < RNpos (- x)) by (apply RNpos_pos; lra).
    assert (0 < RNpos y) by (apply RNpos_pos; lra). lra.
  - assert (RNpos (- y) <= RNpos (- x)) by (apply RNpos_mono; lra). lra.
Qed.

Lemma to_int_mono x y : x <= y -> (to_int x <= to_int y)%Z.
Proof.
  intros Hxy. unfold to_int.
  destruct (Qle_bool 0 x) eqn:Ex; destruct (Qle_bool 0 y) eqn:Ey.
  - apply Qfloor_resp_le, Hxy.
  - apply Qle_bool_iff in Ex. assert (0 <= y) by lra.
    apply Qle_bool_iff in H. congruence.
  - apply Z.le_trans with 0%Z.
    + change 0%Z with (Qceiling 0). apply Qceiling_resp_le.
      apply Qlt_le_weak, Qnot_le_lt. intros C. apply Qle_bool_iff in C. congruence.
    + change 0%Z with (Qfloor 0). apply Qfloor_resp_le, Qle_bool_iff, Ey.
  - apply Qceiling_resp_le, Hxy.
Qed.


Lemma Qdiv_le_pos x y c : 0 < c -> x <= y -> x / c <= y / c.
Proof.
  intros Hc Hxy. unfold Qdiv. apply Qmult_le_r; [|exact Hxy].
  apply Qinv_lt_0_compat, Hc.
Qed.

Lemma of_int_mono a b : (a <= b)%Z -> of_int a <= of_int b.
Proof. intros H. apply RN_mono. rewrite <- Zle_Qle. exact H. Qed.

Lemma hoursOf_mono h1 n1 h2 n2 :
  (h1 <= h2)%Z -> (n1 <= n2)%Z -> time.hoursOf h1 n1 <= time.hoursOf h2 n2.
Proof.
  intros Hh Hn. unfold time.hoursOf, add, div. apply RN_mono.
  apply Qplus_le_compat; [apply of_int_mono, Hh|].
  apply RN_mono, Qdiv_le_pos; [reflexivity | apply of_int_mono, Hn].
Qed.

(** [int(float64(hour) + float64(nsec)/(60*60*1e9)) / 24)] grows with
    [hour] and with [nsec]. *)
Lemma days_parts_mono h1 n1 h2 n2 :
  (h1 <= h2)%Z -> (n1 <= n2)%Z ->
  (to_int (div (time.hoursOf h1 n1) (inject_Z 24))
   <= to_int (div (time.hoursOf h2 n2) (inject_Z 24)))%Z.
Proof.
  intros Hh Hn. apply to_int_mono, RN_mono, Qdiv_le_pos; [reflexivity|].
  apply hoursOf_mono; assumption.
Qed.

(** The rounding agrees with the Standard Library's specification of
    binary64 division and addition where it matters most: just below a
    whole number of hours, and at one third. *)
Example RN_agrees_with_SFdiv :
  SF2Q (SFdiv 53 1024 (SF_of_int 3599999999999) (SF_of_int 3600000000000))
  == div (of_int 3599999999999) (inject_Z 3600000000000) /\
  SF2Q (SFdiv 53 1024 (SF_of_int 1) (SF_of_int 3))
  == div (of_int 1) (inject_Z 3).
Proof. split; vm_compute; reflexivity. Qed.

Example RN_agrees_with_SFadd :
  SF2Q (SFadd 53 1024 (SF_of_int 23)
          (SFdiv 53 1024 (SF_of_int 3599999999999) (SF_of_int 3600000000000)))
  == time.hoursOf 23 3599999999999 /\
  SF2Q (SFdiv 53 1024
          (SFadd 53 1024 (SF_of_int 4103)
             (SFdiv 53 1024 (SF_of_int 3599999999999)
                (SF_of_int 3600000000000)))
          (SF_of_int 24))
  == div (time.hoursOf 4103 3599999999999) (inject_Z 24).
Proof. split; vm_compute; reflexivity. Qed.

(** The same agreement for the whole expression of the day count, at both
    ends of each of the first 300 days on either side of zero. *)
Example RN_agrees_with_SF_days :
  forallb (λ k,
    let k := Z.of_nat k in
    Qeq_bool (SF2Q (SF_days (24 * k) 0))
             (div (time.hoursOf (24 * k) 0) (inject_Z 24)) &&
    Qeq_bool (SF2Q (SF_days (24 * k + 23) 3599999999999))
             (div (time.hoursOf (24 * k + 23) 3599999999999) (inject_Z 24)) &&
    Qeq_bool (SF2Q (SF_days (- (24 * k + 23)) (- 3599999999999)))
             (div (time.hoursOf (- (24 * k + 23)) (- 3599999999999))
                  (inject_Z 24)))
    (seq 0 300) = true.
Proof. vm_compute. reflexivity. Qed.

End Float64Facts.

(** ** Whole days of a duration *)

Section DaysOf.
Import time models.
Local Open Scope Z_scope.

Lemma daysOf_between d hlo nlo hhi nhi :
  hlo <= Z.quot d Hour <= hhi -> nlo <= Z.rem d Hour <= nhi ->
  Float64.to_int (Float64.div (hoursOf hlo nlo) (inject_Z 24)) <= daysOf d
  <= Float64.to_int (Float64.div (hoursOf hhi nhi) (inject_Z 24)).
Proof.
  intros [H1 H2] [N1 N2]. unfold daysOf, Hours.
  split; apply days_parts_mono; assumption.
Qed.

Lemma quot_rem_nonneg d :
  0 <= d -> Z.quot d Hour = d / Hour /\ Z.rem d Hour = d mod Hour.
Proof.
  intros Hd. split; [apply Z.quot_div_nonneg | apply Z.rem_mod_nonneg];
    (exact Hd || reflexivity).
Qed.

Lemma quot_rem_nonpos d :
  d <= 0 -> Z.quot d Hour = - (- d / Hour) /\ Z.rem d Hour = - (- d mod Hour).
Proof.
  intros Hd. replace d with (- - d) at 1 3 by lia.
  rewrite Z.quot_opp_l, Z.rem_opp_l by discriminate.
  destruct (quot_rem_nonneg (- d)) as [-> ->]; [lia | split; reflexivity].
Qed.

(** The two ends of each of the first 170 days, on both sides of zero. *)
Lemma day_table :
  forallb (fun k =>
    let k := Z.of_nat k in
    (Float64.to_int (Float64.div (hoursOf (24 * k) 0) (inject_Z 24)) =? k) &&
    (Float64.to_int
       (Float64.div (hoursOf (24 * k + 23) 3599999999999) (inject_Z 24)) =? k) &&
    (Float64.to_int (Float64.div (hoursOf (- (24 * k)) 0) (inject_Z 24))
     =? - k) &&
    (Float64.to_int
       (Float64.div (hoursOf (- (24 * k + 23)) (- 3599999999999)) (inject_Z 24))
     =? - k))
    (seq 0 170) = true.
Proof. vm_compute. reflexivity. Qed.

Lemma day_table_at k :
  0 <= k < 170 ->
  Float64.to_int (Float64.div (hoursOf (24 * k) 0) (inject_Z 24)) = k /\
  Float64.to_int
    (Float64.div (hoursOf (24 * k + 23) 3599999999999) (inject_Z 24)) = k /\
  Float64.to_int (Float64.div (hoursOf (- (24 * k)) 0) (inject_Z 24)) = - k /\
  Float64.to_int
    (Float64.div (hoursOf (- (24 * k + 23)) (- 3599999999999)) (inject_Z 24))
  = - k.
Proof.
  intros Hk. pose proof day_table as T.
  rewrite forallb_forall in T. specialize (T (Z.to_nat k)).
  rewrite Z2Nat.id in T by lia.
  assert (Hin : In (Z.to_nat k) (seq 0 170)) by (apply in_seq; lia).
  apply T in Hin. cbv zeta in Hin.
  repeat (apply andb_prop in Hin; destruct Hin as [Hin ?]).
  repeat match goal with H : (_ =? _) = true |- _ => apply Z.eqb_eq in H end.
  auto.
Qed.

(** Within 170 days of zero, [int(d.Hours() / 24)] is the quotient of [d]
    by 24 hours, truncated toward zero. *)
Lemma daysOf_quot d :
  - (170 * (24 * Hour)) < d < 170 * (24 * Hour) ->
  daysOf d = Z.quot d (24 * Hour).
Proof.
  intros Hd. destruct (Z.le_gt_cases 0 d) as [Hpos|Hneg].
  - destruct (quot_rem_nonneg d Hpos) as [Eq Er].
    rewrite Z.quot_div_nonneg by (lia || reflexivity).
    set (k := d / (24 * Hour)).
    assert (Hk : 0 <= k < 170).
    { unfold k. split; [apply Z.div_pos; [lia|reflexivity]|].
      apply Z.div_lt_upper_bound; [reflexivity|lia]. }
    pose proof (Z.div_mod d (24 * Hour) ltac:(discriminate)) as E24.
    pose proof (Z.mod_pos_bound d (24 * Hour) eq_refl) as B24.
    pose proof (Z.div_mod d Hour ltac:(discriminate)) as E1.
    pose proof (Z.mod_pos_bound d Hour eq_refl) as B1.
    fold k in E24. unfold Hour, Minute, Second in *.
    destruct (day_table_at k Hk) as (T1 & T2 & _ & _).
    pose proof (daysOf_between d (24 * k) 0 (24 * k + 23) 3599999999999) as B.
    rewrite T1, T2 in B. unfold Hour, Minute, Second in B.
    rewrite Eq, Er in B. unfold Hour, Minute, Second in B. lia.
  - assert (Hd' : d <= 0) by lia.
    destruct (quot_rem_nonpos d Hd') as [Eq Er].
    replace d with (- - d) at 2 by lia.
    rewrite Z.quot_opp_l by discriminate.
    rewrite Z.quot_div_nonneg by (lia || reflexivity).
    set (k := - d / (24 * Hour)).
    assert (Hk : 0 <= k < 170).
    { unfold k. split; [apply Z.div_pos; [lia|reflexivity]|].
      apply Z.div_lt_upper_bound; [reflexivity|lia]. }
    pose proof (Z.div_mod (- d) (24 * Hour) ltac:(discriminate)) as E24.
    pose proof (Z.mod_pos_bound (- d) (24 * Hour) eq_refl) as B24.
    pose proof (Z.div_mod (- d) Hour ltac:(discriminate)) as E1.
    pose proof (Z.mod_pos_bound (- d) Hour eq_refl) as B1.
    fold k in E24. unfold Hour, Minute, Second in *.
    destruct (day_table_at k Hk) as (_ & _ & T1 & T2).
    pose proof (daysOf_between d (- (24 * k + 23)) (- 3599999999999)
                  (- (24 * k)) 0) as B.
    rewrite T1, T2 in B. unfold Hour, Minute, Second in B.
    rewrite Eq, Er in B. unfold Hour, Minute, Second in B. lia.
Qed.

(** From two days on, the count is at least two. *)
Lemma daysOf_ge_2 d : 2 * (24 * Hour) <= d -> 2 <= daysOf d.
Proof.
  intros Hd. destruct (quot_rem_nonneg d ltac:(unfold Hour, Minute, Second in *; lia))
    as [Eq Er].
  pose proof (Z.div_mod d Hour ltac:(discriminate)) as E1.
  pose proof (Z.mod_pos_bound d Hour eq_refl) as B1.
  assert (L : Float64.to_int (Float64.div (hoursOf 48 0) (inject_Z 24)) <= daysOf d).
  { unfold daysOf, Hours. apply days_parts_mono; rewrite ?Eq, ?Er;
      unfold Hour, Minute, Second in *; lia. }
  replace (Float64.to_int (Float64.div (hoursOf 48 0) (inject_Z 24))) with 2 in L
    by (vm_compute; reflexivity).
  exact L.
Qed.

End DaysOf.

(** ** Days until the deadline *)

Section DaysUntilDeadline.
Import time models.
Local Open Scope Z_scope.

Lemma Sub_exact t u :
  minDuration <= t - u <= maxDuration -> Sub t u = t - u.
Proof.
  intros [L U]. unfold Sub.
  destruct (Z.ltb_spec (t - u) minDuration); [lia|].
  destruct (Z.ltb_spec maxDuration (t - u)); [lia|reflexivity].
Qed.

(** C10. [DaysUntilDeadline] is -1 without a deadline; with one it is the
    hours until the deadline divided by 24 and truncated toward zero, so
    that it is 0 for every deadline less than 24 hours away on either
    side, and -1, the value of the sentinel, for one that is between 24
    and 48 hours overdue. *)
Theorem DaysUntilDeadline_truncates (t : Todo) (now : Time) :
  (Deadline t = None -> DaysUntilDeadline t now = -1) /\
  (forall deadline, Deadline t = Some deadline ->
     DaysUntilDeadline t now
     = Float64.to_int (Float64.div (Hours (Until now deadline)) (inject_Z 24)) /\
     (- (170 * (24 * Hour)) < deadline - now < 170 * (24 * Hour) ->
      DaysUntilDeadline t now = Z.quot (deadline - now) (24 * Hour)) /\
     (- (24 * Hour) < deadline - now < 24 * Hour ->
      DaysUntilDeadline t now = 0) /\
     (24 * Hour <= now - deadline < 2 * (24 * Hour) ->
      DaysUntilDeadline t now = -1 /\
      forall u, Deadline u = None ->
                DaysUntilDeadline u now = DaysUntilDeadline t now)).
Proof.
  unfold DaysUntilDeadline. split; [intros ->; reflexivity|].
  intros deadline ->.
  assert (Q : - (170 * (24 * Hour)) < deadline - now < 170 * (24 * Hour) ->
              daysOf (Until now deadline) = Z.quot (deadline - now) (24 * Hour)).
  { intros R. unfold Until. rewrite Sub_exact.
    - apply daysOf_quot, R.
    - unfold minDuration, maxDuration, GoInt.minInt64, GoInt.maxInt64,
        Hour, Minute, Second in *. lia. }
  split; [reflexivity|]. split; [exact Q|]. split.
  - intros R. rewrite Q by (unfold Hour, Minute, Second in *; lia).
    apply Z.quot_small_iff; [discriminate|].
    unfold Hour, Minute, Second in *. lia.
  - intros R.
    assert (E : daysOf (Until now deadline) = -1).
    { rewrite Q by (unfold Hour, Minute, Second in *; lia).
      replace (deadline - now) with (- (now - deadline)) by lia.
      rewrite Z.quot_opp_l by discriminate.
      rewrite Z.quot_div_nonneg by (unfold Hour, Minute, Second in *; lia).
      assert ((now - deadline) / (24 * Hour) = 1); [|lia].
      symmetry. apply Z.div_unique with (now - deadline - 24 * Hour);
        unfold Hour, Minute, Second in *; lia. }
    split; [exact E|]. intros u ->. symmetry. exact E.
Qed.

(** A task that is 30 hours overdue shows the same -1 as a task without
    a deadline; one that is due in 12 hours, or 12 hours overdue, shows 0. *)
Lemma DaysUntilDeadline_truncates_witness :
  DaysUntilDeadline
    (samples.task "late" (Some (samples.noon - 30 * Hour)) false samples.noon)
    samples.noon = -1 /\
  DaysUntilDeadline (samples.task "none" None false samples.noon) samples.noon
  = -1 /\
  DaysUntilDeadline
    (samples.task "soon" (Some (samples.noon + 12 * Hour)) false samples.noon)
    samples.noon = 0 /\
  DaysUntilDeadline
    (samples.task "just" (Some (samples.noon - 12 * Hour)) false samples.noon)
    samples.noon = 0.
Proof.
  split; [|split; [|split]].
  - destruct (DaysUntilDeadline_truncates
                (samples.task "late" (Some (samples.noon - 30 * Hour)) false
                   samples.noon) samples.noon) as [_ S].
    destruct (S _ eq_refl) as (_ & _ & _ & L). refine (proj1 (L _)).
    vm_compute. split; [discriminate | reflexivity].
  - destruct (DaysUntilDeadline_truncates
                (samples.task "none" None false samples.noon) samples.noon)
      as [N _].
    apply N. reflexivity.
  - destruct (DaysUntilDeadline_truncates
                (samples.task "soon" (Some (samples.noon + 12 * Hour)) false
                   samples.noon) samples.noon) as [_ S].
    destruct (S _ eq_refl) as (_ & _ & Z0 & _). apply Z0.
    vm_compute. split; reflexivity.
  - destruct (DaysUntilDeadline_truncates
                (samples.task "just" (Some (samples.noon - 12 * Hour)) false
                   samples.noon) samples.noon) as [_ S].
    destruct (S _ eq_refl) as (_ & _ & Z0 & _). apply Z0.
    vm_compute. split; reflexivity.
Defined.

End DaysUntilDeadline.

(** ** The streak tracker *)

Section Streak.
Import time models storage.
Local Open Scope Z_scope.

Lemma incr_in_range x :
  GoInt.minInt64 <= x < GoInt.maxInt64 -> GoInt.incr x = x + 1.
Proof.
  intros Hx. unfold GoInt.incr, GoInt.add, GoInt.wrap64.
  unfold GoInt.minInt64, GoInt.maxInt64 in Hx.
  rewrite Z.mod_small by lia. lia.
Qed.

Lemma string_compare_refl s : String.compare s s = Eq.
Proof.
  pose proof (String.compare_antisym s s) as H.
  destruct (String.compare s s); [reflexivity | discriminate..].
Qed.

Lemma bolt_Get_insert {V} (b : bolt.Bucket V) key value :
  bolt.Get (bolt.insert b key value) key = Some value.
Proof.
  induction b as [|[k v] rest IH]; cbn.
  - rewrite String.eqb_refl. reflexivity.
  - destruct (String.compare key k) eqn:E; cbn.
    + rewrite String.eqb_refl. reflexivity.
    + rewrite String.eqb_refl. reflexivity.
    + destruct (String.eqb_spec k key) as [->|_]; [|exact IH].
      rewrite string_compare_refl in E. discriminate.
Qed.

(** Writing the streak back never fails, and the next read returns what
    was written. *)
Lemma GetStreak_UpdateStreak s streak :
  (UpdateStreak s streak).2 = None /\
  GetStreak (UpdateStreak s streak).1 = streak /\
  todoBucket (UpdateStreak s streak).1 = todoBucket s.
Proof.
  unfold UpdateStreak, GetStreak, bolt.Put.
  change (String.length "current" =? 0)%nat with false.
  change (bolt.MaxKeySize <? Z.of_nat (String.length "current")) with false.
  cbv iota. cbn [fst snd streakBucket todoBucket].
  rewrite bolt_Get_insert. auto.
Qed.

Lemma GetStreak_updateStreakOnCompletion s now :
  GetStreak (updateStreakOnCompletion s now).1
  = recordCompletion (GetStreak s) now.
Proof. unfold updateStreakOnCompletion. apply GetStreak_UpdateStreak. Qed.

(** The gap in whole days that [recordCompletion] computes, for a gap
    that is not negative. *)
Lemma gap_days now last :
  let gapDays := (now - last) / (24 * Hour) in
  (gapDays = 0 -> daysOf (Sub now last) = 0) /\
  (gapDays = 1 -> daysOf (Sub now last) = 1) /\
  (1 < gapDays -> 2 <= daysOf (Sub now last)).
Proof.
  intros gapDays.
  pose proof (Z.div_mod (now - last) (24 * Hour) ltac:(discriminate)) as E.
  pose proof (Z.mod_pos_bound (now - last) (24 * Hour) eq_refl) as B.
  fold gapDays in E.
  assert (Small : 0 <= now - last < 2 * (24 * Hour) ->
                  daysOf (Sub now last) = gapDays).
  { intros R. rewrite Sub_exact
      by (unfold minDuration, maxDuration, GoInt.minInt64, GoInt.maxInt64,
            Hour, Minute, Second in *; lia).
    rewrite daysOf_quot by (unfold Hour, Minute, Second in *; lia).
    apply Z.quot_div_nonneg; [lia | reflexivity]. }
  split; [|split].
  - intros G. rewrite Small; [exact G|]. rewrite G in E. lia.
  - intros G. rewrite Small; [exact G|]. rewrite G in E. lia.
  - intros G. apply daysOf_ge_2. unfold Sub.
    assert (2 * (24 * Hour) <= now - last) by nia.
    destruct (Z.ltb_spec (now - last) minDuration) as [C|_].
    { unfold minDuration, GoInt.minInt64, Hour, Minute, Second in *. lia. }
    destruct (Z.ltb_spec maxDuration (now - last)); [|assumption].
    vm_compute. discriminate.
Qed.

(** C5. With a prior completion, one transition at [now] looks at
    [gapDays = floor((now - last) / 24h)]: the current streak is kept for
    0, incremented for 1 (and the maximum raised to it if exceeded), and
    reset to 1 beyond, the maximum then unchanged; in every case the last
    completion becomes [now], the total is incremented and so is the
    bucket of today in the per-day map, the other buckets unchanged. *)
Theorem recordCompletion_gap (streak : Streak) (now : Time) :
  IsZero (LastCompletedAt streak) = false ->
  let gapDays := (now - LastCompletedAt streak) / (24 * Hour) in
  let streak' := recordCompletion streak now in
  let daily := default ∅ (DailyCompletions streak) in
  (gapDays = 0 ->
   CurrentStreak streak' = CurrentStreak streak /\
   MaxStreak streak' = MaxStreak streak) /\
  (gapDays = 1 ->
   CurrentStreak streak' = GoInt.incr (CurrentStreak streak) /\
   MaxStreak streak'
   = Z.max (MaxStreak streak) (GoInt.incr (CurrentStreak streak))) /\
  (1 < gapDays ->
   CurrentStreak streak' = 1 /\ MaxStreak streak' = MaxStreak streak) /\
  LastCompletedAt streak' = now /\
  TotalCompleted streak' = GoInt.incr (TotalCompleted streak) /\
  exists daily',
    DailyCompletions streak' = Some daily' /\
    daily' !! FormatDay now
    = Some (GoInt.incr (default 0 (daily !! FormatDay now))) /\
    forall day, day ≠ FormatDay now -> daily' !! day = daily !! day.
Proof.
  intros NZ gapDays streak' daily.
  destruct (gap_days now (LastCompletedAt streak)) as (G0 & G1 & G2).
  fold gapDays in G0, G1, G2.
  unfold streak', recordCompletion. rewrite NZ. cbn [negb].
  split; [|split; [|split; [|split; [|split]]]].
  - intros G. rewrite (G0 G). split; reflexivity.
  - intros G. rewrite (G1 G). cbn. split; [reflexivity|].
    destruct (Z.ltb_spec (MaxStreak streak) (GoInt.incr (CurrentStreak streak)));
      cbn; lia.
  - intros G. specialize (G2 G).
    destruct (Z.eqb_spec (daysOf (Sub now (LastCompletedAt streak))) 0); [lia|].
    destruct (Z.eqb_spec (daysOf (Sub now (LastCompletedAt streak))) 1); [lia|].
    split; reflexivity.
  - destruct (daysOf _ =? 0); [reflexivity|]. destruct (daysOf _ =? 1); reflexivity.
  - destruct (daysOf _ =? 0); [reflexivity|]. destruct (daysOf _ =? 1); reflexivity.
  - eexists. split.
    + destruct (daysOf _ =? 0); [reflexivity|]. destruct (daysOf _ =? 1); reflexivity.
    + split; [apply lookup_insert_eq|].
      intros day Hne. apply lookup_insert_ne. congruence.
Qed.

(** The sample streak of 3 (maximum 5, total 7, two completions so far
    today), completed again 20 hours, 30 hours and 50 hours later. *)
Lemma recordCompletion_gap_witness :
  let same := recordCompletion samples.streak3 (samples.noon + 20 * Hour) in
  let next := recordCompletion samples.streak3 (samples.noon + 30 * Hour) in
  let late := recordCompletion samples.streak3 (samples.noon + 50 * Hour) in
  (CurrentStreak same = 3 /\ MaxStreak same = 5) /\
  (CurrentStreak next = 4 /\ MaxStreak next = 5) /\
  (CurrentStreak late = 1 /\ MaxStreak late = 5) /\
  LastCompletedAt same = samples.noon + 20 * Hour /\
  TotalCompleted same = 8.
Proof.
  destruct (recordCompletion_gap samples.streak3 (samples.noon + 20 * Hour)
              eq_refl) as (S0 & _ & _ & SL & ST & _).
  destruct (recordCompletion_gap samples.streak3 (samples.noon + 30 * Hour)
              eq_refl) as (_ & N1 & _).
  destruct (recordCompletion_gap samples.streak3 (samples.noon + 50 * Hour)
              eq_refl) as (_ & _ & L2 & _).
  split; [exact (S0 eq_refl)|]. split; [exact (N1 eq_refl)|].
  split; [exact (L2 eq_refl)|]. split; [exact SL | exact ST].
Defined.

End Streak.

(** ** The streak state machine *)

Section StreakMachine.
Import time models storage.
Local Open Scope Z_scope.

Lemma streak_inv_init : streak_inv 0 (GetStreak NewBoltStorage).
Proof. split; [reflexivity|]. left. repeat split. Qed.

Lemma streak_inv_step n st now :
  0 <= n < GoInt.maxInt64 -> streak_inv n st ->
  streak_inv (n + 1) (recordCompletion st now).
Proof.
  intros Hn [HT HI]. unfold recordCompletion.
  assert (ET : GoInt.incr (TotalCompleted st) = n + 1).
  { rewrite incr_in_range; rewrite HT; [reflexivity|].
    unfold GoInt.minInt64. lia. }
  destruct (IsZero (LastCompletedAt st)) eqn:EZ; cbn [negb].
  - split; [exact ET|]. right. cbn.
    destruct HI as [(-> & _ & -> & _)|[HC HN]]; cbn; [lia|].
    destruct (Z.eqb_spec (MaxStreak st) 0); lia.
  - destruct HI as [(_ & _ & _ & HL)|[HC HN]].
    { unfold IsZero in EZ. rewrite HL, Z.eqb_refl in EZ. discriminate. }
    destruct (daysOf _ =? 0); [|destruct (daysOf _ =? 1)];
      (split; [exact ET|]); right; cbn; try lia.
    rewrite incr_in_range by (unfold GoInt.minInt64; lia).
    destruct (Z.ltb_spec (MaxStreak st) (CurrentStreak st + 1)); lia.
Qed.

Lemma afterCompletions_snoc nows now :
  afterCompletions (nows ++ [now])
  = (updateStreakOnCompletion (afterCompletions nows) now).1.
Proof. unfold afterCompletions. rewrite fold_left_app. reflexivity. Qed.

Lemma streak_inv_reachable nows :
  Z.of_nat (length nows) <= GoInt.maxInt64 ->
  streak_inv (Z.of_nat (length nows)) (GetStreak (afterCompletions nows)).
Proof.
  induction nows as [|now nows IH] using rev_ind; intros Hlen.
  - apply streak_inv_init.
  - rewrite afterCompletions_snoc, GetStreak_updateStreakOnCompletion.
    rewrite length_app in *. cbn [length] in *.
    replace (Z.of_nat (length nows + 1)) with (Z.of_nat (length nows) + 1) by lia.
    apply streak_inv_step; [lia|]. apply IH. lia.
Qed.

(** C9. After any history of completions from the empty store (shorter
    than the range of the counters) the streak read back has
    [MaxStreak >= CurrentStreak >= 0], and so has the streak after one
    more completion, whose total is larger by exactly one. *)
Theorem streak_reachable_invariant (nows : list Time) (now : Time) :
  Z.of_nat (length nows) < GoInt.maxInt64 ->
  let s := afterCompletions nows in
  let before := GetStreak s in
  let after := GetStreak (updateStreakOnCompletion s now).1 in
  0 <= CurrentStreak before <= MaxStreak before /\
  0 <= CurrentStreak after <= MaxStreak after /\
  TotalCompleted before = Z.of_nat (length nows) /\
  TotalCompleted after = TotalCompleted before + 1 /\
  TotalCompleted before <= TotalCompleted after.
Proof.
  intros Hlen s before after.
  assert (IB : streak_inv (Z.of_nat (length nows)) before)
    by (apply streak_inv_reachable; lia).
  assert (IA : streak_inv (Z.of_nat (length nows) + 1) after).
  { unfold after. rewrite GetStreak_updateStreakOnCompletion.
    apply streak_inv_step; [lia | exact IB]. }
  destruct IB as [TB HB], IA as [TA HA].
  assert (0 <= CurrentStreak before <= MaxStreak before) by (destruct HB; lia).
  assert (0 <= CurrentStreak after <= MaxStreak after) by (destruct HA; lia).
  repeat split; lia.
Qed.

(** Three completions at [noon], 20 hours later and 44 hours later: the
    streak is then 2, the maximum 2, the total 3; a fourth completion
    makes the total 4. *)
Lemma streak_reachable_invariant_witness :
  let s := afterCompletions
             [samples.noon; samples.noon + 20 * Hour; samples.noon + 44 * Hour] in
  (CurrentStreak (GetStreak s) = 2 /\ MaxStreak (GetStreak s) = 2 /\
   TotalCompleted (GetStreak s) = 3) /\
  0 <= CurrentStreak (GetStreak s) <= MaxStreak (GetStreak s) /\
  TotalCompleted
    (GetStreak (updateStreakOnCompletion s (samples.noon + 50 * Hour)).1)
  = TotalCompleted (GetStreak s) + 1.
Proof.
  intros s.
  destruct (streak_reachable_invariant
              [samples.noon; samples.noon + 20 * Hour; samples.noon + 44 * Hour]
              (samples.noon + 50 * Hour) eq_refl) as (I & _ & _ & T & _).
  split; [|split; [exact I | exact T]].
  vm_compute. repeat split.
Defined.

End StreakMachine.

(** ** Updating a task and the streak *)

Section UpdateTodo.
Import time models storage.
Local Open Scope Z_scope.

(** An update that is written never touches the streak; one that fails
    to be written, for a task that was not complete and now is, applies
    the transition. *)
Lemma UpdateTodo_streak s todo now nowStreak :
  let wasCompleted :=
    match (GetTodo s (ID todo)).1 with
    | Some existingTodo => Completed existingTodo
    | None => false
    end in
  let r := UpdateTodo s todo now nowStreak in
  (r.2 = None -> streakBucket r.1.1 = streakBucket s) /\
  (r.2 ≠ None -> wasCompleted = false -> Completed todo = true ->
   GetStreak r.1.1 = recordCompletion (GetStreak s) nowStreak) /\
  (r.2 ≠ None -> wasCompleted = true \/ Completed todo = false ->
   r.1.1 = s).
Proof.
  intros wasCompleted r. unfold r, UpdateTodo. fold wasCompleted.
  unfold putTodo. cbn [ID Completed].
  destruct (bolt.Put (todoBucket s) (ID todo) _) as [b|e]; cbn.
  - split; [reflexivity|]. split; intros H; congruence.
  - split; [discriminate|]. split.
    + intros _ -> ->. cbn. apply GetStreak_updateStreakOnCompletion.
    + intros _ [-> | ->]; [reflexivity|].
      rewrite Bool.andb_false_r. reflexivity.
Qed.

(** C1, on the code: the task ["t1"] is stored incomplete; the update that
    marks it complete is written without error, and the streak read back
    afterwards is the one from before, with a total of 0, not the result
    of the transition. *)
Theorem UpdateTodo_completion_skips_streak :
  let todo :=
    MarkComplete (samples.task "t1" None false samples.noon)
                 (samples.noon + Hour) in
  let r := UpdateTodo samples.oneTask todo (samples.noon + Hour)
                      (samples.noon + Hour) in
  (Completed <$> (GetTodo samples.oneTask "t1").1) = Some false /\
  Completed todo = true /\
  r.2 = None /\
  (Completed <$> (GetTodo r.1.1 "t1").1) = Some true /\
  GetStreak r.1.1 = GetStreak samples.oneTask /\
  TotalCompleted (GetStreak r.1.1) = 0 /\
  TotalCompleted
    (recordCompletion (GetStreak samples.oneTask) (samples.noon + Hour)) = 1.
Proof. vm_compute. repeat split. Qed.

(** The transition does run when the write fails: a completed task whose
    identifier is empty is rejected by the bucket, and the total goes to 1. *)
Example UpdateTodo_failed_write_counts :
  let todo :=
    MarkComplete (samples.task "" None false samples.noon)
                 (samples.noon + Hour) in
  let r := UpdateTodo samples.oneTask todo (samples.noon + Hour)
                      (samples.noon + Hour) in
  r.2 = Some (BoltError bolt.ErrKeyRequired) /\
  todoBucket r.1.1 = todoBucket samples.oneTask /\
  TotalCompleted (GetStreak r.1.1) = 1.
Proof. vm_compute. repeat split. Qed.

End UpdateTodo.

(** ** Sorting with [sort.Slice] *)

Section SortFacts.
Context {A : Type} (less : A → A → bool) (P : A → Prop).

(** [less] is a strict weak order on the elements that satisfy [P]:
    asymmetric, and "not less" is transitive. *)
Hypothesis less_asym :
  ∀ a b, P a → P b → less a b = true → less b a = false.
Hypothesis less_incomp_trans :
  ∀ a b c, P a → P b → P c →
           less b a = false → less c b = false → less c a = false.

Lemma insertLeft_Permutation x rprefix :
  sort.insertLeft less x rprefix ≡ₚ x :: rprefix.
Proof.
  induction rprefix as [|y rest IH]; cbn; [reflexivity|].
  destruct (less x y); [|reflexivity].
  rewrite IH. apply perm_swap.
Qed.

Lemma insertLeft_sorted x rprefix :
  P x → Forall P rprefix →
  StronglySorted (λ y z, less y z = false) rprefix →
  StronglySorted (λ y z, less y z = false) (sort.insertLeft less x rprefix).
Proof.
  intros Px HP HS. induction rprefix as [|y rest IH]; cbn.
  - repeat constructor.
  - apply Forall_cons in HP as [Py HP].
    apply StronglySorted_cons in HS as [Hy HS].
    destruct (less x y) eqn:E.
    + apply StronglySorted_cons. split; [|apply IH; assumption].
      rewrite insertLeft_Permutation. constructor; [|exact Hy].
      apply less_asym; assumption.
    + apply StronglySorted_cons. split.
      * constructor; [exact E|].
        rewrite Forall_forall in Hy, HP. apply Forall_forall. intros w Hw.
        apply (less_incomp_trans w y x); auto.
      * apply StronglySorted_cons. split; assumption.
Qed.

Lemma fold_insertLeft data rprefix :
  Forall P data → Forall P rprefix →
  StronglySorted (λ y z, less y z = false) rprefix →
  let out := fold_left (λ rp x, sort.insertLeft less x rp) data rprefix in
  out ≡ₚ data ++ rprefix ∧ StronglySorted (λ y z, less y z = false) out.
Proof.
  revert rprefix. induction data as [|x data IH]; intros rprefix HD HP HS; cbn.
  - split; [reflexivity | exact HS].
  - apply Forall_cons in HD as [Px HD].
    destruct (IH (sort.insertLeft less x rprefix)) as [Perm Sorted'].
    + exact HD.
    + rewrite insertLeft_Permutation. constructor; assumption.
    + apply insertLeft_sorted; assumption.
    + split; [|exact Sorted'].
      cbn in Perm. rewrite Perm, insertLeft_Permutation.
      symmetry. apply Permutation_middle.
Qed.

Lemma StronglySorted_rev (R : relation A) l :
  StronglySorted R l → StronglySorted (flip R) (rev l).
Proof.
  induction 1 as [|x l HS IH Hx]; cbn; [constructor|].
  apply StronglySorted_app_2; [|exact IH|repeat constructor].
  intros a b Ha Hb. apply list_elem_of_singleton in Hb as ->.
  rewrite Forall_forall in Hx. apply Hx.
  apply list_elem_of_In, in_rev, list_elem_of_In. exact Ha.
Qed.

Lemma Slice_Permutation data : sort.Slice less data ≡ₚ data.
Proof.
  unfold sort.Slice. rewrite <- Permutation_rev.
  induction data as [|x data IH] using rev_ind; [reflexivity|].
  rewrite fold_left_app. cbn. rewrite insertLeft_Permutation, IH.
  apply Permutation_cons_append.
Qed.

(** The result of [sort.Slice] is ordered: no element is [less] than one
    that stands before it. *)
Lemma Slice_sorted data :
  Forall P data → StronglySorted (λ a b, less b a = false) (sort.Slice less data).
Proof.
  intros HD. unfold sort.Slice.
  apply (StronglySorted_rev (λ y z, less y z = false)).
  apply (fold_insertLeft data []); [exact HD | constructor | constructor].
Qed.

End SortFacts.

Lemma StronglySorted_lookup {A} (R : relation A) l i j a b :
  StronglySorted R l → (i < j)%nat → l !! i = Some a → l !! j = Some b → R a b.
Proof.
  intros HS. revert i j. induction HS as [|x l HS IH Hx]; intros i j Hij Hi Hj.
  - discriminate.
  - destruct j as [|j]; [lia|]. cbn in Hj. destruct i as [|i]; cbn in Hi.
    + injection Hi as ->. rewrite Forall_forall in Hx. apply Hx.
      eapply list_elem_of_lookup_2. exact Hj.
    + apply (IH i j); [lia | assumption..].
Qed.

Lemma StronglySorted_weaken {A} (R S : relation A) l :
  (∀ a b, R a b → S a b) → StronglySorted R l → StronglySorted S l.
Proof.
  intros HRS. induction 1 as [|x l HS IH Hx]; constructor; [exact IH|].
  eapply Forall_impl; [exact Hx|]. intros b. apply HRS.
Qed.

(** ** The full listing *)

Section Listing.
Import time models storage.
Local Open Scope Z_scope.

Ltac less_cases :=
  unfold todoLess, deadlineLess, listedBefore, Before, After;
  repeat match goal with
         | |- context [Completed ?t] => destruct (Completed t)
         | |- context [Deadline ?t] => destruct (Deadline t)
         end;
  cbn;
  repeat match goal with
         | |- context [(?x <? ?y)] => destruct (Z.ltb_spec x y)
         end;
  try (intros; subst; first [discriminate | reflexivity | lia | tauto]).

Lemma todoLess_irrefl a : todoLess a a = false.
Proof. less_cases. Qed.

Lemma todoLess_asym a b : todoLess a b = true → todoLess b a = false.
Proof. less_cases. Qed.

Lemma todoLess_trans a b c :
  todoLess a b = true → todoLess b c = true → todoLess a c = true.
Proof. less_cases. Qed.

Lemma todoLess_incomp_trans a b c :
  todoLess b a = false → todoLess c b = false → todoLess c a = false.
Proof. less_cases. Qed.

(** The comparison of the code and the order of the specification. *)
Lemma todoLess_listedBefore a b : todoLess b a = false ↔ listedBefore a b.
Proof. less_cases. Qed.

(** C3. The listing is the stored tasks reordered so that, of any two, the
    one that stands first may stand first by the listing order of the
    specification; the comparison that the code sorts by is a strict weak
    order. *)
Theorem GetAllTodos_sorted (s : BoltStorage) :
  let out := GetAllTodos s in
  out ≡ₚ bolt.ForEach (todoBucket s) ∧
  (∀ i j a b, (i < j)%nat → out !! i = Some a → out !! j = Some b →
              listedBefore a b) ∧
  (∀ a, todoLess a a = false) ∧
  (∀ a b c, todoLess a b = true → todoLess b c = true → todoLess a c = true) ∧
  (∀ a b c, todoLess b a = false → todoLess c b = false → todoLess c a = false).
Proof.
  cbv zeta. unfold GetAllTodos. split; [apply Slice_Permutation|].
  split; [|split; [exact todoLess_irrefl|];
             split; [exact todoLess_trans | exact todoLess_incomp_trans]].
  intros i j a b Hij Ha Hb. apply todoLess_listedBefore.
  refine (StronglySorted_lookup (λ a b, todoLess b a = false) _ i j a b _ Hij Ha Hb).
  apply (Slice_sorted todoLess (λ _, True)).
  - intros ? ? _ _. apply todoLess_asym.
  - intros ? ? ? _ _ _. apply todoLess_incomp_trans.
  - apply Forall_forall. auto.
Qed.

End Listing.

(** ** The upcoming tasks *)

Section Upcoming.
Import time models storage.
Local Open Scope Z_scope.

Lemma isUpcoming_true t :
  isUpcoming t = true ↔ Completed t = false ∧ Deadline t ≠ None.
Proof.
  unfold isUpcoming, hasDeadline.
  destruct (Completed t), (Deadline t); cbn; split;
    (intros [? ?] || intros ?); (discriminate || congruence || auto).
Qed.

Lemma deadlineLess_asym a b :
  isUpcoming a = true → isUpcoming b = true →
  deadlineLess a b = true → deadlineLess b a = false.
Proof.
  intros _ _. unfold deadlineLess, Before.
  destruct (Deadline a), (Deadline b); try discriminate.
  destruct (Z.ltb_spec z z0), (Z.ltb_spec z0 z); (discriminate || reflexivity || lia).
Qed.

Lemma deadlineLess_incomp_trans a b c :
  isUpcoming a = true → isUpcoming b = true → isUpcoming c = true →
  deadlineLess b a = false → deadlineLess c b = false → deadlineLess c a = false.
Proof.
  intros _ [_ Hb]%isUpcoming_true _. unfold deadlineLess, Before.
  destruct (Deadline a), (Deadline b), (Deadline c); try congruence.
  destruct (Z.ltb_spec z0 z), (Z.ltb_spec z1 z0), (Z.ltb_spec z1 z);
    (discriminate || reflexivity || lia).
Qed.

Lemma deadlineLess_dueNoLater a b : deadlineLess b a = false → dueNoLater a b.
Proof.
  unfold deadlineLess, dueNoLater, Before. intros H da db Ea Eb.
  rewrite Ea, Eb in H. destruct (Z.ltb_spec db da); [discriminate | lia].
Qed.

(** C4. For [N >= 0] the result is the first [N] tasks of the incomplete
    tasks with a deadline put in ascending order of deadline: all of them
    when there are no more than [N], never a completed task or one
    without a deadline, and no task left out is due before one that is
    returned. *)
Theorem GetTopUpcomingTodos_spec (todos : list Todo) (N : Z) :
  0 <= N →
  ∃ sorted top,
    sorted ≡ₚ List.filter isUpcoming todos ∧
    StronglySorted dueNoLater sorted ∧
    top = take (Z.to_nat N) sorted ∧
    GetTopUpcomingTodos todos N = Some top ∧
    length top
    = Nat.min (Z.to_nat N) (length (List.filter isUpcoming todos)) ∧
    (Z.of_nat (length (List.filter isUpcoming todos)) <= N →
     top ≡ₚ List.filter isUpcoming todos) ∧
    (∀ t, t ∈ top → t ∈ todos ∧ Completed t = false ∧ Deadline t ≠ None) ∧
    (∀ a b, a ∈ top → b ∈ drop (Z.to_nat N) sorted → dueNoLater a b).
Proof.
  intros HN. set (upcoming := List.filter isUpcoming todos).
  set (sorted := sort.Slice deadlineLess upcoming).
  assert (Perm : sorted ≡ₚ upcoming) by apply Slice_Permutation.
  assert (Up : Forall (λ t, isUpcoming t = true) upcoming).
  { apply Forall_forall. intros t Ht. apply list_elem_of_In in Ht.
    apply filter_In in Ht. tauto. }
  assert (Sorted' : StronglySorted dueNoLater sorted).
  { eapply StronglySorted_weaken; [|apply (Slice_sorted deadlineLess _
        deadlineLess_asym deadlineLess_incomp_trans upcoming Up)].
    intros a b. apply deadlineLess_dueNoLater. }
  assert (Len : length sorted = length upcoming) by (rewrite Perm; reflexivity).
  exists sorted, (take (Z.to_nat N) sorted).
  split; [exact Perm|]. split; [exact Sorted'|]. split; [reflexivity|].
  split; [|split; [|split; [|split]]].
  - unfold GetTopUpcomingTodos. fold upcoming. fold sorted.
    destruct (Z.ltb_spec N (Z.of_nat (length sorted))).
    + destruct (Z.ltb_spec N 0); [lia | reflexivity].
    + rewrite take_ge by lia. reflexivity.
  - rewrite length_take, Len. reflexivity.
  - intros Hall. rewrite take_ge by lia. exact Perm.
  - intros t Ht. apply elem_of_take in Ht as (i & Ht & _).
    apply list_elem_of_lookup_2 in Ht. rewrite Perm in Ht.
    apply list_elem_of_In, filter_In in Ht as [Hin Hup].
    apply isUpcoming_true in Hup. split; [apply list_elem_of_In, Hin | exact Hup].
  - intros a b Ha Hb.
    rewrite <- (take_drop (Z.to_nat N) sorted) in Sorted'.
    eapply StronglySorted_app_1_elem_of; eassumption.
Qed.

(** Of the five tasks of the test, the two due first are ["1"] and then
    ["2"]; with room for ten, the three upcoming tasks are returned. *)
Lemma GetTopUpcomingTodos_spec_witness :
  (ID <$> default [] (GetTopUpcomingTodos samples.five 2)) = ["1"; "2"] ∧
  (ID <$> default [] (GetTopUpcomingTodos samples.five 10)) = ["1"; "2"; "3"] ∧
  ∃ top, GetTopUpcomingTodos samples.five 2 = Some top ∧ length top = 2%nat.
Proof.
  split; [reflexivity|]. split; [reflexivity|].
  destruct (GetTopUpcomingTodos_spec samples.five 2 ltac:(lia))
    as (sorted & top & _ & _ & _ & E & L & _).
  exists top. split; [exact E | exact L].
Defined.

End Upcoming.

(** ** Strings, decimal numerals and tokens *)

Section Strings.
Import timeParse strings strconv regexp.
Local Open Scope Z_scope.

Lemma str_app_cons c s t : String c s +:+ t = String c (s +:+ t).
Proof. reflexivity. Qed.

Lemma str_app_nil_l s : "" +:+ s = s.
Proof. reflexivity. Qed.

Lemma str_app_nil_r s : s +:+ "" = s.
Proof. induction s as [|c s IH]; [reflexivity|]. rewrite str_app_cons, IH. reflexivity. Qed.

Lemma str_app_assoc s t u : (s +:+ t) +:+ u = s +:+ (t +:+ u).
Proof.
  induction s as [|c s IH]; [reflexivity|].
  rewrite !str_app_cons, IH. reflexivity.
Qed.

Lemma str_app_length s t :
  String.length (s +:+ t) = (String.length s + String.length t)%nat.
Proof.
  induction s as [|c s IH]; [reflexivity|].
  rewrite str_app_cons. cbn. rewrite IH. reflexivity.
Qed.

Lemma digit_eqb_false c x :
  isDigitChar c = true → isDigitChar x = false → Ascii.eqb c x = false.
Proof.
  intros Hc Hx. destruct (Ascii.eqb_spec c x) as [->|]; [congruence | reflexivity].
Qed.

Lemma toLowerChar_digit c : isDigitChar c = true → toLowerChar c = c.
Proof.
  unfold isDigitChar, toLowerChar. intros H.
  apply andb_prop in H as [H1 H2]. apply N.leb_le in H1, H2.
  destruct (N.leb_spec 65 (N_of_ascii c)); [lia | reflexivity].
Qed.

Lemma ToLower_digits ds : allDigits ds = true → ToLower ds = ds.
Proof.
  induction ds as [|c ds IH]; [reflexivity|]. cbn.
  intros [Hc Hds]%andb_prop. rewrite toLowerChar_digit, IH; auto.
Qed.

Lemma ToLower_app s t : ToLower (s +:+ t) = ToLower s +:+ ToLower t.
Proof.
  induction s as [|c s IH]; [reflexivity|].
  rewrite str_app_cons. cbn. rewrite IH. reflexivity.
Qed.

Lemma ToLower_length s : String.length (ToLower s) = String.length s.
Proof. induction s as [|c s IH]; [reflexivity|]. cbn. rewrite IH. reflexivity. Qed.

Lemma RemoveAll_app x s t : RemoveAll x (s +:+ t) = RemoveAll x s +:+ RemoveAll x t.
Proof.
  induction s as [|c s IH]; [reflexivity|].
  rewrite str_app_cons. cbn. rewrite IH. destruct (Ascii.eqb c x); reflexivity.
Qed.

Lemma RemoveAll_digits x ds :
  isDigitChar x = false → allDigits ds = true → RemoveAll x ds = ds.
Proof.
  intros Hx. induction ds as [|c ds IH]; [reflexivity|]. cbn.
  intros [Hc Hds]%andb_prop. rewrite (digit_eqb_false c x), IH; auto.
Qed.

Lemma Repeat_length s n :
  String.length (Repeat s n) = (n * String.length s)%nat.
Proof.
  induction n as [|n IH]; [reflexivity|].
  cbn [Repeat]. rewrite str_app_length, IH. lia.
Qed.

Lemma prefix_refl s : String.prefix s s = true.
Proof.
  induction s as [|c s IH]; [reflexivity|]. cbn.
  destruct (ascii_dec c c); [exact IH | congruence].
Qed.

Lemma drop_all s : drop (String.length s) s = "".
Proof. induction s as [|c s IH]; [reflexivity | exact IH]. Qed.

Lemma Replace1_self s new : Replace1 s s new = new.
Proof.
  destruct s as [|c s]; cbn [Replace1].
  - apply str_app_nil_r.
  - rewrite prefix_refl, drop_all. apply str_app_nil_r.
Qed.

Lemma digitsVal_app acc s t :
  digitsVal acc (s +:+ t) = digitsVal acc s ≫= λ v, digitsVal v t.
Proof.
  revert acc. induction s as [|c s IH]; intros acc; [reflexivity|].
  rewrite str_app_cons. cbn. destruct (isDigitChar c); [apply IH | reflexivity].
Qed.

Lemma allDigits_app s t : allDigits (s +:+ t) = allDigits s && allDigits t.
Proof.
  induction s as [|c s IH]; [reflexivity|].
  rewrite str_app_cons. cbn. rewrite IH, andb_assoc. reflexivity.
Qed.

Lemma Atoi_digits ds :
  allDigits ds = true → ds ≠ "" →
  Atoi ds = v ← digitsVal 0 ds;
            if (v <? GoInt.minInt64) || (GoInt.maxInt64 <? v) then None else Some v.
Proof.
  intros Hd Hne. destruct ds as [|c ds]; [congruence|].
  cbn in Hd. apply andb_prop in Hd as [Hc Hds].
  unfold Atoi. rewrite (digit_eqb_false c "+"), (digit_eqb_false c "-") by auto.
  reflexivity.
Qed.

Lemma Atoi_range s v : Atoi s = Some v → GoInt.minInt64 <= v <= GoInt.maxInt64.
Proof.
  unfold Atoi. destruct (match s with String c r => _ | EmptyString => _ end) as [neg body].
  destruct body; [discriminate|].
  destruct (digitsVal 0 _) as [w|]; [|discriminate]. cbn.
  destruct (Z.ltb_spec (if neg then - w else w) GoInt.minInt64); [discriminate|].
  destruct (Z.ltb_spec GoInt.maxInt64 (if neg then - w else w)); [discriminate|].
  cbn. intros [= <-]. lia.
Qed.

Lemma wrap64_small z :
  GoInt.minInt64 <= z <= GoInt.maxInt64 → GoInt.wrap64 z = z.
Proof.
  unfold GoInt.minInt64, GoInt.maxInt64, GoInt.wrap64. intros H.
  rewrite Z.mod_small by lia. lia.
Qed.

Lemma pretty_N_char_digit y :
  (y < 10)%N →
  isDigitChar (pretty_N_char y) = true ∧ digitVal (pretty_N_char y) = Z.of_N y.
Proof.
  intros Hy.
  destruct y as [|p]; [split; reflexivity|].
  do 4 (destruct p as [p|p|]; try (split; reflexivity); try lia).
Qed.

Lemma pretty_N_go_digits (x : N) :
  ∃ ds, (∀ s, pretty_N_go x s = ds +:+ s) ∧ allDigits ds = true ∧
        digitsVal 0 ds = Some (Z.of_N x) ∧ ((0 < x)%N → ds ≠ "").
Proof.
  induction (N.lt_wf_0 x) as [x _ IH].
  destruct (N.eq_dec x 0%N) as [->|Hx].
  - exists "". split; [intros s; apply pretty_N_go_0|].
    split; [reflexivity|]. split; [reflexivity | lia].
  - assert (Hpos : (0 < x)%N) by lia.
    destruct (IH (x `div` 10)%N) as (ds & Hgo & Hd & Hv & _).
    { apply N.div_lt; lia. }
    destruct (pretty_N_char_digit (x `mod` 10)%N) as [Cd Cv].
    { apply N.mod_lt. discriminate. }
    exists (ds +:+ String (pretty_N_char (x `mod` 10)) "").
    split; [|split; [|split]].
    + intros s. rewrite pretty_N_go_step, Hgo, str_app_assoc by exact Hpos.
      reflexivity.
    + rewrite allDigits_app, Hd. cbn. rewrite Cd. reflexivity.
    + rewrite digitsVal_app, Hv. cbn. rewrite Cd, Cv. f_equal.
      pose proof (N.div_mod x 10 ltac:(discriminate)). lia.
    + intros _. destruct ds; discriminate.
Qed.

Lemma pretty_pos_digits (k : Z) :
  0 < k →
  allDigits (pretty k) = true ∧ pretty k ≠ "" ∧ digitsVal 0 (pretty k) = Some k.
Proof.
  intros Hk. destruct k as [|p|p]; try lia.
  change (pretty (Z.pos p)) with (pretty (N.pos p)).
  unfold pretty, pretty_N. destruct (decide (N.pos p = 0%N)); [discriminate|].
  destruct (pretty_N_go_digits (N.pos p)) as (ds & Hgo & Hd & Hv & Hne).
  rewrite Hgo, str_app_nil_r. split; [exact Hd|]. split; [apply Hne; reflexivity|].
  exact Hv.
Qed.

Lemma Atoi_pretty (k : Z) :
  0 < k <= GoInt.maxInt64 → Atoi (pretty k) = Some k.
Proof.
  intros Hk. destruct (pretty_pos_digits k) as (Hd & Hne & Hv); [lia|].
  rewrite Atoi_digits, Hv by assumption. cbn.
  destruct (Z.ltb_spec k GoInt.minInt64); [unfold GoInt.minInt64 in *; lia|].
  destruct (Z.ltb_spec GoInt.maxInt64 k); [lia | reflexivity].
Qed.

End Strings.

Section Tokens.
Import time timeParse strings strconv regexp utils.
Local Open Scope Z_scope.

Lemma isEmpty_false s : s ≠ "" → isEmpty s = false.
Proof. destruct s; [congruence | reflexivity]. Qed.

Lemma findAll_digits isUnit run ds rest :
  allDigits ds = true →
  findAll isUnit run (ds +:+ rest) = findAll isUnit (run +:+ ds) rest.
Proof.
  revert run. induction ds as [|c ds IH]; intros run Hd.
  - rewrite str_app_nil_r. reflexivity.
  - cbn in Hd. apply andb_prop in Hd as [Hc Hd].
    rewrite str_app_cons. cbn [findAll]. rewrite Hc, IH, str_app_assoc by exact Hd.
    reflexivity.
Qed.

Lemma removeAll_digits isUnit run ds rest :
  allDigits ds = true →
  removeAll isUnit run (ds +:+ rest) = removeAll isUnit (run +:+ ds) rest.
Proof.
  revert run. induction ds as [|c ds IH]; intros run Hd.
  - rewrite str_app_nil_r. reflexivity.
  - cbn in Hd. apply andb_prop in Hd as [Hc Hd].
    rewrite str_app_cons. cbn [removeAll]. rewrite Hc, IH, str_app_assoc by exact Hd.
    reflexivity.
Qed.

Lemma Sub_range t u : minDuration <= Sub t u <= maxDuration.
Proof.
  unfold Sub. destruct (Z.ltb_spec (t - u) minDuration).
  - vm_compute. split; discriminate.
  - destruct (Z.ltb_spec maxDuration (t - u)); [|lia].
    vm_compute. split; discriminate.
Qed.

(** A single month token: one month is accepted, more are rejected by the
    coverage check. *)
Lemma parse_month_token ds k now :
  allDigits ds = true → ds ≠ "" → Atoi ds = Some k → 0 < k →
  parseRelativeTime (ds +:+ "M") now
  = if k =? 1 then Ok (Sub (AddDate now 0 1 0) now) else Err InvalidCharacters.
Proof.
  intros Hd Hne Ha Hk. pose proof (Atoi_range _ _ Ha) as Hr.
  unfold parseRelativeTime, monthRegex_FindAll, monthRegex_ReplaceAll,
    unitRegex_FindAll.
  rewrite findAll_digits, removeAll_digits, !str_app_nil_l by exact Hd.
  cbn [findAll removeAll isDigitChar]. 
  change (isDigitChar "M") with false. change (isMonthMarker "M") with true.
  rewrite (isEmpty_false ds Hne). cbn [negb andb].
  cbn [sumMonths group1 fst snd]. rewrite Ha.
  destruct (Z.leb_spec k 0); [lia|].
  unfold GoInt.add. rewrite Z.add_0_l, wrap64_small by exact Hr.
  cbn [ToLower findAll length Nat.eqb andb].
  destruct (Z.eqb_spec k 0); [lia|].
  unfold reconstruct, stripInput. cbn [fold_left whole fst].
  rewrite str_app_nil_l, ToLower_length, Repeat_length.
  rewrite (RemoveAll_app " "), (RemoveAll_digits " " ds)
    by (reflexivity || exact Hd).
  change (RemoveAll " " "M") with "M".
  rewrite (RemoveAll_app "009"), (RemoveAll_digits "009" ds)
    by (reflexivity || exact Hd).
  change (RemoveAll "009" "M") with "M".
  rewrite Replace1_self. cbn [String.length].
  destruct (Z.eqb_spec k 1) as [->|Hk1].
  - cbn. unfold GoInt.add. rewrite Z.add_0_l, wrap64_small by apply Sub_range.
    change (Z.to_nat 1 * 1 =? 1)%nat with true. cbn [negb].
    rewrite Bool.andb_false_r. reflexivity.
  - destruct (Nat.eqb_spec (Z.to_nat k * 1) 1); [lia | reflexivity].
Qed.

Lemma wrap64_range z : GoInt.minInt64 <= GoInt.wrap64 z <= GoInt.maxInt64.
Proof.
  unfold GoInt.wrap64, GoInt.minInt64, GoInt.maxInt64.
  pose proof (Z.mod_pos_bound (z + 2 ^ 63) (2 ^ 64) eq_refl). lia.
Qed.

(** A single minute token. *)
Lemma parse_minute_token ds n now :
  allDigits ds = true → ds ≠ "" → Atoi ds = Some n → 0 < n →
  parseRelativeTime (ds +:+ "m") now
  = if GoInt.mul n Minute <=? 0 then Err NonPositiveTotal
    else Ok (GoInt.mul n Minute).
Proof.
  intros Hd Hne Ha Hn.
  unfold parseRelativeTime, monthRegex_FindAll, monthRegex_ReplaceAll,
    unitRegex_FindAll.
  rewrite findAll_digits, removeAll_digits, !str_app_nil_l by exact Hd.
  cbn [findAll removeAll].
  change (isDigitChar "m") with false. change (isMonthMarker "m") with false.
  cbn [andb sumMonths]. rewrite ToLower_app, ToLower_digits by exact Hd.
  change (ToLower (String "m" "")) with "m".
  rewrite findAll_digits, str_app_nil_l by exact Hd.
  cbn [findAll]. change (isDigitChar "m") with false.
  change (isUnitLetter "m") with true. rewrite (isEmpty_false ds Hne).
  cbn [negb andb length Nat.eqb].
  unfold reconstruct, stripInput. cbn [fold_left whole fst Z.to_nat Repeat].
  change (Repeat "M" (Z.to_nat 0)) with "".
  rewrite str_app_nil_l, (str_app_nil_r (ds +:+ "m")).
  rewrite (RemoveAll_app " "), (RemoveAll_digits " " ds)
    by (reflexivity || exact Hd).
  change (RemoveAll " " "m") with "m".
  rewrite (RemoveAll_app "009"), (RemoveAll_digits "009" ds)
    by (reflexivity || exact Hd).
  change (RemoveAll "009" "m") with "m".
  rewrite Nat.eqb_refl. cbn [negb sumUnits group1 group2 fst snd].
  rewrite Ha. destruct (Z.leb_spec n 0); [lia|].
  change (parseTimeUnit n "m") with (Ok (GoInt.mul n Minute)). cbv iota.
  change (0 <? 0) with false. cbv iota.
  assert (E : GoInt.add 0 (GoInt.mul n Minute) = GoInt.mul n Minute).
  { unfold GoInt.add. rewrite Z.add_0_l. apply wrap64_small, wrap64_range. }
  rewrite E. change (0 =? 0) with true. rewrite Bool.andb_true_r. reflexivity.
Qed.

End Tokens.

(** ** The relative parser on month and minute tokens *)

Section MonthToken.
Import time timeParse strings strconv regexp utils.
Local Open Scope Z_scope.

(** The month token ["kM"] for the decimal numeral of [k]: accepted for
    one month, rejected by the coverage check for more. *)
Lemma parse_month_numeral k now :
  0 < k <= GoInt.maxInt64 →
  parseRelativeTime (pretty k +:+ "M") now
  = if k =? 1 then Ok (Sub (AddDate now 0 1 0) now) else Err InvalidCharacters.
Proof.
  intros Hk. destruct (pretty_pos_digits k) as (Hd & Hne & _); [lia|].
  apply parse_month_token; [assumption.. | apply Atoi_pretty, Hk | lia].
Qed.

(** C2, on the code: the single month token ["2M"] is not accepted.  The
    coverage check compares two ["M"] markers, one for each month counted,
    with the one marker that replaces the token, and fails; so does every
    month token for two months or more, alone or next to a unit token.
    One month is accepted, with the calendar difference as its result. *)
Theorem parseRelativeTime_two_months_rejected (now nowAdd : Time) :
  parseRelativeTime "2M" now = Err InvalidCharacters ∧
  ParseDeadline "2M" now nowAdd = Err (InvalidFormat InvalidCharacters) ∧
  String.length (ToLower (reconstruct [] 2)) = 2%nat ∧
  String.length (stripInput "2M" (monthRegex_FindAll "2M")) = 1%nat ∧
  parseRelativeTime "2M 3d" now = Err InvalidCharacters ∧
  (∀ k, 2 <= k <= GoInt.maxInt64 →
        parseRelativeTime (pretty k +:+ "M") now = Err InvalidCharacters) ∧
  parseRelativeTime "1M" now = Ok (Sub (AddDate now 0 1 0) now).
Proof.
  split; [reflexivity|]. split; [reflexivity|]. split; [reflexivity|].
  split; [reflexivity|]. split; [reflexivity|]. split.
  - intros k Hk. rewrite parse_month_numeral by lia.
    destruct (Z.eqb_spec k 1); [lia | reflexivity].
  - apply (parse_month_numeral 1). vm_compute. split; [reflexivity | discriminate].
Qed.

(** One month from January 31, 2025 is 31 days; from February 1, 28. *)
Example one_month_follows_the_calendar :
  parseRelativeTime "1M" (Date 2025 1 31 10 0 0 0) = Ok (31 * (24 * Hour)) ∧
  parseRelativeTime "1M" (Date 2025 2 1 10 0 0 0) = Ok (28 * (24 * Hour)) ∧
  parseRelativeTime "1M 2d" (Date 2025 2 1 10 0 0 0) = Ok (30 * (24 * Hour)).
Proof. vm_compute. repeat split. Qed.

(** C8, as stated, fails: ["1m"] is one minute and ["1M"] one month. *)
Lemma month_marker_case_counterexample :
  ¬ (∀ n now, 0 < n →
       parseRelativeTime (pretty n +:+ "m") now
       = parseRelativeTime (pretty n +:+ "M") now).
Proof.
  intros H. specialize (H 1 samples.noon eq_refl).
  vm_compute in H. discriminate.
Qed.

(** C8, amended.  The month marker is matched in upper case only; with a
    lower-case [m] the token is a minute token: for every [n] from 1 to
    153722867, the largest number of minutes of a [Duration], ["nm"] is
    [n] minutes whatever the instant, while ["1M"] is one calendar month. *)
Theorem lowercase_m_is_minutes (n : Z) (now : Time) :
  0 < n <= 153722867 →
  parseRelativeTime (pretty n +:+ "m") now = Ok (n * Minute) ∧
  parseRelativeTime "1M" now = Ok (Sub (AddDate now 0 1 0) now).
Proof.
  intros Hn. split.
  - destruct (pretty_pos_digits n) as (Hd & Hne & _); [lia|].
    rewrite (parse_minute_token (pretty n) n)
      by (try assumption; try lia; apply Atoi_pretty;
          unfold GoInt.maxInt64; lia).
    assert (E : GoInt.mul n Minute = n * Minute).
    { unfold GoInt.mul. apply wrap64_small.
      unfold GoInt.minInt64, GoInt.maxInt64, Minute, Second. lia. }
    rewrite E. destruct (Z.leb_spec (n * Minute) 0); [|reflexivity].
    unfold Minute, Second in *. lia.
  - apply (parse_month_numeral 1). vm_compute. split; [reflexivity | discriminate].
Qed.

Lemma lowercase_m_is_minutes_witness :
  parseRelativeTime "5m" samples.noon = Ok (5 * Minute) ∧
  parseRelativeTime "1M" samples.noon = Ok (30 * (24 * Hour)).
Proof.
  destruct (lowercase_m_is_minutes 5 samples.noon ltac:(lia)) as [Hm HM].
  split; [exact Hm | exact HM].
Defined.

End MonthToken.

(** ** Malformed deadlines *)

Section Malformed.
Import time timeParse strings strconv regexp utils.
Local Open Scope Z_scope.

Lemma TrimSpace_spaces s : allSpaces s = true → TrimSpace s = "".
Proof.
  unfold TrimSpace. induction s as [|c s IH]; [reflexivity|]. cbn.
  intros [-> Hs]%andb_prop. apply IH, Hs.
Qed.

(** C7. Empty and white-space-only input fails with [EmptyInput] in
    [ParseDeadline]; ["5x"], ["d"] and ["tomorrow"] fail with
    [NoValidUnits]; ["-2d"], ["2d 3x"], ["2d+3h"] and ["1.5h"] fail with
    [InvalidCharacters] because the reconstructed tokens are shorter than
    the input without its white space; ["0d"] fails with
    [NonPositiveValue]. *)
Theorem malformed_deadlines_classified (nowRel now : Time) :
  (∀ s, allSpaces s = true → ParseDeadline s nowRel now = Err EmptyInput) ∧
  ParseDeadline "" nowRel now = Err EmptyInput ∧
  ParseDeadline "   " nowRel now = Err EmptyInput ∧
  Forall (λ s, parseRelativeTime s nowRel = Err NoValidUnits ∧
               ParseDeadline s nowRel now = Err (InvalidFormat NoValidUnits))
         ["5x"; "d"; "tomorrow"] ∧
  Forall (λ s, reconstructedShorter s ∧
               parseRelativeTime s nowRel = Err InvalidCharacters ∧
               ParseDeadline s nowRel now
               = Err (InvalidFormat InvalidCharacters))
         ["-2d"; "2d 3x"; "2d+3h"; "1.5h"] ∧
  parseRelativeTime "0d" nowRel = Err NonPositiveValue ∧
  ParseDeadline "0d" nowRel now = Err (InvalidFormat NonPositiveValue).
Proof.
  split.
  { intros s Hs. unfold ParseDeadline, ParseDeadlineWith.
    rewrite TrimSpace_spaces by exact Hs. reflexivity. }
  split; [reflexivity|]. split; [reflexivity|].
  split; [repeat constructor|].
  split; [|split; reflexivity].
  repeat constructor; unfold reconstructedShorter; vm_compute; lia.
Qed.

End Malformed.

(** ** Absolute deadlines *)

Section Layout.
Import time timeParse strings utils.
Local Open Scope Z_scope.

Lemma two_digit_table :
  forallb (λ n,
    match appendInt (Z.of_nat n) 2 with
    | String c0 (String c1 "") =>
        isDigitChar c0 && isDigitChar c1 &&
        (digitVal c0 * 10 + digitVal c1 =? Z.of_nat n)
    | _ => false
    end) (seq 0 100) = true.
Proof. vm_compute. reflexivity. Qed.

Lemma four_digit_table :
  forallb (λ hi,
    forallb (λ lo,
      String.eqb (appendInt (100 * Z.of_nat hi + Z.of_nat lo) 4)
                 (appendInt (Z.of_nat hi) 2 +:+ appendInt (Z.of_nat lo) 2))
      (seq 0 100)) (seq 0 100) = true.
Proof. vm_compute. reflexivity. Qed.

Lemma appendInt_two n :
  0 <= n < 100 →
  ∃ c0 c1, appendInt n 2 = String c0 (String c1 "") ∧
           isDigitChar c0 = true ∧ isDigitChar c1 = true ∧
           digitVal c0 * 10 + digitVal c1 = n.
Proof.
  intros Hn. pose proof two_digit_table as T.
  rewrite forallb_forall in T. specialize (T (Z.to_nat n)).
  rewrite Z2Nat.id in T by lia.
  assert (Hin : In (Z.to_nat n) (seq 0 100)) by (apply in_seq; lia).
  apply T in Hin. clear T.
  destruct (appendInt n 2) as [|c0 [|c1 [|? ?]]]; try discriminate.
  apply andb_prop in Hin as [[H0 H1]%andb_prop Hv].
  apply Z.eqb_eq in Hv. eauto 10.
Qed.

Lemma appendInt_four n :
  0 <= n < 10000 →
  ∃ c0 c1 c2 c3,
    appendInt n 4 = String c0 (String c1 (String c2 (String c3 ""))) ∧
    isDigitChar c0 = true ∧ isDigitChar c1 = true ∧
    isDigitChar c2 = true ∧ isDigitChar c3 = true ∧
    ((digitVal c0 * 10 + digitVal c1) * 10 + digitVal c2) * 10 + digitVal c3 = n.
Proof.
  intros Hn. pose proof four_digit_table as T.
  rewrite forallb_forall in T. specialize (T (Z.to_nat (n / 100))).
  assert (Hhi : 0 <= n / 100 < 100).
  { split; [apply Z.div_pos; lia | apply Z.div_lt_upper_bound; lia]. }
  pose proof (Z.mod_pos_bound n 100 eq_refl) as Hlo.
  pose proof (Z.div_mod n 100 ltac:(discriminate)) as E.
  assert (Hin : In (Z.to_nat (n / 100)) (seq 0 100)) by (apply in_seq; lia).
  apply T in Hin. clear T. rewrite forallb_forall in Hin.
  specialize (Hin (Z.to_nat (n mod 100))).
  assert (Hin' : In (Z.to_nat (n mod 100)) (seq 0 100)) by (apply in_seq; lia).
  apply Hin in Hin'. clear Hin. rewrite !Z2Nat.id in Hin' by lia.
  apply String.eqb_eq in Hin'. rewrite <- E in Hin'.
  destruct (appendInt_two (n / 100) Hhi) as (c0 & c1 & E1 & D0 & D1 & V1).
  destruct (appendInt_two (n mod 100) Hlo) as (c2 & c3 & E2 & D2 & D3 & V2).
  exists c0, c1, c2, c3. rewrite Hin', E1, E2.
  split; [reflexivity|]. repeat (split; [assumption|]). lia.
Qed.

Lemma digit_not_space c : isDigitChar c = true → isSpace c = false.
Proof.
  unfold isDigitChar, isSpace. intros [H1 H2]%andb_prop.
  apply N.leb_le in H1, H2.
  destruct (N.leb_spec 9 (N_of_ascii c)), (N.leb_spec (N_of_ascii c) 13),
    (N.eqb_spec (N_of_ascii c) 32); cbn; (reflexivity || lia).
Qed.

Lemma getnum_two c0 c1 rest fixed :
  isDigitChar c0 = true → isDigitChar c1 = true →
  getnum (String c0 (String c1 rest)) fixed
  = Some (digitVal c0 * 10 + digitVal c1, rest).
Proof. intros H0 H1. cbn. rewrite H0, H1. reflexivity. Qed.

Lemma cutspace_digit c rest :
  isDigitChar c = true → cutspace (String c rest) = String c rest.
Proof.
  intros Hc. destruct c as [[] [] [] [] [] [] [] []];
    try discriminate Hc; reflexivity.
Qed.

Lemma skip_space_digit c rest :
  isDigitChar c = true →
  skip (String " " (String c rest)) " " = Some (String c rest).
Proof.
  intros Hc. unfold skip. change (Ascii.eqb " " " ") with true. cbv iota.
  change (cutspace (String " " (String c rest))) with (cutspace (String c rest)).
  rewrite cutspace_digit by exact Hc. reflexivity.
Qed.

Lemma TrimRight_digit_end s c :
  isSpace c = false → TrimRight (s +:+ String c "") = s +:+ String c "".
Proof.
  intros Hc. induction s as [|x s IH].
  - rewrite str_app_nil_l. cbn. rewrite Hc. reflexivity.
  - rewrite str_app_cons. cbn [TrimRight]. rewrite IH.
    destruct s; reflexivity.
Qed.

Lemma daysIn_le_31 month year :
  1 <= month <= 12 → 28 <= daysIn month year <= 31.
Proof.
  intros Hm. unfold daysIn.
  destruct ((month =? 2) && isLeap year); [lia|].
  assert (month = 1 ∨ month = 2 ∨ month = 3 ∨ month = 4 ∨ month = 5 ∨
          month = 6 ∨ month = 7 ∨ month = 8 ∨ month = 9 ∨ month = 10 ∨
          month = 11 ∨ month = 12) as Hcases by lia.
  clear Hm.
  repeat (destruct Hcases as [Hc | Hcases];
          [subst month; vm_compute; split; discriminate|]).
  subst month; vm_compute; split; discriminate.
Qed.

(** The text of a valid date and time of day in the layout is parsed to
    that instant, whatever the relative parser and the clock. *)
Lemma ParseDeadlineWith_layout relative (year month day hour min now : Z) :
  0 <= year <= 9999 → 1 <= month <= 12 → 1 <= day <= daysIn month year →
  0 <= hour <= 23 → 0 <= min <= 59 →
  timeParse.ParseInLocation (layoutText year month day hour min)
  = Some (Date year month day hour min 0 0) ∧
  ParseDeadlineWith relative (layoutText year month day hour min) now
  = Ok (Date year month day hour min 0 0).
Proof.
  intros Hy Hm Hd Hh Hmin.
  destruct (appendInt_four year) as (y0 & y1 & y2 & y3 & Ey & Y0 & Y1 & Y2 & Y3 & Vy); [lia|].
  destruct (appendInt_two month) as (m0 & m1 & Em & M0 & M1 & Vm); [lia|].
  destruct (appendInt_two day) as (d0 & d1 & Ed & D0 & D1 & Vd).
  { pose proof (daysIn_le_31 month year Hm). lia. }
  destruct (appendInt_two hour) as (h0 & h1 & Eh & H0 & H1 & Vh); [lia|].
  destruct (appendInt_two min) as (i0 & i1 & Ei & I0 & I1 & Vi); [lia|].
  assert (P : timeParse.ParseInLocation (layoutText year month day hour min)
              = Some (Date year month day hour min 0 0)).
  { unfold layoutText. rewrite Ey, Em, Ed, Eh, Ei.
    unfold timeParse.ParseInLocation.
    rewrite !str_app_cons, !str_app_nil_l.
    cbn [getyear]. rewrite Y0, Y1, Y2, Y3. cbn [andb mbind option_bind].
    change (skip (String "-" ?r) "-") with (Some r). cbn [mbind option_bind].
    rewrite !getnum_two by assumption. cbn [mbind option_bind].
    rewrite Vy, Vm.
    destruct (Z.leb_spec month 0); [lia|]. destruct (Z.ltb_spec 12 month); [lia|].
    cbn [orb].
    change (skip (String "-" ?r) "-") with (Some r). cbn [mbind option_bind].
    rewrite !getnum_two by assumption. cbn [mbind option_bind].
    rewrite skip_space_digit by assumption. cbn [mbind option_bind].
    rewrite !getnum_two by assumption. cbn [mbind option_bind].
    rewrite Vh, Vd.
    destruct (Z.ltb_spec hour 0); [lia|]. destruct (Z.leb_spec 24 hour); [lia|].
    cbn [orb].
    change (skip (String ":" ?r) ":") with (Some r). cbn [mbind option_bind].
    rewrite !getnum_two by assumption. cbn [mbind option_bind].
    rewrite Vi.
    destruct (Z.ltb_spec min 0); [lia|]. destruct (Z.leb_spec 60 min); [lia|].
    cbn [orb String.length Nat.eqb negb].
    destruct (Z.ltb_spec day 1); [lia|].
    destruct (Z.ltb_spec (daysIn month year) day); [lia|]. reflexivity. }
  split; [exact P|].
  unfold ParseDeadlineWith.
  assert (T : TrimSpace (layoutText year month day hour min)
              = layoutText year month day hour min).
  { unfold layoutText. rewrite Ey, Em, Ed, Eh, Ei.
    rewrite !str_app_cons, !str_app_nil_l.
    unfold TrimSpace. cbn [TrimLeft]. rewrite (digit_not_space y0) by assumption.
    apply (TrimRight_digit_end
             (String y0 (String y1 (String y2 (String y3 (String "-"
               (String m0 (String m1 (String "-" (String d0 (String d1
                 (String " " (String h0 (String h1 (String ":"
                   (String i0 "")))))))))))))))
             i1).
    apply digit_not_space; assumption. }
  rewrite T, P.
  unfold layoutText. rewrite Ey. reflexivity.
Qed.

(** The bytes of a text in the layout: digits, hyphens, a space, a colon. *)
Lemma layoutText_bytes (year month day hour min : Z) :
  0 <= year <= 9999 → 0 <= month <= 99 → 0 <= day <= 99 →
  0 <= hour <= 99 → 0 <= min <= 99 →
  ∃ y0 y1 y2 y3 m0 m1 d0 d1 h0 h1 i0 i1,
    layoutText year month day hour min
    = String y0 (String y1 (String y2 (String y3 (String "-"
        (String m0 (String m1 (String "-" (String d0 (String d1
          (String " " (String h0 (String h1 (String ":"
            (String i0 (String i1 ""))))))))))))))) ∧
    Forall (λ c, isDigitChar c = true)
           [y0; y1; y2; y3; m0; m1; d0; d1; h0; h1; i0; i1] ∧
    ((digitVal y0 * 10 + digitVal y1) * 10 + digitVal y2) * 10 + digitVal y3
    = year ∧
    digitVal m0 * 10 + digitVal m1 = month ∧
    digitVal d0 * 10 + digitVal d1 = day ∧
    digitVal h0 * 10 + digitVal h1 = hour ∧
    digitVal i0 * 10 + digitVal i1 = min.
Proof.
  intros Hy Hm Hd Hh Hmin.
  destruct (appendInt_four year) as (y0 & y1 & y2 & y3 & Ey & Y0 & Y1 & Y2 & Y3 & Vy); [lia|].
  destruct (appendInt_two month) as (m0 & m1 & Em & M0 & M1 & Vm); [lia|].
  destruct (appendInt_two day) as (d0 & d1 & Ed & D0 & D1 & Vd); [lia|].
  destruct (appendInt_two hour) as (h0 & h1 & Eh & H0 & H1 & Vh); [lia|].
  destruct (appendInt_two min) as (i0 & i1 & Ei & I0 & I1 & Vi); [lia|].
  exists y0, y1, y2, y3, m0, m1, d0, d1, h0, h1, i0, i1.
  split.
  { unfold layoutText. rewrite Ey, Em, Ed, Eh, Ei.
    rewrite !str_app_cons, !str_app_nil_l. reflexivity. }
  split; [repeat constructor; assumption|]. auto.
Qed.

(** What the absolute branch makes of a text in the layout, in range or
    not. *)
Lemma ParseInLocation_layoutText (year month day hour min : Z) :
  0 <= year <= 9999 → 0 <= month <= 99 → 0 <= day <= 99 →
  0 <= hour <= 99 → 0 <= min <= 99 →
  ParseInLocation (layoutText year month day hour min)
  = if (1 <=? month) && (month <=? 12) && (1 <=? day) &&
       (day <=? daysIn month year) && (hour <=? 23) && (min <=? 59)
    then Some (Date year month day hour min 0 0) else None.
Proof.
  intros Hy Hm Hd Hh Hmin.
  destruct (layoutText_bytes year month day hour min)
    as (y0 & y1 & y2 & y3 & m0 & m1 & d0 & d1 & h0 & h1 & i0 & i1 &
        E & F & Vy & Vm & Vd & Vh & Vi); try assumption.
  rewrite E. clear E.
  repeat match goal with
         | H : Forall _ (_ :: _) |- _ => apply Forall_cons in H as [? H]
         end.
  unfold ParseInLocation. cbn [getyear].
  repeat match goal with H : isDigitChar _ = true |- _ => rewrite H end.
  cbn [andb mbind option_bind].
  change (skip (String "-" ?r) "-") with (Some r). cbn [mbind option_bind].
  rewrite !getnum_two by assumption. cbn [mbind option_bind].
  rewrite Vy, Vm.
  destruct (Z.leb_spec month 0), (Z.ltb_spec 12 month), (Z.leb_spec 1 month),
    (Z.leb_spec month 12); try lia; cbn [orb andb]; try reflexivity.
  change (skip (String "-" ?r) "-") with (Some r). cbn [mbind option_bind].
  rewrite !getnum_two by assumption. cbn [mbind option_bind].
  rewrite skip_space_digit by assumption. cbn [mbind option_bind].
  rewrite !getnum_two by assumption. cbn [mbind option_bind].
  rewrite Vh, Vd.
  destruct (Z.ltb_spec hour 0); [lia|].
  destruct (Z.leb_spec 24 hour), (Z.leb_spec hour 23); try lia; cbn [orb andb];
    rewrite ?andb_false_r; try reflexivity.
  change (skip (String ":" ?r) ":") with (Some r). cbn [mbind option_bind].
  rewrite !getnum_two by assumption. cbn [mbind option_bind].
  rewrite Vi.
  destruct (Z.ltb_spec min 0); [lia|].
  destruct (Z.leb_spec 60 min), (Z.leb_spec min 59); try lia; cbn [orb andb];
    rewrite ?andb_false_r; try reflexivity.
  cbn [String.length Nat.eqb negb].
  destruct (Z.ltb_spec day 1), (Z.leb_spec 1 day); try lia; cbn [orb andb];
    try reflexivity.
  destruct (Z.ltb_spec (daysIn month year) day),
    (Z.leb_spec day (daysIn month year)); try lia; reflexivity.
Qed.

Lemma findAll_none isUnit run s :
  forallChars (λ c, negb (isUnit c)) s = true → regexp.findAll isUnit run s = [].
Proof.
  revert run. induction s as [|c s IH]; intros run; [reflexivity|].
  cbn [forallChars regexp.findAll]. intros [Hc Hs]%andb_prop.
  apply negb_true_iff in Hc. rewrite Hc. cbn [andb].
  destruct (isDigitChar c); apply IH, Hs.
Qed.

Lemma removeAll_none isUnit run s :
  forallChars (λ c, negb (isUnit c)) s = true →
  regexp.removeAll isUnit run s = run +:+ s.
Proof.
  revert run. induction s as [|c s IH]; intros run.
  - intros _. cbn. rewrite str_app_nil_r. reflexivity.
  - cbn [forallChars regexp.removeAll]. intros [Hc Hs]%andb_prop.
    apply negb_true_iff in Hc. rewrite Hc. cbn [andb].
    destruct (isDigitChar c).
    + rewrite IH, str_app_assoc by exact Hs. reflexivity.
    + rewrite IH by exact Hs. reflexivity.
Qed.

Lemma forallChars_ToLower p s :
  forallChars p (ToLower s) = forallChars (λ c, p (toLowerChar c)) s.
Proof.
  induction s as [|c s IH]; [reflexivity|]. cbn. rewrite IH. reflexivity.
Qed.

(** A text without a letter of a unit, in either case, has no token. *)
Lemma parseRelativeTime_no_unit s now :
  forallChars (λ c, negb (isMonthMarker c)) s = true →
  forallChars (λ c, negb (isUnitLetter (toLowerChar c))) s = true →
  parseRelativeTime s now = Err NoValidUnits.
Proof.
  intros HM HU.
  unfold parseRelativeTime, monthRegex_FindAll, monthRegex_ReplaceAll,
    unitRegex_FindAll.
  rewrite findAll_none, removeAll_none, str_app_nil_l by exact HM.
  cbn [sumMonths].
  rewrite findAll_none by (rewrite forallChars_ToLower; exact HU).
  reflexivity.
Qed.

Lemma digit_no_unit c :
  isDigitChar c = true →
  negb (isMonthMarker c) = true ∧ negb (isUnitLetter (toLowerChar c)) = true.
Proof.
  intros Hc. rewrite toLowerChar_digit by exact Hc.
  unfold isMonthMarker, isUnitLetter.
  rewrite !(digit_eqb_false c) by (exact Hc || reflexivity). auto.
Qed.

(** A text in the layout is rejected by the relative parser, which finds
    no unit in it, and is not touched by the trimming. *)
Lemma layoutText_relative (year month day hour min nowRel : Z) :
  0 <= year <= 9999 → 0 <= month <= 99 → 0 <= day <= 99 →
  0 <= hour <= 99 → 0 <= min <= 99 →
  parseRelativeTime (layoutText year month day hour min) nowRel
  = Err NoValidUnits ∧
  TrimSpace (layoutText year month day hour min)
  = layoutText year month day hour min ∧
  regexp.isEmpty (layoutText year month day hour min) = false.
Proof.
  intros Hy Hm Hd Hh Hmin.
  destruct (layoutText_bytes year month day hour min)
    as (y0 & y1 & y2 & y3 & m0 & m1 & d0 & d1 & h0 & h1 & i0 & i1 &
        E & F & _); try assumption.
  rewrite E. clear E.
  repeat match goal with
         | H : Forall _ (_ :: _) |- _ => apply Forall_cons in H as [? H]
         end.
  split; [|split; [|reflexivity]].
  - apply parseRelativeTime_no_unit; cbn [forallChars];
      repeat match goal with
             | H : isDigitChar ?c = true |- context [isMonthMarker ?c] =>
                 rewrite (proj1 (digit_no_unit c H))
             | H : isDigitChar ?c = true
               |- context [isUnitLetter (toLowerChar ?c)] =>
                 rewrite (proj2 (digit_no_unit c H))
             end; reflexivity.
  - unfold TrimSpace. cbn [TrimLeft]. rewrite (digit_not_space y0) by assumption.
    apply (TrimRight_digit_end
             (String y0 (String y1 (String y2 (String y3 (String "-"
               (String m0 (String m1 (String "-" (String d0 (String d1
                 (String " " (String h0 (String h1 (String ":"
                   (String i0 "")))))))))))))))
             i1).
    apply digit_not_space; assumption.
Qed.

(** A text in the layout with a field out of range. *)
Lemma ParseDeadline_out_of_range (year month day hour min nowRel now : Z) :
  0 <= year <= 9999 → 0 <= month <= 99 → 0 <= day <= 99 →
  0 <= hour <= 99 → 0 <= min <= 99 →
  ¬ (1 <= month <= 12 ∧ 1 <= day <= daysIn month year ∧
     hour <= 23 ∧ min <= 59) →
  ParseInLocation (layoutText year month day hour min) = None ∧
  parseRelativeTime (layoutText year month day hour min) nowRel
  = Err NoValidUnits ∧
  ParseDeadline (layoutText year month day hour min) nowRel now
  = Err (InvalidFormat NoValidUnits).
Proof.
  intros Hy Hm Hd Hh Hmin Hout.
  destruct (layoutText_relative year month day hour min nowRel)
    as (R & T & NE); try assumption.
  assert (P : ParseInLocation (layoutText year month day hour min) = None).
  { rewrite ParseInLocation_layoutText by assumption.
    destruct (Z.leb_spec 1 month), (Z.leb_spec month 12), (Z.leb_spec 1 day),
      (Z.leb_spec day (daysIn month year)), (Z.leb_spec hour 23),
      (Z.leb_spec min 59); cbn [andb]; try reflexivity.
    exfalso. apply Hout. lia. }
  split; [exact P|]. split; [exact R|].
  unfold ParseDeadline, ParseDeadlineWith. rewrite T, NE, P, R. reflexivity.
Qed.

(** C6. An input in the layout [YYYY-MM-DD HH:MM] with fields in range
    resolves to exactly that instant, whatever the relative parser would
    do with it and whatever the clock.  An input in the layout with a
    field out of range (a month that is not 1 to 12, a day that the
    month does not have, an hour above 23 or a minute above 59) is
    rejected by the absolute branch, finds no unit in the relative
    parser, and fails with [InvalidFormat] around that error:
    ["2025-13-01 14:30"] among them. *)
Theorem ParseDeadline_absolute (year month day hour min nowRel now : Z) :
  0 <= year <= 9999 → 1 <= month <= 12 → 1 <= day <= daysIn month year →
  0 <= hour <= 23 → 0 <= min <= 59 →
  (∀ relative,
     ParseDeadlineWith relative (layoutText year month day hour min) now
     = Ok (Date year month day hour min 0 0)) ∧
  ParseDeadline (layoutText year month day hour min) nowRel now
  = Ok (Date year month day hour min 0 0) ∧
  timeParse.ParseInLocation "2025-13-01 14:30" = None ∧
  parseRelativeTime "2025-13-01 14:30" nowRel = Err NoValidUnits ∧
  ParseDeadline "2025-13-01 14:30" nowRel now
  = Err (InvalidFormat NoValidUnits) ∧
  (∀ year' month' day' hour' min',
     0 <= year' <= 9999 → 0 <= month' <= 99 → 0 <= day' <= 99 →
     0 <= hour' <= 99 → 0 <= min' <= 99 →
     ¬ (1 <= month' <= 12 ∧ 1 <= day' <= daysIn month' year' ∧
        hour' <= 23 ∧ min' <= 59) →
     timeParse.ParseInLocation (layoutText year' month' day' hour' min')
     = None ∧
     parseRelativeTime (layoutText year' month' day' hour' min') nowRel
     = Err NoValidUnits ∧
     ParseDeadline (layoutText year' month' day' hour' min') nowRel now
     = Err (InvalidFormat NoValidUnits)).
Proof.
  intros Hy Hm Hd Hh Hmin. split; [|split].
  - intros relative. apply ParseDeadlineWith_layout; assumption.
  - apply ParseDeadlineWith_layout; assumption.
  - split; [reflexivity|]. split; [reflexivity|]. split; [reflexivity|].
    intros. apply ParseDeadline_out_of_range; assumption.
Qed.

Lemma ParseDeadline_absolute_witness :
  layoutText 2025 11 16 14 30 = "2025-11-16 14:30" ∧
  ParseDeadline "2025-11-16 14:30" samples.noon samples.noon
  = Ok (Date 2025 11 16 14 30 0 0) ∧
  time.DateOf (Date 2025 11 16 14 30 0 0) = (2025, 11, 16) ∧
  time.Clock (Date 2025 11 16 14 30 0 0) = (14, 30, 0) ∧
  ParseDeadline "2025-02-30 10:00" samples.noon samples.noon
  = Err (InvalidFormat NoValidUnits) ∧
  ParseDeadline "2025-11-16 24:00" samples.noon samples.noon
  = Err (InvalidFormat NoValidUnits) ∧
  ParseDeadline "2025-00-16 14:60" samples.noon samples.noon
  = Err (InvalidFormat NoValidUnits).
Proof.
  split; [reflexivity|]. split; [|split; [reflexivity|split; [reflexivity|]]].
  - destruct (ParseDeadline_absolute 2025 11 16 14 30 samples.noon samples.noon
                ltac:(lia) ltac:(lia) ltac:(vm_compute; split; discriminate)
                ltac:(lia) ltac:(lia)) as (_ & P & _).
    exact P.
  - destruct (ParseDeadline_absolute 2025 11 16 14 30 samples.noon samples.noon
                ltac:(lia) ltac:(lia) ltac:(vm_compute; split; discriminate)
                ltac:(lia) ltac:(lia)) as (_ & _ & _ & _ & _ & G).
    split; [|split].
    + refine (proj2 (proj2 (G 2025 2 30 10 0 ltac:(lia) ltac:(lia) ltac:(lia)
                              ltac:(lia) ltac:(lia) _))).
      intros (_ & [_ Hd] & _). apply Hd. reflexivity.
    + refine (proj2 (proj2 (G 2025 11 16 24 0 ltac:(lia) ltac:(lia) ltac:(lia)
                              ltac:(lia) ltac:(lia) _))).
      intros (_ & _ & Hh & _). apply Hh. reflexivity.
    + refine (proj2 (proj2 (G 2025 0 16 14 60 ltac:(lia) ltac:(lia) ltac:(lia)
                              ltac:(lia) ltac:(lia) _))).
      intros ([Hm _] & _). apply Hm. reflexivity.
Defined.

End Layout.

(** ** The examples of the specification *)

Section SpecExamples.
Import time models storage.
Local Open Scope Z_scope.

(** Task A is incomplete without a deadline, B incomplete with one, C
    complete and created after A: the listing is B, A, C in whatever
    order the three were stored. *)
Example listing_B_A_C :
  Forall (λ todos, ID <$> GetAllTodos (samples.storeOf todos) = ["B"; "A"; "C"])
    [ [samples.taskA; samples.taskB; samples.taskC];
      [samples.taskC; samples.taskB; samples.taskA];
      [samples.taskB; samples.taskC; samples.taskA] ] ∧
  ID <$> sort.Slice todoLess [samples.taskC; samples.taskA; samples.taskB]
  = ["B"; "A"; "C"].
Proof. split; [repeat constructor | reflexivity]. Qed.

(** Completions at [noon] and 50 hours later: the streak is reset to 1
    and the maximum keeps its value. *)
Example streak_reset_after_50_hours :
  let st := GetStreak (afterCompletions
                         [samples.noon; samples.noon + 20 * Hour;
                          samples.noon + 44 * Hour; samples.noon + 94 * Hour]) in
  let daily := default ∅ (DailyCompletions st) in
  CurrentStreak st = 1 ∧ MaxStreak st = 2 ∧ TotalCompleted st = 4 ∧
  (λ day, daily !! day) <$> ["2025-11-16"; "2025-11-17"; "2025-11-18";
                             "2025-11-19"; "2025-11-20"]
  = [Some 1; Some 1; Some 1; None; Some 1].
Proof. vm_compute. repeat split. Qed.

(** Two completions 23 hours 59 minutes apart on different days count as
    the same day; 24 hours 5 minutes apart they count as consecutive. *)
Example gap_is_elapsed_time :
  daysOf (23 * Hour + 59 * Minute) = 0 ∧ daysOf (24 * Hour + 5 * Minute) = 1.
Proof. vm_compute. split; reflexivity. Qed.

(** A completion one hour before the last one, after the clock was set
    back: the count of days is 0 and the streak is kept. *)
Example gap_backwards :
  let st := recordCompletion samples.streak3 (samples.noon - Hour) in
  daysOf (Sub (samples.noon - Hour) samples.noon) = 0 ∧
  CurrentStreak st = 3 ∧ MaxStreak st = 5 ∧ TotalCompleted st = 8 ∧
  LastCompletedAt st = samples.noon - Hour.
Proof. vm_compute. repeat split. Qed.

(** Beyond 170 days the rounding of [Hours] shows: one nanosecond short of
    171 days already counts as 171. *)
Example daysOf_rounds_up_far_out :
  daysOf (171 * (24 * Hour) - 1) = 171 ∧
  Z.quot (171 * (24 * Hour) - 1) (24 * Hour) = 170.
Proof. vm_compute. split; reflexivity. Qed.

End SpecExamples.

(** * Further properties of the code *)

(** ** The store *)

Section Store.
Import time models storage.
Local Open Scope Z_scope.

Lemma string_compare_lt_neq a b : String.compare a b = Lt → a ≠ b.
Proof. intros H ->. rewrite string_compare_refl in H. discriminate. Qed.

Lemma string_compare_lt_trans a b c :
  String.compare a b = Lt → String.compare b c = Lt → String.compare a c = Lt.
Proof.
  intros Hab Hbc.
  assert (Lab : String.le a b) by (unfold String.le, String.leb; rewrite Hab; exact I).
  assert (Lbc : String.le b c) by (unfold String.le, String.leb; rewrite Hbc; exact I).
  pose proof (transitivity Lab Lbc) as Lac.
  unfold String.le, String.leb in Lac.
  destruct (String.compare a c) eqn:E; [|reflexivity|destruct Lac].
  apply String.compare_eq_iff in E. subst c.
  rewrite String.compare_antisym, Hab in Hbc. discriminate.
Qed.

Lemma bolt_Get_insert_ne {V} (b : bolt.Bucket V) key value key' :
  key ≠ key' → bolt.Get (bolt.insert b key value) key' = bolt.Get b key'.
Proof.
  intros Hne. induction b as [|[k v] rest IH]; cbn.
  - destruct (String.eqb_spec key key'); [congruence | reflexivity].
  - destruct (String.compare key k) eqn:E; cbn.
    + apply String.compare_eq_iff in E. subst k.
      destruct (String.eqb_spec key key'); [congruence | reflexivity].
    + destruct (String.eqb_spec key key'); [congruence | reflexivity].
    + rewrite IH. reflexivity.
Qed.

Lemma bolt_Get_Delete {V} (b : bolt.Bucket V) key :
  bolt.Get (bolt.Delete b key) key = None.
Proof.
  induction b as [|[k v] rest IH]; cbn; [reflexivity|].
  destruct (String.eqb_spec k key) as [->|Hne]; [exact IH|].
  cbn. destruct (String.eqb_spec k key); [congruence | exact IH].
Qed.

Lemma bolt_Get_Delete_ne {V} (b : bolt.Bucket V) key key' :
  key ≠ key' → bolt.Get (bolt.Delete b key) key' = bolt.Get b key'.
Proof.
  intros Hne. induction b as [|[k v] rest IH]; cbn; [reflexivity|].
  destruct (String.eqb_spec k key) as [->|Hk].
  - rewrite IH. destruct (String.eqb_spec key key'); [congruence | reflexivity].
  - cbn. rewrite IH. reflexivity.
Qed.

Lemma bolt_Delete_absent {V} (b : bolt.Bucket V) key :
  bolt.Get b key = None → bolt.Delete b key = b.
Proof.
  induction b as [|[k v] rest IH]; cbn; [reflexivity|].
  destruct (String.eqb_spec k key); [discriminate|].
  intros H. rewrite IH by exact H. reflexivity.
Qed.

Lemma bolt_elem_of_insert {V} (b : bolt.Bucket V) key value x :
  x ∈ bolt.insert b key value → x = (key, value) ∨ x ∈ b.
Proof.
  induction b as [|[k v] rest IH]; cbn.
  - intros ->%list_elem_of_singleton. left. reflexivity.
  - destruct (String.compare key k).
    + intros [->|H]%elem_of_cons; [left; reflexivity|].
      right. apply elem_of_cons. right. exact H.
    + intros [->|H]%elem_of_cons; [left; reflexivity | right; exact H].
    + intros [->|H]%elem_of_cons.
      * right. apply elem_of_cons. left. reflexivity.
      * destruct (IH H) as [->|H']; [left; reflexivity|].
        right. apply elem_of_cons. right. exact H'.
Qed.

Lemma bolt_elem_of_Delete {V} (b : bolt.Bucket V) key x :
  x ∈ bolt.Delete b key → x ∈ b.
Proof.
  induction b as [|[k v] rest IH]; cbn; [auto|].
  destruct (String.eqb k key).
  - intros H. apply elem_of_cons. right. apply IH, H.
  - intros [->|H]%elem_of_cons; apply elem_of_cons; [left | right]; auto.
Qed.

Lemma keysAscending_insert {V} (b : bolt.Bucket V) key value :
  keysAscending b → keysAscending (bolt.insert b key value).
Proof.
  unfold keysAscending. induction b as [|[k v] rest IH]; cbn; intros HS.
  - repeat constructor.
  - apply StronglySorted_cons in HS as [Hk HS].
    destruct (String.compare key k) eqn:E.
    + apply String.compare_eq_iff in E. subst k.
      apply StronglySorted_cons. split; assumption.
    + apply StronglySorted_cons. split.
      * constructor; [exact E|].
        eapply Forall_impl; [exact Hk|]. cbn. intros y Hy.
        eapply string_compare_lt_trans; eassumption.
      * apply StronglySorted_cons. split; assumption.
    + apply StronglySorted_cons. split; [|apply IH, HS].
      apply Forall_forall. intros x Hx.
      apply bolt_elem_of_insert in Hx as [->|Hx]; cbn.
      * rewrite String.compare_antisym, E. reflexivity.
      * rewrite Forall_forall in Hk. apply Hk, Hx.
Qed.

Lemma keysAscending_Delete {V} (b : bolt.Bucket V) key :
  keysAscending b → keysAscending (bolt.Delete b key).
Proof.
  unfold keysAscending. induction b as [|[k v] rest IH]; cbn; intros HS.
  - constructor.
  - apply StronglySorted_cons in HS as [Hk HS].
    destruct (String.eqb k key); [apply IH, HS|].
    apply StronglySorted_cons. split; [|apply IH, HS].
    apply Forall_forall. intros x Hx. apply bolt_elem_of_Delete in Hx.
    rewrite Forall_forall in Hk. apply Hk, Hx.
Qed.

Lemma bolt_Get_elem_of {V} (b : bolt.Bucket V) key value :
  bolt.Get b key = Some value → (key, value) ∈ b.
Proof.
  induction b as [|[k v] rest IH]; cbn; [discriminate|].
  destruct (String.eqb_spec k key) as [->|Hne].
  - intros [= ->]. apply elem_of_cons. left. reflexivity.
  - intros H. apply elem_of_cons. right. apply IH, H.
Qed.

Lemma bolt_elem_of_Get {V} (b : bolt.Bucket V) key value :
  keysAscending b → (key, value) ∈ b → bolt.Get b key = Some value.
Proof.
  unfold keysAscending. induction b as [|[k v] rest IH]; intros HS Hin.
  - apply elem_of_nil in Hin. destruct Hin.
  - apply StronglySorted_cons in HS as [Hk HS]. cbn.
    apply elem_of_cons in Hin as [[= -> ->]|Hin].
    + rewrite String.eqb_refl. reflexivity.
    + rewrite Forall_forall in Hk. pose proof (Hk _ Hin) as Hlt. cbn in Hlt.
      apply string_compare_lt_neq in Hlt.
      destruct (String.eqb_spec k key); [congruence|]. apply IH; assumption.
Qed.

Lemma keysAscending_NoDup {V} (b : bolt.Bucket V) :
  keysAscending b → NoDup (fst <$> b).
Proof.
  unfold keysAscending. induction 1 as [|[k v] rest HS IH Hk]; cbn.
  - constructor.
  - constructor; [|exact IH].
    intros ([k' v'] & Ek & Hin)%list_elem_of_fmap. cbn in Ek. subst k'.
    rewrite Forall_forall in Hk. apply Hk in Hin. cbn in Hin.
    rewrite string_compare_refl in Hin. discriminate.
Qed.

Lemma bolt_Put_valid {V} (b : bolt.Bucket V) key value :
  bolt.validKey key → bolt.Put b key value = inl (bolt.insert b key value).
Proof.
  intros [Hne Hlen]. unfold bolt.Put.
  destruct key as [|c key]; [congruence|]. cbn [String.length Nat.eqb].
  destruct (Z.ltb_spec bolt.MaxKeySize (Z.of_nat (S (String.length key))));
    [cbn [String.length] in Hlen; lia | reflexivity].
Qed.

Lemma bolt_Put_inv {V} (b b' : bolt.Bucket V) key value :
  bolt.Put b key value = inl b' → b' = bolt.insert b key value ∧ bolt.validKey key.
Proof.
  unfold bolt.Put, bolt.validKey.
  destruct key as [|c key]; [discriminate|]. cbn [String.length Nat.eqb].
  destruct (Z.ltb_spec bolt.MaxKeySize (Z.of_nat (S (String.length key))));
    [discriminate|].
  intros [= <-]. split; [reflexivity|]. split; [discriminate|].
  cbn [String.length]. lia.
Qed.

Lemma putTodo_valid s todo :
  bolt.validKey (ID todo) →
  putTodo s todo
  = ({| todoBucket := bolt.insert (todoBucket s) (ID todo) todo;
        streakBucket := streakBucket s |}, None).
Proof. intros Hk. unfold putTodo. rewrite bolt_Put_valid by exact Hk. reflexivity. Qed.


Lemma wellFormed_putTodo s todo : wellFormed s → wellFormed (putTodo s todo).1.
Proof.
  intros [HS HK]. unfold putTodo.
  destruct (bolt.Put (todoBucket s) (ID todo) todo) as [b|e] eqn:E; cbn;
    [|split; assumption].
  apply bolt_Put_inv in E as [-> _]. split.
  - apply keysAscending_insert, HS.
  - apply Forall_forall. intros x Hx.
    apply bolt_elem_of_insert in Hx as [->|Hx]; [reflexivity|].
    rewrite Forall_forall in HK. apply HK, Hx.
Qed.

Lemma wellFormed_streak s s' :
  todoBucket s' = todoBucket s → wellFormed s → wellFormed s'.
Proof. unfold wellFormed. intros ->. auto. Qed.

Lemma updateStreakOnCompletion_todoBucket s now :
  todoBucket (updateStreakOnCompletion s now).1 = todoBucket s.
Proof. unfold updateStreakOnCompletion. apply GetStreak_UpdateStreak. Qed.

Lemma wellFormed_UpdateTodo s todo now nowStreak :
  wellFormed s → wellFormed (UpdateTodo s todo now nowStreak).1.1.
Proof.
  intros HW. unfold UpdateTodo.
  set (todo' := {| ID := ID todo; Title := Title todo;
                   Description := Description todo; Deadline := Deadline todo;
                   Completed := Completed todo; CompletedAt := CompletedAt todo;
                   CreatedAt := CreatedAt todo; UpdatedAt := now |}).
  pose proof (wellFormed_putTodo s todo' HW) as HP.
  destruct (putTodo s todo') as [s1 err]. cbn in HP. cbn.
  destruct (negb (isNil err) && _ && _); cbn; [|exact HP].
  eapply wellFormed_streak; [apply updateStreakOnCompletion_todoBucket | exact HP].
Qed.

Lemma wellFormed_DeleteTodo s id : wellFormed s → wellFormed (DeleteTodo s id).
Proof.
  intros [HS HK]. split; cbn.
  - apply keysAscending_Delete, HS.
  - apply Forall_forall. intros x Hx. apply bolt_elem_of_Delete in Hx.
    rewrite Forall_forall in HK. apply HK, Hx.
Qed.

Lemma wellFormed_storeOf todos : wellFormed (samples.storeOf todos).
Proof.
  unfold samples.storeOf.
  assert (H : wellFormed NewBoltStorage) by (split; constructor).
  revert H. generalize NewBoltStorage.
  induction todos as [|t todos IH]; intros s H; cbn; [exact H|].
  apply IH, wellFormed_putTodo, H.
Qed.





(** X3. After [DeleteTodo] the identifier is not found, whatever was stored
    under it; the other identifiers are as before; deleting an identifier
    that is not stored changes nothing, so deleting twice is deleting
    once. *)
Theorem DeleteTodo_then_GetTodo s id :
  GetTodo (DeleteTodo s id) id = (None, Some TodoNotFound) ∧
  (∀ id', id' ≠ id → GetTodo (DeleteTodo s id) id' = GetTodo s id') ∧
  ((GetTodo s id).1 = None → DeleteTodo s id = s) ∧
  DeleteTodo (DeleteTodo s id) id = DeleteTodo s id ∧
  GetStreak (DeleteTodo s id) = GetStreak s.
Proof.
  unfold GetTodo, DeleteTodo. cbn. rewrite bolt_Get_Delete.
  split; [reflexivity|]. split.
  { intros id' Hne. rewrite bolt_Get_Delete_ne by congruence. reflexivity. }
  split.
  { destruct (bolt.Get (todoBucket s) id) eqn:E; [discriminate|]. intros _.
    rewrite bolt_Delete_absent by exact E. destruct s; reflexivity. }
  split; [|reflexivity].
  rewrite (bolt_Delete_absent (bolt.Delete (todoBucket s) id))
    by apply bolt_Get_Delete.
  reflexivity.
Qed.

(** Deleting A from the store of A and B. *)
Lemma DeleteTodo_then_GetTodo_witness :
  let s := samples.storeOf [samples.taskA; samples.taskB] in
  GetTodo (DeleteTodo s "A") "A" = (None, Some TodoNotFound) ∧
  GetTodo (DeleteTodo s "A") "B" = GetTodo s "B" ∧
  DeleteTodo (DeleteTodo s "A") "C" = DeleteTodo s "A".
Proof.
  intros s.
  destruct (DeleteTodo_then_GetTodo s "A") as (G & O & _).
  split; [exact G|]. split; [apply O; discriminate|].
  destruct (DeleteTodo_then_GetTodo (DeleteTodo s "A") "C") as (_ & _ & N & _).
  apply N. reflexivity.
Defined.

(** X4. [UpdateTodo] under a key that the bucket accepts, of a todo that
    its JSON encoding gives back once stamped (strings in valid UTF-8,
    years 0 to 9999), writes the todo with the reading of the clock as
    [UpdatedAt], whether or not the identifier was stored before; the
    other identifiers and the streak are as before. *)
Theorem UpdateTodo_upserts s todo now nowStreak :
  bolt.validKey (ID todo) →
  json.roundTrips (UpdateTodo s todo now nowStreak).1.2 = true →
  let r := UpdateTodo s todo now nowStreak in
  r.2 = None ∧
  GetTodo r.1.1 (ID todo) = (Some r.1.2, None) ∧
  r.1.2 = {| ID := ID todo; Title := Title todo;
             Description := Description todo; Deadline := Deadline todo;
             Completed := Completed todo; CompletedAt := CompletedAt todo;
             CreatedAt := CreatedAt todo; UpdatedAt := now |} ∧
  (∀ id, id ≠ ID todo → GetTodo r.1.1 id = GetTodo s id) ∧
  GetStreak r.1.1 = GetStreak s.
Proof.
  intros Hk _. unfold UpdateTodo.
  rewrite putTodo_valid by exact Hk. cbn.
  split; [reflexivity|]. unfold GetTodo at 1. cbn. rewrite bolt_Get_insert.
  split; [reflexivity|]. split; [reflexivity|]. split; [|reflexivity].
  intros id Hne. unfold GetTodo. cbn.
  rewrite bolt_Get_insert_ne by congruence. reflexivity.
Qed.

Lemma UpdateTodo_upserts_witness :
  let r := UpdateTodo NewBoltStorage samples.taskA (samples.noon + 5)
                      (samples.noon + 6) in
  r.2 = None ∧ (UpdatedAt <$> (GetTodo r.1.1 "A").1) = Some (samples.noon + 5).
Proof.
  destruct (UpdateTodo_upserts NewBoltStorage samples.taskA (samples.noon + 5)
              (samples.noon + 6)) as (E & G & S & _).
  { split; [discriminate | vm_compute; discriminate]. }
  { vm_compute. reflexivity. }
  cbv zeta. split; [exact E|].
  change (ID samples.taskA) with "A" in G. rewrite G, S. reflexivity.
Defined.

(** X5. Every operation of the package keeps the bucket of todos in
    strictly ascending order of its keys, each key the identifier of its
    record, starting from the empty store; for [SaveTodo] and
    [UpdateTodo], when the todo written is one that its JSON encoding
    gives back (then the identifier stored in the record is the key,
    byte for byte). *)
Theorem wellFormed_preserved (s : BoltStorage) :
  wellFormed s →
  (∀ todo now1 now2,
     json.roundTrips (SaveTodo s todo now1 now2).1.2 = true →
     wellFormed (SaveTodo s todo now1 now2).1.1) ∧
  (∀ todo now nowStreak,
     json.roundTrips (UpdateTodo s todo now nowStreak).1.2 = true →
     wellFormed (UpdateTodo s todo now nowStreak).1.1) ∧
  (∀ id, wellFormed (DeleteTodo s id)) ∧
  (∀ streak, wellFormed (UpdateStreak s streak).1) ∧
  (∀ now, wellFormed (updateStreakOnCompletion s now).1).
Proof.
  intros HW.
  split; [|split; [|split; [|split]]].
  - intros todo now1 now2 _. unfold SaveTodo.
    match goal with |- context [putTodo s ?t] =>
      pose proof (wellFormed_putTodo s t HW) as HP; destruct (putTodo s t) end.
    exact HP.
  - intros. apply wellFormed_UpdateTodo, HW.
  - intros. apply wellFormed_DeleteTodo, HW.
  - intros streak. eapply wellFormed_streak; [|exact HW].
    apply GetStreak_UpdateStreak.
  - intros now. eapply wellFormed_streak; [|exact HW].
    apply updateStreakOnCompletion_todoBucket.
Qed.

(** The empty store has that shape, and so has the store after a todo
    is saved into it, updated and deleted. *)
Lemma wellFormed_preserved_witness :
  wellFormed NewBoltStorage ∧
  wellFormed
    (DeleteTodo
       (UpdateTodo
          (SaveTodo NewBoltStorage samples.taskA samples.noon samples.noon).1.1
          samples.taskB samples.noon samples.noon).1.1 "A").
Proof.
  assert (W0 : wellFormed NewBoltStorage) by (split; constructor).
  split; [exact W0|].
  destruct (wellFormed_preserved NewBoltStorage W0) as (S & _).
  destruct (wellFormed_preserved _
              (S samples.taskA samples.noon samples.noon
                 ltac:(vm_compute; reflexivity))) as (_ & U & _).
  destruct (wellFormed_preserved _
              (U samples.taskB samples.noon samples.noon
                 ltac:(vm_compute; reflexivity))) as (_ & _ & D & _).
  apply D.
Defined.

(** X6. In a store of that shape the listing has every stored todo exactly
    once: no identifier occurs twice, a todo is listed if and only if
    [GetTodo] returns it for its identifier, and the listing is as long as
    the bucket. *)
Theorem GetAllTodos_lists_each_todo_once s :
  wellFormed s →
  NoDup (ID <$> GetAllTodos s) ∧
  (∀ t, t ∈ GetAllTodos s ↔ (GetTodo s (ID t)).1 = Some t) ∧
  length (GetAllTodos s) = length (todoBucket s).
Proof.
  intros [HS HK].
  assert (Perm : GetAllTodos s ≡ₚ snd <$> todoBucket s)
    by apply Slice_Permutation.
  assert (Keys : ID <$> (snd <$> todoBucket s) = fst <$> todoBucket s).
  { clear -HK. induction (todoBucket s) as [|[k t] b IH]; [reflexivity|].
    apply Forall_cons in HK as [Ek HK]. cbn in *. rewrite IH by exact HK.
    congruence. }
  split; [|split].
  - rewrite Perm, Keys. apply keysAscending_NoDup, HS.
  - intros t. rewrite Perm. unfold GetTodo. split.
    + intros ([k t'] & Et & Hin)%list_elem_of_fmap. cbn in Et. subst t'.
      rewrite Forall_forall in HK. pose proof (HK _ Hin) as Ek. cbn in Ek.
      subst k. rewrite (bolt_elem_of_Get _ _ _ HS Hin). reflexivity.
    + destruct (bolt.Get (todoBucket s) (ID t)) as [t'|] eqn:E; [|discriminate].
      cbn. intros [= ->]. apply bolt_Get_elem_of in E.
      apply list_elem_of_fmap. exists (ID t, t). split; [reflexivity | exact E].
  - rewrite Perm, length_fmap. reflexivity.
Qed.

Lemma GetAllTodos_lists_each_todo_once_witness :
  NoDup (ID <$> GetAllTodos
                  (samples.storeOf [samples.taskA; samples.taskB; samples.taskA])) ∧
  length (GetAllTodos
            (samples.storeOf [samples.taskA; samples.taskB; samples.taskA]))
  = 2%nat.
Proof.
  destruct (GetAllTodos_lists_each_todo_once
              (samples.storeOf [samples.taskA; samples.taskB; samples.taskA])
              (wellFormed_storeOf _)) as (N & _ & L).
  split; [exact N | exact L].
Defined.

End Store.

(** ** More on the streak *)

Section StreakMore.
Import time models storage.
Local Open Scope Z_scope.

Lemma dailyTotal_insert (m : gmap string Z) day count :
  dailyTotal (<[day := count]> m) = count - default 0 (m !! day) + dailyTotal m.
Proof.
  unfold dailyTotal. destruct (m !! day) as [old|] eqn:E; cbn.
  - rewrite <- (insert_delete_eq m).
    rewrite map_fold_insert_L
      by first [apply lookup_delete_eq | intros; lia].
    rewrite (map_fold_delete_L _ _ day old m)
      by first [exact E | intros; lia].
    lia.
  - rewrite map_fold_insert_L by first [exact E | intros; lia].
    lia.
Qed.

Lemma dailyTotal_nonneg (m : gmap string Z) :
  map_Forall (λ _ c, 1 <= c) m → 0 <= dailyTotal m.
Proof.
  unfold dailyTotal.
  induction m as [|day c m Hday IH] using map_ind; intros HF.
  - rewrite map_fold_empty. lia.
  - rewrite map_fold_insert_L by first [exact Hday | intros; lia].
    apply map_Forall_insert in HF as [Hc HF]; [|exact Hday].
    specialize (IH HF). lia.
Qed.

Lemma dailyTotal_bound (m : gmap string Z) day :
  map_Forall (λ _ c, 1 <= c) m → 0 <= default 0 (m !! day) <= dailyTotal m.
Proof.
  intros HF. destruct (m !! day) as [c|] eqn:E; cbn.
  - pose proof (HF _ _ E) as Hc. cbn in Hc.
    pose proof (dailyTotal_nonneg (delete day m)) as Hd.
    assert (Hm : m = <[day := c]> (delete day m)).
    { rewrite insert_delete_eq. symmetry. apply insert_id, E. }
    assert (Es : dailyTotal m = c + dailyTotal (delete day m)).
    { rewrite Hm at 1. rewrite dailyTotal_insert, lookup_delete_eq. cbn. lia. }
    assert (map_Forall (λ _ c, 1 <= c) (delete day m))
      by (apply map_Forall_delete, HF).
    specialize (Hd H). lia.
  - split; [lia | apply dailyTotal_nonneg, HF].
Qed.

Lemma daily_inv_step nows st now :
  Z.of_nat (length nows) < GoInt.maxInt64 →
  daily_inv nows st → daily_inv (nows ++ [now]) (recordCompletion st now).
Proof.
  intros Hlen (HT & m & Em & HF & Hsum & Hcount).
  assert (Hb := dailyTotal_bound m (FormatDay now) HF).
  assert (Ei : GoInt.incr (default 0 (m !! FormatDay now))
               = default 0 (m !! FormatDay now) + 1).
  { apply incr_in_range. unfold GoInt.minInt64. lia. }
  assert (ET : GoInt.incr (TotalCompleted st) = Z.of_nat (length nows) + 1).
  { rewrite incr_in_range; rewrite HT; [reflexivity|].
    unfold GoInt.minInt64. lia. }
  assert (EL : Z.of_nat (length (nows ++ [now])) = Z.of_nat (length nows) + 1).
  { rewrite length_app. cbn. lia. }
  split.
  { unfold recordCompletion.
    destruct (negb _); [destruct (_ =? 0); [|destruct (_ =? 1)]|]; cbn; lia. }
  exists (<[FormatDay now := default 0 (m !! FormatDay now) + 1]> m).
  split; [|split; [|split]].
  - unfold recordCompletion. rewrite Em.
    destruct (negb _); [destruct (_ =? 0); [|destruct (_ =? 1)]|];
      exact (f_equal (λ v, Some (<[FormatDay now := v]> m)) Ei).
  - apply map_Forall_insert_2; [lia | exact HF].
  - rewrite dailyTotal_insert. lia.
  - intros day. rewrite filter_app, length_app.
    destruct (decide (FormatDay now = day)) as [<-|Hne].
    + rewrite lookup_insert_eq. cbn [default].
      rewrite Hcount, filter_cons_True, filter_nil by reflexivity. cbn. lia.
    + rewrite lookup_insert_ne by exact Hne.
      rewrite Hcount, filter_cons_False, filter_nil by exact Hne. cbn. lia.
Qed.

Lemma daily_inv_reachable nows :
  Z.of_nat (length nows) <= GoInt.maxInt64 →
  daily_inv nows (GetStreak (afterCompletions nows)).
Proof.
  induction nows as [|now nows IH] using rev_ind; intros Hlen.
  - split; [reflexivity|]. exists ∅. split; [reflexivity|].
    split; [apply map_Forall_empty|]. split; [reflexivity|].
    intros day. rewrite lookup_empty. reflexivity.
  - rewrite afterCompletions_snoc, GetStreak_updateStreakOnCompletion.
    rewrite length_app in Hlen. cbn in Hlen.
    apply daily_inv_step; [lia|]. apply IH. lia.
Qed.

Lemma recordCompletion_MaxStreak st now :
  MaxStreak st <= MaxStreak (recordCompletion st now).
Proof.
  unfold recordCompletion.
  destruct (negb _); [destruct (_ =? 0); [|destruct (_ =? 1)]|];
    cbn [MaxStreak]; try lia.
  - destruct (Z.ltb_spec (MaxStreak st) (GoInt.incr (CurrentStreak st))); lia.
  - destruct (Z.eqb_spec (MaxStreak st) 0); lia.
Qed.

(** X7. After any history of completions from the empty store (no longer
    than the range of the counters) the per-day map holds, for every day,
    the number of completions whose local date is that day, and its
    buckets add up to [TotalCompleted]. *)
Theorem daily_completions_count (nows : list Time) :
  Z.of_nat (length nows) <= GoInt.maxInt64 →
  let streak := GetStreak (afterCompletions nows) in
  ∃ daily,
    DailyCompletions streak = Some daily ∧
    dailyTotal daily = TotalCompleted streak ∧
    ∀ day, default 0 (daily !! day)
           = Z.of_nat (length (filter (λ now, FormatDay now = day) nows)).
Proof.
  intros Hlen streak.
  destruct (daily_inv_reachable nows Hlen) as (HT & m & Em & _ & Hsum & Hcount).
  exists m. split; [exact Em|]. split; [|exact Hcount].
  unfold streak. rewrite HT. exact Hsum.
Qed.

(** Completions at [noon], two hours later and twenty hours later: two
    on the 16th, one on the 17th. *)
Lemma daily_completions_count_witness :
  ∃ daily,
    DailyCompletions
      (GetStreak (afterCompletions
                    [samples.noon; samples.noon + 2 * Hour;
                     samples.noon + 20 * Hour])) = Some daily ∧
    dailyTotal daily = 3 ∧
    default 0 (daily !! "2025-11-16") = 2 ∧
    default 0 (daily !! "2025-11-17") = 1 ∧
    default 0 (daily !! "2025-11-18") = 0.
Proof.
  destruct (daily_completions_count
              [samples.noon; samples.noon + 2 * Hour; samples.noon + 20 * Hour]
              ltac:(vm_compute; discriminate)) as (daily & E & S & C).
  exists daily. split; [exact E|]. split; [rewrite S; reflexivity|].
  rewrite !C. repeat split; reflexivity.
Defined.

(** X8. The maximum streak never decreases: it is at least as large
    after any further completions as before them. *)
Theorem MaxStreak_never_decreases (nows more : list Time) :
  MaxStreak (GetStreak (afterCompletions nows))
  <= MaxStreak (GetStreak (afterCompletions (nows ++ more))).
Proof.
  induction more as [|now more IH] using rev_ind.
  - rewrite app_nil_r. lia.
  - rewrite app_assoc, afterCompletions_snoc, GetStreak_updateStreakOnCompletion.
    pose proof (recordCompletion_MaxStreak
                  (GetStreak (afterCompletions (nows ++ more))) now).
    lia.
Qed.

(** X9. The first completion on a store without a saved streak: the
    streak read back is 1, the maximum 1, the total 1, the last
    completion [now], and the per-day map has the one bucket of today
    with 1 in it; the todos are not touched. *)
Theorem first_completion (s : BoltStorage) (now : Time) :
  bolt.Get (streakBucket s) "current" = None →
  let s' := (updateStreakOnCompletion s now).1 in
  GetStreak s'
  = {| CurrentStreak := 1; MaxStreak := 1; LastCompletedAt := now;
       TotalCompleted := 1;
       DailyCompletions := Some {[ FormatDay now := 1 ]} |} ∧
  todoBucket s' = todoBucket s.
Proof.
  intros Hnone s'. unfold s'. rewrite GetStreak_updateStreakOnCompletion.
  split.
  - unfold GetStreak. rewrite Hnone. reflexivity.
  - unfold updateStreakOnCompletion, UpdateStreak. reflexivity.
Qed.

Lemma first_completion_witness :
  GetStreak (updateStreakOnCompletion samples.oneTask samples.noon).1
  = {| CurrentStreak := 1; MaxStreak := 1; LastCompletedAt := samples.noon;
       TotalCompleted := 1;
       DailyCompletions := Some {[ "2025-11-16" := 1 ]} |} ∧
  todoBucket (updateStreakOnCompletion samples.oneTask samples.noon).1
  = todoBucket samples.oneTask.
Proof.
  exact (first_completion samples.oneTask samples.noon eq_refl).
Defined.
End StreakMore.

(** ** Overdue tasks *)

Section Overdue.
Import time models.
Local Open Scope Z_scope.

Lemma daysOf_nonneg d : 0 <= d → 0 <= daysOf d.
Proof.
  intros Hd. destruct (quot_rem_nonneg d Hd) as [Eq Er].
  pose proof (Z.mod_pos_bound d Hour eq_refl) as B1.
  assert (0 <= d / Hour) by (apply Z.div_pos; [exact Hd | reflexivity]).
  assert (L : Float64.to_int (Float64.div (hoursOf 0 0) (inject_Z 24)) <= daysOf d).
  { unfold daysOf, Hours. apply days_parts_mono; rewrite ?Eq, ?Er; lia. }
  replace (Float64.to_int (Float64.div (hoursOf 0 0) (inject_Z 24))) with 0 in L
    by (vm_compute; reflexivity).
  exact L.
Qed.

Lemma daysOf_nonpos d : d <= 0 → daysOf d <= 0.
Proof.
  intros Hd. destruct (quot_rem_nonpos d Hd) as [Eq Er].
  pose proof (Z.mod_pos_bound (- d) Hour eq_refl) as B1.
  assert (0 <= - d / Hour) by (apply Z.div_pos; [lia | reflexivity]).
  assert (L : daysOf d <= Float64.to_int (Float64.div (hoursOf 0 0) (inject_Z 24))).
  { unfold daysOf, Hours. apply days_parts_mono; rewrite ?Eq, ?Er; lia. }
  replace (Float64.to_int (Float64.div (hoursOf 0 0) (inject_Z 24))) with 0 in L
    by (vm_compute; reflexivity).
  exact L.
Qed.

Lemma Sub_sign t u :
  (t <= u → Sub t u <= 0) ∧ (u <= t → 0 <= Sub t u).
Proof.
  unfold Sub, minDuration, maxDuration, GoInt.minInt64, GoInt.maxInt64.
  destruct (Z.ltb_spec (t - u) (- 2 ^ 63)); [lia|].
  destruct (Z.ltb_spec (2 ^ 63 - 1) (t - u)); lia.
Qed.

(** X10. For an open task with a deadline, at one instant: if the task
    is overdue its count of days is zero or negative, and if it is not
    overdue the count is zero or positive, whatever the distance (the
    difference saturates and the division is done in floating point).
    A negative count thus always means overdue. *)
Theorem overdue_days_sign (t : Todo) (deadline now : Time) :
  Deadline t = Some deadline → Completed t = false →
  (IsOverdue t now = true → DaysUntilDeadline t now <= 0) ∧
  (IsOverdue t now = false → 0 <= DaysUntilDeadline t now) ∧
  (DaysUntilDeadline t now < 0 → IsOverdue t now = true).
Proof.
  intros Hd Hc. unfold IsOverdue, DaysUntilDeadline, Until, Before.
  rewrite Hd, Hc. destruct (Sub_sign deadline now) as [Sn Sp].
  destruct (Z.ltb_spec deadline now) as [Hlt|Hge].
  - split; [|split]; try discriminate; try reflexivity.
    intros _. apply daysOf_nonpos, Sn. lia.
  - pose proof (daysOf_nonneg _ (Sp Hge)).
    split; [discriminate|]. split; [intros _; assumption | lia].
Qed.

(** A task that is 30 hours overdue, and one that is due in 30 hours. *)
Lemma overdue_days_sign_witness :
  DaysUntilDeadline
    (samples.task "late" (Some (samples.noon - 30 * Hour)) false samples.noon)
    samples.noon <= 0 ∧
  0 <= DaysUntilDeadline
    (samples.task "soon" (Some (samples.noon + 30 * Hour)) false samples.noon)
    samples.noon.
Proof.
  split.
  - destruct (overdue_days_sign
                (samples.task "late" (Some (samples.noon - 30 * Hour)) false
                   samples.noon) _ samples.noon eq_refl eq_refl) as (L & _ & _).
    apply L. reflexivity.
  - destruct (overdue_days_sign
                (samples.task "soon" (Some (samples.noon + 30 * Hour)) false
                   samples.noon) _ samples.noon eq_refl eq_refl) as (_ & P & _).
    apply P. reflexivity.
Defined.

(** X11. A task that has been marked complete is never overdue and
    keeps its deadline, hence its count of days; marking it incomplete
    again gives what marking the original incomplete gives, so that the
    time of completion is forgotten and only [UpdatedAt] tells the two
    marks happened. *)
Theorem mark_complete_then_incomplete (t : Todo) (now1 now2 now : Time) :
  IsOverdue (MarkComplete t now1) now = false ∧
  DaysUntilDeadline (MarkComplete t now1) now = DaysUntilDeadline t now ∧
  MarkIncomplete (MarkComplete t now1) now2 = MarkIncomplete t now2 ∧
  IsOverdue (MarkIncomplete (MarkComplete t now1) now2) now
  = match Deadline t with Some deadline => Before deadline now | None => false end.
Proof.
  unfold IsOverdue, DaysUntilDeadline, MarkComplete, MarkIncomplete. cbn.
  destruct (Deadline t); repeat split; reflexivity.
Qed.

End Overdue.

(** ** Sequences of unit tokens *)

Section TokenSequences.
Import time timeParse strings strconv regexp utils tokens.
Local Open Scope Z_scope.

Lemma isBlank_cases c : isBlank c = true → c = " "%char ∨ c = "009"%char.
Proof.
  unfold isBlank. intros [H|H]%orb_prop; apply Ascii.eqb_eq in H; auto.
Qed.

Lemma isUnitLetter_cases c :
  isUnitLetter c = true →
  c = "m"%char ∨ c = "h"%char ∨ c = "d"%char ∨ c = "w"%char.
Proof.
  unfold isUnitLetter.
  intros [[[H|H]%orb_prop|H]%orb_prop|H]%orb_prop; apply Ascii.eqb_eq in H; auto.
Qed.

Lemma blank_not_digit c : isBlank c = true → isDigitChar c = false.
Proof. intros [->| ->]%isBlank_cases; reflexivity. Qed.

Lemma blank_lower c : isBlank c = true → toLowerChar c = c.
Proof. intros [->| ->]%isBlank_cases; reflexivity. Qed.

Lemma unit_not_digit c : isUnitLetter c = true → isDigitChar c = false.
Proof. intros [->|[->|[->| ->]]]%isUnitLetter_cases; reflexivity. Qed.

Lemma unit_not_month c : isUnitLetter c = true → isMonthMarker c = false.
Proof. intros [->|[->|[->| ->]]]%isUnitLetter_cases; reflexivity. Qed.

Lemma unit_lower c : isUnitLetter c = true → toLowerChar c = c.
Proof. intros [->|[->|[->| ->]]]%isUnitLetter_cases; reflexivity. Qed.

Lemma unit_not_blank c x :
  isUnitLetter c = true → isBlank x = true → Ascii.eqb c x = false.
Proof.
  intros [->|[->|[->| ->]]]%isUnitLetter_cases [->| ->]%isBlank_cases;
    reflexivity.
Qed.

Lemma findAll_skip isUnit c s :
  isDigitChar c = false → findAll isUnit "" (String c s) = findAll isUnit "" s.
Proof.
  intros H. cbn [findAll isEmpty negb]. rewrite H, andb_false_r. reflexivity.
Qed.

Lemma findAll_blanks isUnit bl s :
  forallChars isBlank bl = true →
  findAll isUnit "" (bl +:+ s) = findAll isUnit "" s.
Proof.
  induction bl as [|c bl IH]; [reflexivity|]. cbn [forallChars].
  intros [Hc Hbl]%andb_prop. rewrite str_app_cons, findAll_skip.
  - apply IH, Hbl.
  - apply blank_not_digit, Hc.
Qed.

Lemma removeAll_skip isUnit c s :
  isDigitChar c = false →
  removeAll isUnit "" (String c s) = String c (removeAll isUnit "" s).
Proof.
  intros H. cbn [removeAll isEmpty negb]. rewrite H, andb_false_r. reflexivity.
Qed.

Lemma removeAll_blanks isUnit bl s :
  forallChars isBlank bl = true →
  removeAll isUnit "" (bl +:+ s) = bl +:+ removeAll isUnit "" s.
Proof.
  induction bl as [|c bl IH]; [reflexivity|]. cbn [forallChars].
  intros [Hc Hbl]%andb_prop. rewrite !str_app_cons, removeAll_skip.
  - rewrite IH by exact Hbl. reflexivity.
  - apply blank_not_digit, Hc.
Qed.

Lemma tokenText_app t rest :
  tokenText t +:+ rest
  = blanks t +:+ (pretty (count t) +:+ String (unit t) rest).
Proof. unfold tokenText. rewrite !str_app_assoc. reflexivity. Qed.

Lemma findAll_token isUnit t rest :
  validToken t →
  findAll isUnit "" (tokenText t +:+ rest)
  = if isUnit (unit t) then matchOf t :: findAll isUnit "" rest
    else findAll isUnit "" rest.
Proof.
  intros (Hb & Hc & Hu).
  destruct (pretty_pos_digits (count t)) as (Hd & Hne & _); [lia|].
  rewrite tokenText_app, findAll_blanks, findAll_digits, str_app_nil_l
    by assumption.
  cbn [findAll]. rewrite (unit_not_digit _ Hu), (isEmpty_false _ Hne).
  cbn [negb]. rewrite andb_true_r. reflexivity.
Qed.

Lemma removeAll_token t rest :
  validToken t →
  removeAll isMonthMarker "" (tokenText t +:+ rest)
  = tokenText t +:+ removeAll isMonthMarker "" rest.
Proof.
  intros (Hb & Hc & Hu).
  destruct (pretty_pos_digits (count t)) as (Hd & Hne & _); [lia|].
  rewrite !tokenText_app, removeAll_blanks, removeAll_digits, str_app_nil_l
    by assumption.
  cbn [removeAll]. rewrite (unit_not_digit _ Hu), (unit_not_month _ Hu).
  reflexivity.
Qed.

Lemma findAll_trailing isUnit trailing :
  forallChars isBlank trailing = true → findAll isUnit "" trailing = [].
Proof.
  intros H. rewrite <- (str_app_nil_r trailing), findAll_blanks by exact H.
  reflexivity.
Qed.

Lemma removeAll_trailing isUnit trailing :
  forallChars isBlank trailing = true → removeAll isUnit "" trailing = trailing.
Proof.
  intros H. rewrite <- (str_app_nil_r trailing) at 1.
  rewrite removeAll_blanks by exact H. apply str_app_nil_r.
Qed.

Lemma monthRegex_FindAll_text ts trailing :
  Forall validToken ts → forallChars isBlank trailing = true →
  monthRegex_FindAll (text ts trailing) = [].
Proof.
  intros Hts Htr. unfold monthRegex_FindAll.
  induction Hts as [|t ts Ht Hts IH]; cbn [text fold_right].
  - apply findAll_trailing, Htr.
  - rewrite findAll_token by exact Ht.
    destruct Ht as (_ & _ & Hu). rewrite (unit_not_month _ Hu). exact IH.
Qed.

Lemma monthRegex_ReplaceAll_text ts trailing :
  Forall validToken ts → forallChars isBlank trailing = true →
  monthRegex_ReplaceAll (text ts trailing) = text ts trailing.
Proof.
  intros Hts Htr. unfold monthRegex_ReplaceAll.
  induction Hts as [|t ts Ht Hts IH]; cbn [text fold_right].
  - apply removeAll_trailing, Htr.
  - rewrite removeAll_token by exact Ht. f_equal. exact IH.
Qed.

Lemma unitRegex_FindAll_text ts trailing :
  Forall validToken ts → forallChars isBlank trailing = true →
  unitRegex_FindAll (text ts trailing) = map matchOf ts.
Proof.
  intros Hts Htr. unfold unitRegex_FindAll.
  induction Hts as [|t ts Ht Hts IH]; cbn [text fold_right map].
  - apply findAll_trailing, Htr.
  - rewrite findAll_token by exact Ht.
    destruct Ht as (_ & _ & Hu). rewrite Hu. f_equal. exact IH.
Qed.

Lemma ToLower_blanks bl : forallChars isBlank bl = true → ToLower bl = bl.
Proof.
  induction bl as [|c bl IH]; [reflexivity|]. cbn.
  intros [Hc Hbl]%andb_prop. rewrite blank_lower, IH; auto.
Qed.

Lemma ToLower_text ts trailing :
  Forall validToken ts → forallChars isBlank trailing = true →
  ToLower (text ts trailing) = text ts trailing.
Proof.
  intros Hts Htr.
  induction Hts as [|t ts Ht Hts IH]; cbn [text fold_right].
  - apply ToLower_blanks, Htr.
  - destruct Ht as (Hb & Hc & Hu).
    destruct (pretty_pos_digits (count t)) as (Hd & _ & _); [lia|].
    rewrite tokenText_app, !ToLower_app, ToLower_blanks, ToLower_digits
      by assumption.
    cbn [ToLower]. rewrite (unit_lower _ Hu). fold (text ts trailing).
    rewrite IH. reflexivity.
Qed.

(** The text without its blanks: the matches one after the other. *)
Lemma RemoveAll_blanks bl :
  forallChars isBlank bl = true → RemoveAll "009" (RemoveAll " " bl) = "".
Proof.
  induction bl as [|c bl IH]; [reflexivity|]. cbn [forallChars].
  intros [Hc Hbl]%andb_prop.
  destruct (isBlank_cases c Hc) as [-> | ->]; cbn; exact (IH Hbl).
Qed.

Lemma strip_text ts trailing :
  Forall validToken ts → forallChars isBlank trailing = true →
  RemoveAll "009" (RemoveAll " " (text ts trailing))
  = fold_right (λ t rest, whole (matchOf t) +:+ rest) "" ts.
Proof.
  intros Hts Htr.
  induction Hts as [|t ts Ht Hts IH]; cbn [text fold_right].
  - apply RemoveAll_blanks, Htr.
  - destruct Ht as (Hb & Hc & Hu).
    destruct (pretty_pos_digits (count t)) as (Hd & _ & _); [lia|].
    rewrite tokenText_app. fold (text ts trailing).
    rewrite (RemoveAll_app " "), (RemoveAll_app "009"), RemoveAll_blanks,
      str_app_nil_l by exact Hb.
    rewrite (RemoveAll_app " "), (RemoveAll_app "009").
    rewrite (RemoveAll_digits " "), (RemoveAll_digits "009")
      by (reflexivity || exact Hd).
    cbn [RemoveAll]. rewrite (unit_not_blank _ " " Hu eq_refl).
    cbn [RemoveAll]. rewrite (unit_not_blank _ "009" Hu eq_refl).
    rewrite IH. unfold whole, matchOf. cbn [fst].
    rewrite str_app_assoc. reflexivity.
Qed.

Lemma reconstruct_text ts acc :
  fold_left (λ acc m, acc +:+ whole m) (map matchOf ts) acc
  = acc +:+ fold_right (λ t rest, whole (matchOf t) +:+ rest) "" ts.
Proof.
  revert acc. induction ts as [|t ts IH]; intros acc; cbn [map fold_left fold_right].
  - rewrite str_app_nil_r. reflexivity.
  - rewrite IH, str_app_assoc. reflexivity.
Qed.

Lemma parseTimeUnit_token t :
  isUnitLetter (unit t) = true →
  parseTimeUnit (count t) (String (unit t) "") = Ok (tokenDuration t).
Proof.
  intros Hu. unfold tokenDuration.
  destruct (isUnitLetter_cases _ Hu) as [->|[->|[->| ->]]]; reflexivity.
Qed.

Lemma sumUnits_tokens ts acc :
  Forall validToken ts →
  sumUnits (map matchOf ts) acc
  = Ok (fold_left (λ acc t, GoInt.add acc (tokenDuration t)) ts acc).
Proof.
  intros Hts. revert acc.
  induction Hts as [|t ts Ht Hts IH]; intros acc; [reflexivity|].
  destruct Ht as (Hb & Hc & Hu).
  cbn [map sumUnits fold_left]. unfold group1, group2, matchOf. cbn [fst snd].
  rewrite Atoi_pretty by exact Hc.
  destruct (Z.leb_spec (count t) 0); [lia|].
  rewrite parseTimeUnit_token by exact Hu. apply IH.
Qed.

(** What [parseRelativeTime] makes of a sequence of tokens, in the
    operations of the code. *)
Lemma parse_tokens ts trailing now :
  ts ≠ [] → Forall validToken ts → forallChars isBlank trailing = true →
  parseRelativeTime (text ts trailing) now
  = if totalDuration ts <=? 0 then Err NonPositiveTotal
    else Ok (totalDuration ts).
Proof.
  intros Hne Hts Htr. unfold parseRelativeTime.
  rewrite monthRegex_FindAll_text, monthRegex_ReplaceAll_text by assumption.
  cbn [sumMonths]. rewrite ToLower_text, unitRegex_FindAll_text by assumption.
  rewrite length_map.
  destruct ts as [|t ts]; [congruence|]. cbn [length Nat.eqb andb].
  unfold reconstruct, stripInput. cbn [fold_left].
  rewrite !ToLower_length, strip_text, reconstruct_text by assumption.
  change (Repeat "M" (Z.to_nat 0)) with "".
  rewrite str_app_nil_l, str_app_nil_r, Nat.eqb_refl. cbn [negb].
  rewrite sumUnits_tokens by assumption.
  change (0 <? 0) with false. cbv iota. fold (totalDuration (t :: ts)).
  change (0 =? 0) with true. rewrite andb_true_r. reflexivity.
Qed.

(** *** Wrap-around is a reduction modulo [2 ^ 64] *)

Lemma wrap64_shift z k : GoInt.wrap64 (z + k * 2 ^ 64) = GoInt.wrap64 z.
Proof.
  unfold GoInt.wrap64.
  replace (z + k * 2 ^ 64 + 2 ^ 63) with (z + 2 ^ 63 + k * 2 ^ 64) by lia.
  rewrite Z_mod_plus_full. reflexivity.
Qed.

Lemma wrap64_eq z : ∃ k, GoInt.wrap64 z = z + k * 2 ^ 64.
Proof.
  exists (- ((z + 2 ^ 63) / 2 ^ 64)). unfold GoInt.wrap64.
  rewrite Z.mod_eq by discriminate. lia.
Qed.

Lemma wrap64_add a b :
  GoInt.wrap64 (GoInt.wrap64 a + GoInt.wrap64 b) = GoInt.wrap64 (a + b).
Proof.
  destruct (wrap64_eq a) as [k ->], (wrap64_eq b) as [l ->].
  replace (a + k * 2 ^ 64 + (b + l * 2 ^ 64)) with (a + b + (k + l) * 2 ^ 64)
    by lia.
  apply wrap64_shift.
Qed.

Lemma wrap64_mul_l a b : GoInt.wrap64 (GoInt.wrap64 a * b) = GoInt.wrap64 (a * b).
Proof.
  destruct (wrap64_eq a) as [k ->].
  replace ((a + k * 2 ^ 64) * b) with (a * b + (k * b) * 2 ^ 64) by lia.
  apply wrap64_shift.
Qed.

Lemma tokenDuration_wrap t :
  isUnitLetter (unit t) = true →
  tokenDuration t = GoInt.wrap64 (count t * unitNanos (unit t)).
Proof.
  intros Hu. unfold tokenDuration.
  destruct (isUnitLetter_cases _ Hu) as [->|[->|[->| ->]]];
    cbn [parseTimeUnit String.eqb Ascii.eqb Bool.eqb]; unfold unitNanos;
    cbn [Ascii.eqb Bool.eqb]; unfold GoInt.mul.
  - reflexivity.
  - reflexivity.
  - rewrite wrap64_mul_l. f_equal. lia.
  - rewrite wrap64_mul_l, <- Z.mul_assoc, wrap64_mul_l. f_equal. lia.
Qed.

Lemma fold_add_wrap ts a :
  Forall validToken ts →
  fold_left (λ acc t, GoInt.add acc (tokenDuration t)) ts (GoInt.wrap64 a)
  = GoInt.wrap64 (a + exactDuration ts).
Proof.
  intros Hts. revert a.
  induction Hts as [|t ts Ht Hts IH]; intros a; cbn [fold_left exactDuration fold_right].
  - rewrite Z.add_0_r. reflexivity.
  - destruct Ht as (_ & _ & Hu). rewrite tokenDuration_wrap by exact Hu.
    unfold GoInt.add at 2. rewrite wrap64_add, IH. f_equal.
    fold (exactDuration ts). lia.
Qed.

Lemma totalDuration_wrap ts :
  Forall validToken ts → totalDuration ts = GoInt.wrap64 (exactDuration ts).
Proof.
  intros Hts. unfold totalDuration.
  change 0 with (GoInt.wrap64 0) at 1. rewrite fold_add_wrap by exact Hts.
  reflexivity.
Qed.

Lemma unitNanos_pos u : isUnitLetter u = true → 0 < unitNanos u.
Proof. intros [->|[->|[->| ->]]]%isUnitLetter_cases; reflexivity. Qed.

Lemma exactDuration_pos ts :
  ts ≠ [] → Forall validToken ts → 0 < exactDuration ts.
Proof.
  intros Hne Hts.
  assert (G : 0 <= exactDuration ts ∧ (ts ≠ [] → 0 < exactDuration ts)).
  { clear Hne. induction Hts as [|t ts Ht Hts IH]; [split; [reflexivity|congruence]|].
    destruct Ht as (_ & Hc & Hu). pose proof (unitNanos_pos _ Hu).
    cbn [exactDuration fold_right]. fold (exactDuration ts).
    assert (0 < count t * unitNanos (unit t)) by nia. lia. }
  apply G, Hne.
Qed.

(** X12. A text made of one or more tokens, each a positive count in
    decimal followed by one of [m], [h], [d], [w], with blanks before,
    between and after them at will, parses to the sum of the durations of
    its tokens reduced to 64 bits, and is rejected when that is not
    positive; when the sum fits the range of a duration the text is
    accepted with exactly that sum. *)
Theorem parseRelativeTime_tokens (ts : list token) (trailing : string)
    (now : Time) :
  ts ≠ [] → Forall validToken ts → forallChars isBlank trailing = true →
  let total := GoInt.wrap64 (exactDuration ts) in
  parseRelativeTime (text ts trailing) now
  = (if total <=? 0 then Err NonPositiveTotal else Ok total) ∧
  (exactDuration ts <= GoInt.maxInt64 →
   parseRelativeTime (text ts trailing) now = Ok (exactDuration ts)).
Proof.
  intros Hne Hts Htr total.
  assert (E : parseRelativeTime (text ts trailing) now
              = if total <=? 0 then Err NonPositiveTotal else Ok total).
  { rewrite parse_tokens, totalDuration_wrap by assumption. reflexivity. }
  split; [exact E|]. intros Hfit. rewrite E. unfold total.
  pose proof (exactDuration_pos ts Hne Hts).
  rewrite wrap64_small by (unfold GoInt.minInt64; lia).
  destruct (Z.leb_spec (exactDuration ts) 0); [lia | reflexivity].
Qed.


(** ["2d 3h"]: two days and three hours. *)
Lemma parseRelativeTime_tokens_witness :
  parseRelativeTime "2d 3h" samples.noon = Ok (2 * (24 * Hour) + 3 * Hour).
Proof.
  pose (ts := [ {| blanks := ""; count := 2; unit := "d" |};
                {| blanks := " "; count := 3; unit := "h" |} ]).
  assert (V : Forall validToken ts).
  { repeat constructor; try reflexivity; vm_compute; discriminate. }
  destruct (parseRelativeTime_tokens ts "" samples.noon
              ltac:(discriminate) V eq_refl) as [_ E].
  exact (E ltac:(vm_compute; discriminate)).
Defined.

Lemma parse_blanks trailing now :
  forallChars isBlank trailing = true →
  parseRelativeTime trailing now = Err NoValidUnits.
Proof.
  intros Htr.
  unfold parseRelativeTime, monthRegex_FindAll, monthRegex_ReplaceAll.
  rewrite findAll_trailing, removeAll_trailing by exact Htr.
  cbn [sumMonths].
  rewrite ToLower_blanks by exact Htr. unfold unitRegex_FindAll.
  rewrite findAll_trailing by exact Htr. reflexivity.
Qed.

Lemma exactDuration_units ts :
  exactDuration ts
  = fold_right (λ (cu : Z * ascii) acc, cu.1 * unitNanos cu.2 + acc) 0
               (map (λ t, (count t, unit t)) ts).
Proof.
  unfold exactDuration. induction ts as [|t ts IH]; [reflexivity|].
  cbn [map fold_right fst snd]. rewrite IH. reflexivity.
Qed.

Lemma exactDuration_same_units ts ts' :
  map (λ t, (count t, unit t)) ts ≡ₚ map (λ t, (count t, unit t)) ts' →
  exactDuration ts = exactDuration ts'.
Proof.
  rewrite !exactDuration_units.
  generalize (map (λ t, (count t, unit t)) ts)
             (map (λ t, (count t, unit t)) ts').
  induction 1 as [|cu l l' _ IH|cu cu' l|l l' l'' _ IH1 _ IH2];
    cbn [fold_right]; lia.
Qed.

(** X13. Neither the order of the tokens matters nor where the blanks
    are: two texts with the same counts and units, in any order and with
    any blanks (none, spaces, tabs) before, between and behind them,
    parse alike, overflow included. *)
Theorem parseRelativeTime_any_order (ts ts' : list token)
    (trailing trailing' : string) (now : Time) :
  Forall validToken ts → Forall validToken ts' →
  map (λ t, (count t, unit t)) ts ≡ₚ map (λ t, (count t, unit t)) ts' →
  forallChars isBlank trailing = true → forallChars isBlank trailing' = true →
  parseRelativeTime (text ts trailing) now
  = parseRelativeTime (text ts' trailing') now.
Proof.
  intros Hts Hts' Hp Htr Htr'.
  destruct ts as [|t ts0] eqn:Ets.
  - apply Permutation_nil_l in Hp.
    destruct ts' as [|t' ts']; [|discriminate Hp]. cbn [text fold_right].
    rewrite !parse_blanks by assumption. reflexivity.
  - assert (ts' ≠ []).
    { intros ->. apply Permutation_nil_r in Hp. discriminate. }
    rewrite !parse_tokens, !totalDuration_wrap by (assumption || discriminate).
    rewrite (exactDuration_same_units _ _ Hp). reflexivity.
Qed.

(** ["2d 3h"], ["3h 2d"] and ["3h2d"], and the second with tabs around
    it. *)
Lemma parseRelativeTime_any_order_witness :
  parseRelativeTime "2d 3h" samples.noon
  = parseRelativeTime "3h 2d" samples.noon ∧
  parseRelativeTime "2d 3h" samples.noon
  = parseRelativeTime "3h2d" samples.noon ∧
  parseRelativeTime "2d 3h" samples.noon
  = parseRelativeTime (String "009" "3h  2d" +:+ String "009" "")
                      samples.noon.
Proof.
  pose (tok := λ bl n u, {| blanks := bl; count := n; unit := u |}).
  pose (a := [tok "" 2 "d"%char; tok " " 3 "h"%char]).
  pose (b1 := [tok "" 3 "h"%char; tok " " 2 "d"%char]).
  pose (b2 := [tok "" 3 "h"%char; tok "" 2 "d"%char]).
  pose (b3 := [tok (String "009" "") 3 "h"%char; tok "  " 2 "d"%char]).
  assert (Va : Forall validToken a)
    by (repeat constructor; try reflexivity; vm_compute; discriminate).
  assert (V1 : Forall validToken b1)
    by (repeat constructor; try reflexivity; vm_compute; discriminate).
  assert (V2 : Forall validToken b2)
    by (repeat constructor; try reflexivity; vm_compute; discriminate).
  assert (V3 : Forall validToken b3)
    by (repeat constructor; try reflexivity; vm_compute; discriminate).
  split; [|split].
  - exact (parseRelativeTime_any_order a b1 "" "" samples.noon Va V1
             (perm_swap _ _ []) eq_refl eq_refl).
  - exact (parseRelativeTime_any_order a b2 "" "" samples.noon Va V2
             (perm_swap _ _ []) eq_refl eq_refl).
  - exact (parseRelativeTime_any_order a b3 "" (String "009" "") samples.noon
             Va V3 (perm_swap _ _ []) eq_refl eq_refl).
Defined.

End TokenSequences.

(** ** Letter case *)

Section LetterCase.
Import time timeParse strings strconv regexp utils.
Local Open Scope Z_scope.

Lemma toLowerChar_idem c : toLowerChar (toLowerChar c) = toLowerChar c.
Proof. destruct c as [[] [] [] [] [] [] [] []]; reflexivity. Qed.

Lemma toLowerChar_not_M c : isMonthMarker (toLowerChar c) = false.
Proof. destruct c as [[] [] [] [] [] [] [] []]; reflexivity. Qed.

Lemma toLowerChar_eqb_blank c x :
  isBlank x = true → Ascii.eqb (toLowerChar c) x = Ascii.eqb c x.
Proof.
  intros [-> | ->]%isBlank_cases;
    destruct c as [[] [] [] [] [] [] [] []]; reflexivity.
Qed.

Lemma ToLower_idem s : ToLower (ToLower s) = ToLower s.
Proof.
  induction s as [|c s IH]; [reflexivity|]. cbn.
  rewrite toLowerChar_idem, IH. reflexivity.
Qed.

Lemma ToLower_noM s :
  forallChars (λ c, negb (isMonthMarker c)) (ToLower s) = true.
Proof.
  induction s as [|c s IH]; [reflexivity|]. cbn.
  rewrite toLowerChar_not_M, IH. reflexivity.
Qed.

Lemma RemoveAll_ToLower x s :
  isBlank x = true → RemoveAll x (ToLower s) = ToLower (RemoveAll x s).
Proof.
  intros Hx. induction s as [|c s IH]; [reflexivity|]. cbn.
  rewrite toLowerChar_eqb_blank, IH by exact Hx.
  destruct (Ascii.eqb c x); reflexivity.
Qed.

Lemma findAll_noM run s :
  forallChars (λ c, negb (isMonthMarker c)) s = true →
  findAll isMonthMarker run s = [].
Proof.
  revert run. induction s as [|c s IH]; intros run; [reflexivity|].
  cbn [forallChars findAll]. intros [Hc Hs]%andb_prop.
  apply negb_true_iff in Hc. rewrite Hc. cbn [andb].
  destruct (isDigitChar c); apply IH, Hs.
Qed.

Lemma removeAll_noM run s :
  forallChars (λ c, negb (isMonthMarker c)) s = true →
  removeAll isMonthMarker run s = run +:+ s.
Proof.
  revert run. induction s as [|c s IH]; intros run.
  - intros _. cbn. rewrite str_app_nil_r. reflexivity.
  - cbn [forallChars removeAll]. intros [Hc Hs]%andb_prop.
    apply negb_true_iff in Hc. rewrite Hc. cbn [andb].
    destruct (isDigitChar c).
    + rewrite IH, str_app_assoc by exact Hs. reflexivity.
    + rewrite IH by exact Hs. reflexivity.
Qed.

(** X14. Apart from the month marker, letter case does not matter: an
    ASCII input without a capital [M] parses as its lower-case form
    does, so that [H], [D] and [W] are the units [h], [d] and [w]. *)
Theorem parseRelativeTime_ignores_case (input : string) (now : Time) :
  isASCII input = true →
  forallChars (λ c, negb (isMonthMarker c)) input = true →
  parseRelativeTime (ToLower input) now = parseRelativeTime input now.
Proof.
  intros _ HM. pose proof (ToLower_noM input) as HL.
  unfold parseRelativeTime, monthRegex_FindAll, monthRegex_ReplaceAll.
  rewrite !findAll_noM, !removeAll_noM, !str_app_nil_l by assumption.
  cbn [sumMonths]. unfold stripInput. cbn [fold_left].
  rewrite !(RemoveAll_ToLower " "), !(RemoveAll_ToLower "009") by reflexivity.
  rewrite !ToLower_idem. reflexivity.
Qed.

(** ["2D 3H"] is two days and three hours. *)
Lemma parseRelativeTime_ignores_case_witness :
  parseRelativeTime "2D 3H" samples.noon = Ok (2 * (24 * Hour) + 3 * Hour).
Proof.
  rewrite <- (parseRelativeTime_ignores_case "2D 3H" samples.noon eq_refl
                eq_refl).
  reflexivity.
Defined.

End LetterCase.

(** ** What [ParseDeadline] returns *)

Section Outcomes.
Import time timeParse strings strconv regexp utils.
Local Open Scope Z_scope.

Lemma findAll_unit_groups run s :
  Forall (λ m, ∃ c, isUnitLetter c = true ∧ group2 m = String c "")
         (findAll isUnitLetter run s).
Proof.
  revert run. induction s as [|c s IH]; intros run; [constructor|].
  cbn [findAll]. destruct (isDigitChar c); [apply IH|].
  destruct (isUnitLetter c) eqn:Hu; cbn [andb]; [|apply IH].
  destruct (negb (isEmpty run)); [|apply IH].
  constructor; [|apply IH]. exists c. split; [exact Hu | reflexivity].
Qed.

Lemma sumMonths_error ms acc e : sumMonths ms acc = Err e → relativeError e.
Proof.
  revert acc. induction ms as [|m ms IH]; intros acc; cbn [sumMonths];
    [discriminate|].
  destruct (Atoi (group1 m)) as [v|]; [|intros [= <-]; exact I].
  destruct (v <=? 0); [intros [= <-]; exact I | apply IH].
Qed.

Lemma sumUnits_error ms acc e :
  Forall (λ m, ∃ c, isUnitLetter c = true ∧ group2 m = String c "") ms →
  sumUnits ms acc = Err e → relativeError e.
Proof.
  intros Hms. revert acc.
  induction Hms as [|m ms (c & Hu & Hg) Hms IH]; intros acc; cbn [sumUnits];
    [discriminate|].
  destruct (Atoi (group1 m)) as [v|]; [|intros [= <-]; exact I].
  destruct (v <=? 0); [intros [= <-]; exact I|].
  rewrite Hg.
  assert (P : ∃ d, parseTimeUnit v (String c "") = Ok d).
  { destruct (isUnitLetter_cases _ Hu) as [->|[->|[->| ->]]];
      eexists; reflexivity. }
  destruct P as [d ->]. apply IH.
Qed.

Lemma parseRelativeTime_error input now e :
  parseRelativeTime input now = Err e → relativeError e.
Proof.
  unfold parseRelativeTime.
  destruct (sumMonths _ 0) as [months|e0] eqn:Em.
  2:{ intros [= <-]. eapply sumMonths_error, Em. }
  destruct (_ && _); [intros [= <-]; exact I|].
  destruct (negb _); [intros [= <-]; exact I|].
  destruct (sumUnits _ 0) as [total|e0] eqn:Eu.
  2:{ intros [= <-]. eapply sumUnits_error; [|exact Eu].
      apply findAll_unit_groups. }
  destruct (_ && _); [intros [= <-]; exact I | discriminate].
Qed.

Lemma parseRelativeTime_positive input now d :
  monthRegex_FindAll input = [] →
  parseRelativeTime input now = Ok d → 0 < d.
Proof.
  intros HM. unfold parseRelativeTime. rewrite HM. cbn [sumMonths].
  destruct (_ && _); [discriminate|].
  destruct (negb _); [discriminate|].
  destruct (sumUnits _ 0) as [total|e0]; [|discriminate].
  change (0 <? 0) with false. cbv iota.
  change (0 =? 0) with true. rewrite andb_true_r.
  destruct (Z.leb_spec total 0); [discriminate|].
  intros [= <-]. assumption.
Qed.

(** X15. On an ASCII input [ParseDeadline] fails in two ways only: with
    the empty-input error, exactly when the input is empty or white
    space, and with the invalid-format error around the error of the
    relative parser; that inner error is never the one of
    [parseTimeUnit] for an unknown unit, whose [default] branch cannot be
    reached. *)
Theorem ParseDeadline_errors (input : string) (nowRel now : Time) (e : error) :
  isASCII input = true →
  ParseDeadline input nowRel now = Err e →
  (e = EmptyInput ∧ TrimSpace input = "") ∨
  (∃ cause,
     e = InvalidFormat cause ∧ TrimSpace input ≠ "" ∧
     parseRelativeTime (TrimSpace input) nowRel = Err cause ∧
     (∀ unit, cause ≠ InvalidUnit unit) ∧ cause ≠ EmptyInput ∧
     ∀ inner, cause ≠ InvalidFormat inner).
Proof.
  intros _. unfold ParseDeadline, ParseDeadlineWith.
  destruct (TrimSpace input) as [|c s] eqn:Et; cbn [isEmpty].
  - intros [= <-]. left. split; reflexivity.
  - destruct (ParseInLocation _); [discriminate|].
    destruct (parseRelativeTime _ nowRel) as [d|cause] eqn:Ep; [discriminate|].
    intros [= <-]. right. exists cause.
    pose proof (parseRelativeTime_error _ _ _ Ep) as R.
    split; [reflexivity|]. split; [discriminate|]. split; [reflexivity|].
    destruct cause; cbn in R; try contradiction;
      (split; [|split]); intros; discriminate.
Qed.

Lemma ParseDeadline_errors_witness :
  ∃ cause,
    InvalidFormat InvalidCharacters = InvalidFormat cause ∧
    TrimSpace " 2d x " ≠ "" ∧
    parseRelativeTime (TrimSpace " 2d x ") samples.noon = Err cause ∧
    (∀ unit, cause ≠ InvalidUnit unit) ∧ cause ≠ EmptyInput ∧
    ∀ inner, cause ≠ InvalidFormat inner.
Proof.
  destruct (ParseDeadline_errors " 2d x " samples.noon samples.noon
              (InvalidFormat InvalidCharacters) eq_refl eq_refl) as [[E _]|H].
  - discriminate E.
  - exact H.
Defined.

(** X16. A deadline that [ParseDeadline] accepts for an ASCII input is
    either the instant the absolute layout denotes, or the clock plus
    the duration the relative parser returns; in the second case, for an
    input without a month token, it lies strictly after the clock. *)
Theorem ParseDeadline_accepts (input : string) (nowRel now deadline : Time) :
  isASCII input = true →
  ParseDeadline input nowRel now = Ok deadline →
  ParseInLocation (TrimSpace input) = Some deadline ∨
  (ParseInLocation (TrimSpace input) = None ∧
   ∃ duration,
     parseRelativeTime (TrimSpace input) nowRel = Ok duration ∧
     deadline = now + duration ∧
     (monthRegex_FindAll (TrimSpace input) = [] → now < deadline)).
Proof.
  intros _. unfold ParseDeadline, ParseDeadlineWith.
  destruct (isEmpty _); [discriminate|].
  destruct (ParseInLocation _) as [t|]; [intros [= <-]; left; reflexivity|].
  destruct (parseRelativeTime _ nowRel) as [d|cause] eqn:Ep; [|discriminate].
  intros [= <-]. right. split; [reflexivity|]. exists d.
  split; [reflexivity|]. split; [reflexivity|].
  intros HM. pose proof (parseRelativeTime_positive _ _ _ HM Ep).
  unfold Add. lia.
Qed.

Lemma ParseDeadline_accepts_witness :
  ∃ duration,
    parseRelativeTime (TrimSpace " 2h 30m") samples.noon = Ok duration ∧
    samples.noon + 2 * Hour + 30 * Minute = samples.noon + duration ∧
    (monthRegex_FindAll (TrimSpace " 2h 30m") = [] →
     samples.noon < samples.noon + 2 * Hour + 30 * Minute).
Proof.
  destruct (ParseDeadline_accepts " 2h 30m" samples.noon samples.noon
              (samples.noon + 2 * Hour + 30 * Minute) eq_refl eq_refl)
    as [E|[_ H]].
  - discriminate E.
  - exact H.
Defined.

Lemma TrimRight_spaces s : allSpaces s = true → TrimRight s = "".
Proof.
  induction s as [|c s IH]; [reflexivity|]. cbn.
  intros [Hc Hs]%andb_prop. rewrite IH, Hc by exact Hs. reflexivity.
Qed.

Lemma TrimLeft_spaces_app pre s :
  allSpaces pre = true → TrimLeft (pre +:+ s) = TrimLeft s.
Proof.
  induction pre as [|c pre IH]; [reflexivity|]. cbn [allSpaces].
  intros [Hc Hpre]%andb_prop. rewrite str_app_cons. cbn [TrimLeft].
  rewrite Hc. apply IH, Hpre.
Qed.

Lemma TrimRight_app_spaces s post :
  allSpaces post = true → TrimRight (s +:+ post) = TrimRight s.
Proof.
  intros Hpost. induction s as [|c s IH].
  - apply TrimRight_spaces, Hpost.
  - rewrite str_app_cons. cbn [TrimRight]. rewrite IH. reflexivity.
Qed.

Lemma TrimSpace_app_spaces s post :
  allSpaces post = true → TrimSpace (s +:+ post) = TrimSpace s.
Proof.
  intros Hpost. unfold TrimSpace. induction s as [|c s IH].
  - rewrite str_app_nil_l. apply TrimSpace_spaces, Hpost.
  - rewrite str_app_cons. cbn [TrimLeft]. destruct (isSpace c); [exact IH|].
    rewrite <- str_app_cons. apply TrimRight_app_spaces, Hpost.
Qed.

(** X17. White space around the input is ignored: an ASCII input
    wrapped in any ASCII white space (tabs, line feeds, vertical tabs,
    form feeds, carriage returns, spaces) is parsed as the input itself,
    accepted or rejected alike. *)
Theorem ParseDeadline_ignores_outer_space (pre input post : string)
    (nowRel now : Time) :
  isASCII input = true →
  allSpaces pre = true → allSpaces post = true →
  ParseDeadline (pre +:+ input +:+ post) nowRel now
  = ParseDeadline input nowRel now.
Proof.
  intros _ Hpre Hpost. unfold ParseDeadline, ParseDeadlineWith.
  assert (E : TrimSpace (pre +:+ input +:+ post) = TrimSpace input).
  { unfold TrimSpace at 1. rewrite TrimLeft_spaces_app by exact Hpre.
    apply TrimSpace_app_spaces, Hpost. }
  rewrite E. reflexivity.
Qed.

Lemma ParseDeadline_ignores_outer_space_witness :
  ParseDeadline (String "009" " 2025-11-16 14:30  ") samples.noon samples.noon
  = ParseDeadline "2025-11-16 14:30" samples.noon samples.noon.
Proof.
  exact (ParseDeadline_ignores_outer_space (String "009" " ")
           "2025-11-16 14:30" "  " samples.noon samples.noon eq_refl eq_refl
           eq_refl).
Defined.

End Outcomes.

(** ** The command line *)

Section CommandLine.
Import time models storage utils cli.
Local Open Scope Z_scope.

Lemma pretty_N_go_length (k : nat) (x : N) (s : string) :
  (x < 10 ^ N.of_nat k)%N →
  (String.length (pretty_N_go x s) <= k + String.length s)%nat.
Proof.
  revert x s. induction k as [|k IH]; intros x s Hx.
  - assert (x = 0%N) as -> by (cbn in Hx; lia).
    rewrite pretty_N_go_0. lia.
  - destruct (N.eq_dec x 0%N) as [->|Hne].
    + rewrite pretty_N_go_0. lia.
    + rewrite pretty_N_go_step by lia.
      etransitivity; [apply IH|cbn [String.length]; lia].
      rewrite Nat2N.inj_succ, N.pow_succ_r' in Hx.
      apply N.Div0.div_lt_upper_bound. exact Hx.
Qed.

Lemma pretty_int64_length z :
  GoInt.minInt64 <= z <= GoInt.maxInt64 →
  (1 <= String.length (pretty z) <= 20)%nat.
Proof.
  intros Hz.
  assert (B : ∀ p, (N.pos p <= 2 ^ 63)%N →
              (1 <= String.length (pretty (N.pos p)) <= 19)%nat).
  { intros p Hp. unfold pretty, pretty_N.
    destruct (decide (N.pos p = 0%N)); [discriminate|]. split.
    - destruct (pretty_N_go_digits (N.pos p)) as (ds & Hgo & _ & _ & Hne).
      rewrite Hgo, str_app_nil_r. specialize (Hne eq_refl).
      destruct ds; [congruence | cbn; lia].
    - pose proof (pretty_N_go_length 19 (N.pos p) "") as L.
      cbn [String.length] in L. rewrite Nat.add_0_r in L. apply L.
      eapply N.le_lt_trans; [exact Hp|]. reflexivity. }
  unfold GoInt.minInt64, GoInt.maxInt64 in Hz.
  destruct z as [|p|p].
  - cbn. lia.
  - change (pretty (Z.pos p)) with (pretty (N.pos p)).
    specialize (B p ltac:(lia)). lia.
  - change (pretty (Z.neg p)) with ("-" +:+ pretty (N.pos p)).
    rewrite str_app_cons, str_app_nil_l. cbn [String.length].
    specialize (B p ltac:(lia)). lia.
Qed.

Lemma generateID_validKey now : bolt.validKey (generateID now).
Proof.
  pose proof (pretty_int64_length _ (wrap64_range now)) as [L U].
  unfold generateID, UnixNano. split.
  - intros E. rewrite E in L. cbn in L. lia.
  - unfold bolt.MaxKeySize. lia.
Qed.


(** X19. Two readings of the clock that differ, both within the range
    of [UnixNano], give different identifiers. *)
Theorem generateID_distinct (now1 now2 : Time) :
  GoInt.minInt64 <= now1 <= GoInt.maxInt64 →
  GoInt.minInt64 <= now2 <= GoInt.maxInt64 →
  now1 ≠ now2 → generateID now1 ≠ generateID now2.
Proof.
  intros H1 H2 Hne E. unfold generateID, UnixNano in E.
  apply pretty_Z_inj in E. rewrite !wrap64_small in E by assumption.
  contradiction.
Qed.

Lemma generateID_distinct_witness :
  generateID samples.noon ≠ generateID (samples.noon + 1).
Proof.
  apply generateID_distinct; vm_compute; (split; discriminate) || discriminate.
Defined.

(** X20. When [main] reports that the todo was created, for an ASCII
    deadline argument and a todo that its JSON encoding gives back
    (title and description in valid UTF-8, years 0 to 9999), the title
    and the description are the arguments, neither empty nor over their
    limits, the todo is open, stamped by [SaveTodo], and is what the
    store returns for its identifier; its deadline is absent exactly
    when the deadline argument is empty, and otherwise what
    [ParseDeadline] returns for it. *)
Theorem main_created (store store' : BoltStorage)
    (title description deadline : string) (listMode showHelp : bool)
    (clock : Clock) (todo : Todo) :
  main store title description deadline listMode showHelp clock
  = (store', Created todo) →
  strings.isASCII deadline = true →
  json.roundTrips todo = true →
  listMode = false ∧ showHelp = false ∧
  Title todo = title ∧ Description todo = description ∧
  (0 < Z.of_nat (String.length title) <= MaxTitleLength) ∧
  (0 < Z.of_nat (String.length description) <= MaxDescriptionLength) ∧
  ID todo = generateID (nowID clock) ∧
  Completed todo = false ∧ CompletedAt todo = None ∧
  CreatedAt todo = nowSaveCreated clock ∧
  UpdatedAt todo = nowSaveUpdated clock ∧
  (if regexp.isEmpty deadline then Deadline todo = None
   else ∃ t, Deadline todo = Some t ∧
             ParseDeadline deadline (nowRelative clock) (nowDeadline clock)
             = Ok t) ∧
  GetTodo store' (ID todo) = (Some todo, None) ∧
  (∀ id, id ≠ ID todo → GetTodo store' id = GetTodo store id) ∧
  GetStreak store' = GetStreak store.
Proof.
  unfold main.
  destruct showHelp; [discriminate|]. destruct listMode; [discriminate|].
  destruct title as [|tc title']; [destruct description; discriminate|].
  destruct description as [|dc description']; [discriminate|].
  cbn [regexp.isEmpty andb orb].
  destruct (Z.ltb_spec MaxTitleLength (Z.of_nat (String.length (String tc title'))));
    [discriminate|].
  destruct (Z.ltb_spec MaxDescriptionLength
              (Z.of_nat (String.length (String dc description'))));
    [discriminate|].
  set (parsed := if regexp.isEmpty deadline then _ else _).
  assert (P : match parsed with
              | Ok d =>
                  if regexp.isEmpty deadline then d = None
                  else ∃ t, d = Some t ∧
                            ParseDeadline deadline (nowRelative clock)
                              (nowDeadline clock) = Ok t
              | Err _ => True
              end).
  { unfold parsed. destruct (regexp.isEmpty deadline); [reflexivity|].
    destruct (ParseDeadline _ _ _) as [t|e]; [|exact I].
    exists t. split; reflexivity. }
  destruct parsed as [d|e]; [|discriminate].
  unfold SaveTodo. rewrite putTodo_valid by apply generateID_validKey.
  intros [= <- <-] _ _. cbn [ID Title Description Deadline Completed CompletedAt
                          CreatedAt UpdatedAt].
  repeat (split; [first [reflexivity | cbn [String.length] in *; lia | exact P]|]).
  unfold GetTodo, GetStreak. cbn [todoBucket streakBucket].
  rewrite bolt_Get_insert. split; [reflexivity|]. split; [|reflexivity].
  intros id Hid. rewrite bolt_Get_insert_ne by congruence. reflexivity.
Qed.


(** The example of the help text: [-t "Meeting" -d "Team sync"
    -n "2025-11-20 14:00"] on the empty store. *)
Lemma main_created_witness :
  let clock := {| nowRelative := samples.noon; nowDeadline := samples.noon;
                  nowID := samples.noon; nowCreated := samples.noon;
                  nowSaveCreated := samples.noon + 1;
                  nowSaveUpdated := samples.noon + 2 |} in
  let r := main NewBoltStorage "Meeting" "Team sync" "2025-11-20 14:00"
                false false clock in
  ∃ todo,
    r.2 = Created todo ∧ Title todo = "Meeting" ∧
    Deadline todo = Some (Date 2025 11 20 14 0 0 0) ∧
    CreatedAt todo = samples.noon + 1 ∧
    GetTodo r.1 (ID todo) = (Some todo, None).
Proof.
  intros clock r.
  pose (todo := match r.2 with Created todo => todo | _ => samples.taskA end).
  assert (E : r = (r.1, Created todo)) by reflexivity.
  exists todo.
  destruct (main_created _ _ _ _ _ _ _ _ _ E eq_refl
              ltac:(vm_compute; reflexivity))
    as (_ & _ & T & _ & _ & _ & _ & _ & _ & C & _ & D & G & _).
  split; [rewrite E; reflexivity|]. split; [exact T|].
  split; [|split; [exact C | exact G]].
  destruct D as (t & -> & P). vm_compute in P. injection P as <-. reflexivity.
Defined.

End CommandLine.

(** ** The list view *)

Section ListView.
Import time models storage ui.
Local Open Scope Z_scope.

(** Every todo is in exactly one of the three sections. *)
Lemma todos_three_sections todos :
  todos ≡ₚ List.filter isUpcoming todos ++ GetTodosWithoutDeadline todos ++
           List.filter Completed todos.
Proof.
  unfold GetTodosWithoutDeadline, isUpcoming, hasDeadline.
  induction todos as [|t todos IH]; [reflexivity|]. cbn [List.filter].
  destruct (Completed t); cbn [negb andb].
  - rewrite app_assoc. etransitivity; [|apply Permutation_middle].
    rewrite <- app_assoc. constructor. exact IH.
  - destruct (Deadline t); cbn [negb andb].
    + cbn [app]. constructor. exact IH.
    + etransitivity; [|apply Permutation_middle]. constructor. exact IH.
Qed.

Lemma GetTopUpcomingTodos_10 todos :
  default [] (GetTopUpcomingTodos todos 10)
  = take 10 (sort.Slice deadlineLess (List.filter isUpcoming todos)).
Proof.
  unfold GetTopUpcomingTodos.
  destruct (Z.ltb_spec 10 (Z.of_nat (length (sort.Slice deadlineLess
                                               (List.filter isUpcoming todos)))));
    [reflexivity|].
  cbn [default]. unfold id. symmetry. apply take_ge. lia.
Qed.

(** Reading the todos behind a slice of pointers commutes with the
    filters and with the sort. *)
Lemma filter_load (load : pointer → Todo) (f : Todo → bool) ps :
  load <$> List.filter (λ p, f (load p)) ps = List.filter f (load <$> ps).
Proof.
  induction ps as [|p ps IH]; [reflexivity|]. cbn [List.filter fmap list_fmap].
  destruct (f (load p)); cbn [fmap list_fmap]; [f_equal|]; exact IH.
Qed.

Lemma insertLeft_load (load : pointer → Todo) (less : Todo → Todo → bool) x ps :
  load <$> sort.insertLeft (λ a b, less (load a) (load b)) x ps
  = sort.insertLeft less (load x) (load <$> ps).
Proof.
  induction ps as [|p ps IH]; [reflexivity|].
  cbn [sort.insertLeft fmap list_fmap].
  destruct (less (load x) (load p)); cbn [fmap list_fmap]; [f_equal; exact IH|].
  reflexivity.
Qed.

Lemma fmap_rev {A B} (f : A → B) (l : list A) : f <$> rev l = rev (f <$> l).
Proof.
  induction l as [|a l IH]; [reflexivity|]. cbn [rev fmap list_fmap].
  rewrite fmap_app. cbn [fmap list_fmap]. f_equal. exact IH.
Qed.

Lemma Slice_load (load : pointer → Todo) (less : Todo → Todo → bool) ps :
  load <$> sort.Slice (λ a b, less (load a) (load b)) ps
  = sort.Slice less (load <$> ps).
Proof.
  unfold sort.Slice. rewrite fmap_rev. f_equal.
  change (@nil Todo) with (load <$> @nil pointer). generalize (@nil pointer).
  induction ps as [|p ps IH]; intros acc; [reflexivity|].
  cbn [fold_left fmap list_fmap]. rewrite IH, insertLeft_load. reflexivity.
Qed.

Lemma GetTopUpcomingTodosAt_load (load : pointer → Todo) ps limit :
  (fmap (M := list) load <$> GetTopUpcomingTodosAt load ps limit)
  = GetTopUpcomingTodos (load <$> ps) limit.
Proof.
  unfold GetTopUpcomingTodosAt, GetTopUpcomingTodos, isUpcoming.
  rewrite <- (filter_load load (λ todo, negb (Completed todo) && hasDeadline todo)).
  rewrite <- Slice_load, length_fmap.
  destruct (_ <? _); [|reflexivity].
  destruct (_ <? _); [reflexivity|].
  cbn [fmap option_fmap option_map]. rewrite fmap_take. reflexivity.
Qed.

Lemma GetTodosWithoutDeadlineAt_load (load : pointer → Todo) ps :
  load <$> GetTodosWithoutDeadlineAt load ps
  = GetTodosWithoutDeadline (load <$> ps).
Proof.
  unfold GetTodosWithoutDeadlineAt, GetTodosWithoutDeadline.
  apply (filter_load load
           (λ todo, negb (Completed todo) && negb (hasDeadline todo))).
Qed.

(** The new pointers of [allocate] lead to the todos of the message. *)
Lemma pointee_allocate m l : pointee (allocate m l) <$> todos (allocate m l) = l.
Proof.
  unfold pointee. cbn [memory todos allocate]. generalize (memory m) as mem.
  induction l as [|a l IH]; intros mem; [reflexivity|].
  cbn [length seq fmap list_fmap]. f_equal.
  - rewrite list_lookup_middle by reflexivity. reflexivity.
  - specialize (IH (mem ++ [a])). rewrite length_app, <- app_assoc in IH.
    cbn [length app] in IH. rewrite Nat.add_1_r in IH. exact IH.
Qed.

Lemma length_getVisibleTodos m :
  length (getVisibleTodos m) = length (visiblePointers m).
Proof. unfold getVisibleTodos. apply length_fmap. Qed.

Lemma getVisibleTodos_dataLoaded m todos streak :
  getVisibleTodos (dataLoaded m (todos, streak))
  = take 10 (sort.Slice deadlineLess (List.filter isUpcoming todos)) ++
    GetTodosWithoutDeadline todos ++ List.filter Completed todos.
Proof.
  unfold getVisibleTodos, visiblePointers, dataLoaded.
  cbn [ui.todos topUpcoming todosNoDeadline fst snd].
  change (pointee {| memory := memory (allocate m todos) |})
    with (pointee (allocate m todos)).
  rewrite !fmap_app. f_equal; [|f_equal].
  - rewrite <- GetTopUpcomingTodos_10.
    pose proof (GetTopUpcomingTodosAt_load (pointee (allocate m todos))
                  (ui.todos (allocate m todos)) 10) as E.
    rewrite pointee_allocate in E. rewrite <- E.
    destruct (GetTopUpcomingTodosAt _ _ _); reflexivity.
  - rewrite GetTodosWithoutDeadlineAt_load, pointee_allocate. reflexivity.
  - rewrite (filter_load (pointee (allocate m todos)) Completed).
    rewrite pointee_allocate. reflexivity.
Qed.

(** X21. What the list shows after a reload: only todos that were
    loaded; all of them, each once, when at most ten open todos have a
    deadline; in general all but the open todos with a deadline beyond
    the ten nearest, which can then be neither selected nor toggled nor
    deleted from the list. *)
Theorem visible_after_reload (m : ListModel) (todos : list Todo)
    (streak : Streak) :
  let m' := dataLoaded m (todos, streak) in
  let upcoming := List.filter isUpcoming todos in
  (∀ todo, todo ∈ getVisibleTodos m' → todo ∈ todos) ∧
  ((length upcoming <= 10)%nat → getVisibleTodos m' ≡ₚ todos) ∧
  length (getVisibleTodos m')
  = (length todos - (length upcoming - 10))%nat.
Proof.
  intros m' upcoming. unfold m'. rewrite getVisibleTodos_dataLoaded.
  fold upcoming.
  pose proof (todos_three_sections todos) as P. fold upcoming in P.
  pose proof (Slice_Permutation deadlineLess upcoming) as S.
  split; [|split].
  - intros todo Hin. rewrite P.
    rewrite !elem_of_app in Hin. rewrite !elem_of_app.
    destruct Hin as [Hin|Hin]; [left|right; exact Hin].
    rewrite <- S, <- (take_drop 10 (sort.Slice deadlineLess upcoming)).
    apply elem_of_app. left. exact Hin.
  - intros Hle. rewrite take_ge by (rewrite S; lia).
    rewrite S. symmetry. exact P.
  - rewrite (Permutation_length P), !length_app, length_take.
    rewrite (Permutation_length S). lia.
Qed.

(** Twelve open todos with a deadline and one without: ten plus one are
    shown. *)
Lemma visible_after_reload_witness :
  length (getVisibleTodos (dataLoaded NewListModel
                             (samples.thirteen, GetStreak NewBoltStorage)))
  = 11%nat ∧
  getVisibleTodos (dataLoaded NewListModel
                     ([samples.taskC; samples.taskA; samples.taskB],
                      GetStreak NewBoltStorage))
  ≡ₚ [samples.taskC; samples.taskA; samples.taskB].
Proof.
  split.
  - destruct (visible_after_reload NewListModel samples.thirteen
                (GetStreak NewBoltStorage)) as (_ & _ & L).
    rewrite L. reflexivity.
  - destruct (visible_after_reload NewListModel
                [samples.taskC; samples.taskA; samples.taskB]
                (GetStreak NewBoltStorage)) as (_ & P & _).
    apply P. vm_compute. lia.
Defined.

Ltac key_cases key :=
  repeat match goal with
         | |- context [String.eqb key ?k] =>
             destruct (String.eqb_spec key k) as [->|?];
             cbn [String.eqb Ascii.eqb Bool.eqb orb andb]
         end.

(** The todos and the lists of the model are changed by [c] and by a
    reload only. *)
Lemma keyPressed_visible m s key nowMark now nowStreak :
  key ≠ "c" →
  let m' := (keyPressed m s key nowMark now nowStreak).1.1 in
  memory m' = memory m ∧ visiblePointers m' = visiblePointers m ∧
  getVisibleTodos m' = getVisibleTodos m.
Proof.
  intros Hc. unfold keyPressed, ensureCursorVisible. key_cases key;
  try congruence;
  repeat match goal with
         | |- context [if ?c then _ else _] => destruct c
         | |- context [match currentPointer ?m with _ => _ end] =>
             destruct (currentPointer m)
         | |- context [match todoToDelete ?m with _ => _ end] =>
             destruct (todoToDelete m)
         end; repeat split; reflexivity.
Qed.

(** The store after a key: only [c] and a confirmed [y] write to it. *)
Lemma keyPressed_store m s key nowMark now nowStreak :
  (keyPressed m s key nowMark now nowStreak).1.2
  = if String.eqb key "c" then (toggleComplete m s nowMark now nowStreak).1.2
    else if String.eqb key "y" then
      match confirmingDelete m, todoToDelete m with
      | true, Some todo => DeleteTodo s (ID (pointee m todo))
      | _, _ => s
      end
    else s.
Proof.
  unfold keyPressed. key_cases key;
    repeat match goal with
           | |- context [toggleComplete ?m ?s ?a ?b ?c] =>
               destruct (toggleComplete m s a b c) as [[? ?] []]
           | |- context [match currentPointer ?m with _ => _ end] =>
               destruct (currentPointer m)
           | |- context [match todoToDelete ?m with _ => _ end] =>
               destruct (todoToDelete m)
           | |- context [if ?c then _ else _] => destruct c
           end; reflexivity.
Qed.

Lemma UpdateTodo_valid s todo now nowStreak :
  bolt.validKey (ID todo) →
  UpdateTodo s todo now nowStreak
  = let todo' :=
      {| ID := ID todo; Title := Title todo; Description := Description todo;
         Deadline := Deadline todo; Completed := Completed todo;
         CompletedAt := CompletedAt todo; CreatedAt := CreatedAt todo;
         UpdatedAt := now |} in
    ({| todoBucket := bolt.insert (todoBucket s) (ID todo) todo';
        streakBucket := streakBucket s |}, todo', None).
Proof.
  intros Hk. unfold UpdateTodo. rewrite putTodo_valid by exact Hk. reflexivity.
Qed.

Lemma UpdateTodo_keeps s todo now nowStreak id :
  (GetTodo s id).1 ≠ None →
  (GetTodo (UpdateTodo s todo now nowStreak).1.1 id).1 ≠ None.
Proof.
  intros H. unfold UpdateTodo, putTodo, bolt.Put.
  destruct (_ =? _)%nat; [|destruct (_ <? _)].
  1,2: cbn [isNil negb andb fst snd];
       destruct (negb _ && _);
       unfold GetTodo in *; rewrite ?updateStreakOnCompletion_todoBucket;
       exact H.
  cbn [isNil negb andb fst snd]. unfold GetTodo in *. cbn [todoBucket ID].
  destruct (String.eqb_spec (ID todo) id) as [<-|Hne].
  - rewrite bolt_Get_insert. discriminate.
  - rewrite bolt_Get_insert_ne by exact Hne. exact H.
Qed.

(** What [UpdateTodo] hands back is its argument with the update time
    set, whether or not the todo was stored. *)
Lemma UpdateTodo_todo s todo now nowStreak :
  (UpdateTodo s todo now nowStreak).1.2
  = {| ID := ID todo; Title := Title todo; Description := Description todo;
       Deadline := Deadline todo; Completed := Completed todo;
       CompletedAt := CompletedAt todo; CreatedAt := CreatedAt todo;
       UpdatedAt := now |}.
Proof. unfold UpdateTodo. destruct (putTodo _ _). reflexivity. Qed.

Lemma toggleComplete_keeps m s nowMark now nowStreak id :
  (GetTodo s id).1 ≠ None →
  (GetTodo (toggleComplete m s nowMark now nowStreak).1.2 id).1 ≠ None.
Proof.
  intros H. unfold toggleComplete.
  destruct (currentPointer m) as [p|]; [|exact H].
  pose proof (UpdateTodo_keeps s
                (if Completed (pointee m p)
                 then MarkIncomplete (pointee m p) nowMark
                 else MarkComplete (pointee m p) nowMark) now nowStreak id H) as K.
  destruct (UpdateTodo _ _ _ _) as [[s' t'] e]. exact K.
Qed.

Lemma getCurrentTodo_Some m todo :
  getCurrentTodo m = Some todo →
  ∃ p, currentPointer m = Some p ∧ pointee m p = todo.
Proof.
  unfold getCurrentTodo. destruct (currentPointer m) as [p|]; [|discriminate].
  intros [= <-]. exists p. split; reflexivity.
Qed.

(** X22. Deleting takes two keys.  While no deletion is being
    confirmed, no key makes a stored todo disappear; [d] on a selected
    todo only asks for confirmation, and holds on to the pointer of that
    todo; [y] then deletes exactly that todo and asks for a reload, and
    [n] drops the request; every key other than [c] and [y] leaves the
    store as it is. *)
Theorem delete_needs_confirmation (m : ListModel) (s : BoltStorage)
    (key : string) (nowMark now nowStreak : Time) :
  let press m key := keyPressed m s key nowMark now nowStreak in
  (confirmingDelete m = false →
   ∀ id, (GetTodo s id).1 ≠ None → (GetTodo (press m key).1.2 id).1 ≠ None) ∧
  (key ≠ "c" → key ≠ "y" → (press m key).1.2 = s) ∧
  (∀ todo, confirmingDelete m = false → getCurrentTodo m = Some todo →
     let m1 := (press m "d").1.1 in
     (press m "d").1.2 = s ∧
     confirmingDelete m1 = true ∧
     todoToDelete m1 = currentPointer m ∧
     (pointee m1 <$> todoToDelete m1) = Some todo ∧
     press m1 "y"
     = (withConfirm m1 false None, DeleteTodo s (ID todo), LoadData) ∧
     press m1 "n" = (withConfirm m1 false None, s, NoCmd)).
Proof.
  intros press. unfold press. split; [|split].
  - intros Hc id H. rewrite keyPressed_store.
    destruct (String.eqb key "c"); [apply toggleComplete_keeps, H|].
    rewrite Hc. destruct (String.eqb key "y"); exact H.
  - intros Hc Hy. rewrite keyPressed_store.
    destruct (String.eqb_spec key "c"); [contradiction|].
    destruct (String.eqb_spec key "y"); [contradiction|]. reflexivity.
  - intros todo Hc (p & Hp & Ht)%getCurrentTodo_Some. unfold keyPressed.
    cbn [String.eqb Ascii.eqb Bool.eqb orb andb]. rewrite Hc, Hp.
    cbn [negb fst snd withConfirm confirmingDelete todoToDelete].
    subst todo. repeat split; reflexivity.
Qed.

Lemma delete_needs_confirmation_witness :
  let m := dataLoaded NewListModel
             ([samples.taskA; samples.taskB], GetStreak NewBoltStorage) in
  let s := samples.storeOf [samples.taskA; samples.taskB] in
  let m1 := (keyPressed m s "d" samples.noon samples.noon samples.noon).1.1 in
  (keyPressed m s "d" samples.noon samples.noon samples.noon).1.2 = s ∧
  todoToDelete m1 = Some 1%nat ∧
  (pointee m1 <$> todoToDelete m1) = Some samples.taskB ∧
  (keyPressed m1 s "y" samples.noon samples.noon samples.noon).1.2
  = samples.storeOf [samples.taskA].
Proof.
  intros m s m1.
  destruct (delete_needs_confirmation m s "d" samples.noon samples.noon
              samples.noon) as (_ & _ & D).
  destruct (D samples.taskB eq_refl eq_refl) as (S0 & _ & P & T & Y & _).
  split; [exact S0|]. split; [exact P|]. split; [exact T|].
  unfold m1. rewrite Y. reflexivity.
Defined.

Lemma elem_of_filter_inv {A} (f : A → bool) x l : x ∈ List.filter f l → x ∈ l.
Proof.
  rewrite !list_elem_of_In, filter_In. intros [H _]. exact H.
Qed.

Lemma GetTopUpcomingTodosAt_elem load ps limit p :
  p ∈ default [] (GetTopUpcomingTodosAt load ps limit) → p ∈ ps.
Proof.
  unfold GetTopUpcomingTodosAt.
  set (sorted := sort.Slice _ _).
  assert (S : ∀ q, q ∈ sorted → q ∈ ps).
  { intros q Hq. unfold sorted in Hq. rewrite Slice_Permutation in Hq.
    exact (elem_of_filter_inv _ _ _ Hq). }
  destruct (_ <? _); [destruct (_ <? _)|]; cbn [default]; unfold id.
  - intros H. inversion H.
  - intros H. apply S. rewrite <- (take_drop (Z.to_nat limit) sorted).
    apply elem_of_app. left. exact H.
  - apply S.
Qed.

(** The pointers of a model that the program builds lead to todos: the
    new model has none, and a reload and a key keep the property. *)
Lemma pointersValid_NewListModel : pointersValid NewListModel.
Proof.
  intros p [H|H]; [inversion H|discriminate H].
Qed.

Lemma pointersValid_dataLoaded m msg :
  pointersValid m → pointersValid (dataLoaded m msg).
Proof.
  intros V p. unfold dataLoaded.
  cbn [memory todos topUpcoming todosNoDeadline todoToDelete allocate].
  rewrite length_app.
  assert (T : p ∈ seq (length (memory m)) (length msg.1) →
              (p < length (memory m) + length msg.1)%nat).
  { rewrite list_elem_of_In, in_seq. lia. }
  rewrite !elem_of_app. intros [[H|[H|H]]|H].
  - apply T, H.
  - apply T. exact (GetTopUpcomingTodosAt_elem _ _ _ _ H).
  - apply T. exact (elem_of_filter_inv _ _ _ H).
  - pose proof (V p (or_intror H)). lia.
Qed.

Lemma currentPointer_elem m p :
  currentPointer m = Some p →
  p ∈ todos m ++ topUpcoming m ++ todosNoDeadline m.
Proof.
  unfold currentPointer. destruct (_ && _); [|discriminate].
  intros H%list_elem_of_lookup_2. unfold visiblePointers in H.
  rewrite !elem_of_app in H. rewrite !elem_of_app.
  destruct H as [H|[H|H]]; auto.
  left. exact (elem_of_filter_inv _ _ _ H).
Qed.

Lemma pointersValid_keyPressed m s key nowMark now nowStreak :
  pointersValid m →
  pointersValid (keyPressed m s key nowMark now nowStreak).1.1.
Proof.
  intros V. pose proof (currentPointer_elem m) as C.
  unfold keyPressed, ensureCursorVisible, toggleComplete. key_cases key;
  repeat match goal with
         | |- context [UpdateTodo ?s ?t ?a ?b] =>
             destruct (UpdateTodo s t a b) as [[? ?] []]
         | |- context [match currentPointer ?m with _ => _ end] =>
             destruct (currentPointer m)
         | |- context [match todoToDelete ?m with _ => _ end] =>
             destruct (todoToDelete m)
         | |- context [if ?c then _ else _] => destruct c
         end;
  cbn [fst snd]; try exact V;
  intros q;
  cbn [memory todos topUpcoming todosNoDeadline todoToDelete withCursor
       withErr withConfirm withTodo];
  rewrite ?length_insert; try exact (V q);
  intros [H|H]; try discriminate H; try exact (V q (or_introl H)).
  injection H as <-. apply V. left. apply C. reflexivity.
Qed.
Lemma cursor_ensureCursorVisible m :
  cursor (ensureCursorVisible m) = cursor m.
Proof.
  unfold ensureCursorVisible. destruct (_ && _); reflexivity.
Qed.

(** X23. No key other than [c] moves the cursor out of the visible list:
    if the cursor is an index of the list (or 0 on an empty list) before
    the key, it is one afterwards, and the list is the same.  [c] is the
    exception: it changes the selected todo where it is, and with it the
    list that the model shows until the reload arrives (X24). *)
Theorem keyPressed_keeps_cursor (m : ListModel) (s : BoltStorage)
    (key : string) (nowMark now nowStreak : Time) :
  cursorInRange m → key ≠ "c" →
  let m' := (keyPressed m s key nowMark now nowStreak).1.1 in
  cursorInRange m' ∧ getVisibleTodos m' = getVisibleTodos m.
Proof.
  intros Hin Hc m'.
  destruct (keyPressed_visible m s key nowMark now nowStreak Hc)
    as (_ & _ & V).
  split; [|exact V].
  unfold cursorInRange, m'. rewrite V.
  unfold cursorInRange in Hin. rewrite length_getVisibleTodos in *.
  unfold keyPressed. key_cases key; try congruence;
  repeat match goal with
         | |- context [if ?a <? ?b then _ else _] => destruct (Z.ltb_spec a b)
         | |- context [match currentPointer ?m with _ => _ end] =>
             destruct (currentPointer m)
         | |- context [match todoToDelete ?m with _ => _ end] =>
             destruct (todoToDelete m)
         | |- context [if ?c then _ else _] => destruct c
         end;
  cbn [fst snd]; rewrite ?cursor_ensureCursorVisible;
  cbn [cursor withCursor withErr withConfirm]; lia.
Qed.

Lemma keyPressed_keeps_cursor_witness :
  let m := dataLoaded NewListModel
             ([samples.taskA; samples.taskB], GetStreak NewBoltStorage) in
  let m1 := (keyPressed m NewBoltStorage "down" samples.noon samples.noon
               samples.noon).1.1 in
  let m2 := (keyPressed m1 NewBoltStorage "down" samples.noon samples.noon
               samples.noon).1.1 in
  cursor m1 = 1 ∧ cursorInRange m2.
Proof.
  intros m m1 m2. split; [reflexivity|].
  assert (I0 : cursorInRange m) by (vm_compute; split; [discriminate|reflexivity]).
  pose proof (keyPressed_keeps_cursor m NewBoltStorage "down" samples.noon
                samples.noon samples.noon I0 ltac:(discriminate)) as [I1 _].
  exact (proj1 (keyPressed_keeps_cursor _ NewBoltStorage "down" samples.noon
                  samples.noon samples.noon I1 ltac:(discriminate))).
Defined.

Lemma toggled_todo todo nowMark now :
  let marked := if Completed todo then MarkIncomplete todo nowMark
                else MarkComplete todo nowMark in
  {| ID := ID marked; Title := Title marked; Description := Description marked;
     Deadline := Deadline marked; Completed := Completed marked;
     CompletedAt := CompletedAt marked; CreatedAt := CreatedAt marked;
     UpdatedAt := now |}
  = {| ID := ID todo; Title := Title todo; Description := Description todo;
       Deadline := Deadline todo; Completed := negb (Completed todo);
       CompletedAt := if Completed todo then None else Some nowMark;
       CreatedAt := CreatedAt todo; UpdatedAt := now |}.
Proof. destruct (Completed todo); reflexivity. Qed.

(** X24. [c] changes the selected todo where it is: through every
    pointer of the model the todo then has the completion flipped (marked
    complete at the reading of the clock, or incomplete with the
    completion time cleared) and the update time of [UpdateTodo]; the
    lists of pointers and the cursor are kept, so that the visible list,
    which reads the flag, can differ before the reload that is asked for.
    When the bucket accepts the identifier and the record is one that JSON
    hands back as it is, the changed todo is what the store then holds
    for the identifier, the other stored todos are kept, and the model
    records no error.  Without a selected todo the store is as before and
    the model holds the no-selection error. *)
Theorem toggle_selected (m : ListModel) (s : BoltStorage)
    (nowMark now nowStreak : Time) :
  let r := keyPressed m s "c" nowMark now nowStreak in
  r.2 = LoadData ∧
  (getCurrentTodo m = None →
   r.1.2 = s ∧ r.1.1 = withErr m (Some NoTodoSelected)) ∧
  (∀ p, currentPointer m = Some p →
     let todo := pointee m p in
     let toggled :=
       {| ID := ID todo; Title := Title todo;
          Description := Description todo; Deadline := Deadline todo;
          Completed := negb (Completed todo);
          CompletedAt := if Completed todo then None else Some nowMark;
          CreatedAt := CreatedAt todo; UpdatedAt := now |} in
     memory r.1.1 = <[p := toggled]> (memory m) ∧
     todos r.1.1 = todos m ∧ topUpcoming r.1.1 = topUpcoming m ∧
     todosNoDeadline r.1.1 = todosNoDeadline m ∧ cursor r.1.1 = cursor m ∧
     (bolt.validKey (ID todo) → json.roundTrips toggled = true →
      r.1.1 = withTodo m p toggled ∧
      GetTodo r.1.2 (ID todo) = (Some toggled, None) ∧
      ∀ id, id ≠ ID todo → GetTodo r.1.2 id = GetTodo s id)).
Proof.
  intros r.
  assert (Er : r = let '(m, s, e) := toggleComplete m s nowMark now nowStreak in
                   ((match e with Some _ => withErr m e | None => m end), s,
                    LoadData)) by reflexivity.
  clearbody r. subst r. unfold toggleComplete.
  split; [|split].
  - destruct (currentPointer m) as [p|]; [|reflexivity].
    destruct (UpdateTodo _ _ _ _) as [[s' t'] [e|]]; reflexivity.
  - unfold getCurrentTodo. destruct (currentPointer m); [discriminate|].
    intros _. split; reflexivity.
  - intros p ->. set (todo := pointee m p).
    set (toggled :=
           {| ID := ID todo; Title := Title todo;
              Description := Description todo; Deadline := Deadline todo;
              Completed := negb (Completed todo);
              CompletedAt := if Completed todo then None else Some nowMark;
              CreatedAt := CreatedAt todo; UpdatedAt := now |}).
    set (marked := if Completed todo then MarkIncomplete todo nowMark
                   else MarkComplete todo nowMark).
    pose proof (UpdateTodo_todo s marked now nowStreak) as T.
    unfold marked in T at 2 3 4 5 6 7 8. rewrite toggled_todo in T.
    fold toggled in T.
    assert (Ei : ID marked = ID todo)
      by (unfold marked; destruct (Completed todo); reflexivity).
    split; [|split; [|split; [|split; [|split]]]].
    1-5: destruct (UpdateTodo s marked now nowStreak) as [[s' t'] [e|]];
         cbn [fst snd] in T; subst t'; reflexivity.
    intros Hk _. rewrite <- Ei in Hk.
    rewrite (UpdateTodo_valid _ _ _ _ Hk) in T |- *.
    cbn [fst snd] in T. cbv zeta. rewrite T.
    cbn [fmap option_fmap option_map fst snd].
    split; [reflexivity|]. unfold GetTodo. cbn [todoBucket]. rewrite Ei.
    split.
    + rewrite bolt_Get_insert. reflexivity.
    + intros id Hid. rewrite bolt_Get_insert_ne by congruence. reflexivity.
Qed.

(** The todo B, which has a deadline, is selected and completed: the
    store holds it as completed, and until the reload the list shows it
    twice, in its old place and among the completed todos. *)
Lemma toggle_selected_witness :
  let m := dataLoaded NewListModel
             ([samples.taskB; samples.taskA], GetStreak NewBoltStorage) in
  let s := samples.storeOf [samples.taskA; samples.taskB] in
  let r := keyPressed m s "c" samples.noon (samples.noon + 1)
                      (samples.noon + 2) in
  (Completed <$> (GetTodo r.1.2 "B").1) = Some true ∧
  (CompletedAt <$> (GetTodo r.1.2 "B").1) = Some (Some samples.noon) ∧
  GetTodo r.1.2 "A" = GetTodo s "A" ∧
  (ID <$> getVisibleTodos m) = ["B"; "A"] ∧
  (ID <$> getVisibleTodos r.1.1) = ["B"; "A"; "B"] ∧
  (Completed <$> getVisibleTodos r.1.1) = [true; false; true].
Proof.
  intros m s r.
  destruct (toggle_selected m s samples.noon (samples.noon + 1)
              (samples.noon + 2)) as (_ & _ & T).
  destruct (T 0%nat eq_refl) as (M & _ & _ & _ & _ & W).
  destruct (W ltac:(split; [discriminate | vm_compute; discriminate])
              ltac:(vm_compute; reflexivity))
    as (R & G & O).
  change (ID (pointee m 0%nat)) with "B" in G, O.
  fold r in G, O, R. rewrite G. split; [reflexivity|]. split; [reflexivity|].
  split; [apply O; discriminate|]. split; [reflexivity|].
  rewrite R. split; reflexivity.
Defined.

(** Two completed todos with the cursor on the second: [c] takes it out
    of the list, and the cursor is left behind the end until the reload
    arrives. *)
Example toggle_last_completed :
  let m := dataLoaded NewListModel
             ([samples.taskC; samples.task "D" None true samples.noon],
              GetStreak NewBoltStorage) in
  let press m key :=
    (keyPressed m NewBoltStorage key samples.noon samples.noon
       samples.noon).1.1 in
  let m1 := press m "down" in
  let m2 := press m1 "c" in
  (ID <$> getVisibleTodos m1) = ["C"; "D"] ∧ cursorInRange m1 ∧
  (ID <$> getVisibleTodos m2) = ["C"] ∧ cursor m2 = 1 ∧
  getCurrentTodo m2 = None ∧ ¬ cursorInRange m2.
Proof.
  cbv zeta. split; [reflexivity|].
  split; [vm_compute; split; [discriminate|reflexivity]|].
  split; [reflexivity|]. split; [reflexivity|]. split; [reflexivity|].
  vm_compute. intros [_ H]. discriminate H.
Qed.

(** X25. The cursor is an index of the whole list, not of the page:
    after the next page is taken the cursor is 0 and the selected todo
    is the first of the list, and a following [down] moves the cursor
    to 1 and brings the first page back. *)
Theorem next_page_then_down (m : ListModel) (s : BoltStorage)
    (nowMark now nowStreak : Time) :
  0 <= currentPage m →
  (currentPage m + 1) * pageSize < Z.of_nat (length (getVisibleTodos m)) →
  let m1 := (keyPressed m s "pgdown" nowMark now nowStreak).1.1 in
  let m2 := (keyPressed m1 s "down" nowMark now nowStreak).1.1 in
  currentPage m1 = currentPage m + 1 ∧ cursor m1 = 0 ∧
  getCurrentTodo m1 = head (getVisibleTodos m) ∧
  cursor m2 = 1 ∧ currentPage m2 = 0.
Proof.
  intros Hp Hlen m1 m2. rewrite length_getVisibleTodos in Hlen.
  assert (E1 : m1 = withCursor m 0 (currentPage m + 1)).
  { unfold m1, keyPressed. cbn [String.eqb Ascii.eqb Bool.eqb orb andb].
    destruct (Z.ltb_spec ((currentPage m + 1) * pageSize)
                (Z.of_nat (length (visiblePointers m)))); [reflexivity|lia]. }
  assert (V1 : visiblePointers m1 = visiblePointers m)
    by (rewrite E1; reflexivity).
  unfold pageSize in *.
  assert (E2 : m2 = withCursor m1 1 0).
  { unfold m2, keyPressed. cbn [String.eqb Ascii.eqb Bool.eqb orb andb].
    rewrite V1. replace (cursor m1) with 0 by (rewrite E1; reflexivity).
    destruct (Z.ltb_spec 0 (Z.of_nat (length (visiblePointers m)) - 1)); [|lia].
    cbn [fst]. unfold ensureCursorVisible.
    change (visiblePointers (withCursor m1 (0 + 1) (currentPage m1)))
      with (visiblePointers m1).
    rewrite V1. cbn [cursor currentPage withCursor].
    change (Z.quot (0 + 1) pageSize) with 0.
    replace (currentPage m1) with (currentPage m + 1) by (rewrite E1; reflexivity).
    destruct (Z.eqb_spec 0 (currentPage m + 1)); [lia|].
    assert (0 < Z.quot (Z.of_nat (length (visiblePointers m)) + pageSize - 1)
                       pageSize).
    { unfold pageSize. apply Z.quot_str_pos. lia. }
    destruct (Z.ltb_spec 0 (Z.quot (Z.of_nat (length (visiblePointers m))
                                    + pageSize - 1) pageSize)); [|lia].
    cbn [negb andb]. rewrite E1. reflexivity. }
  rewrite E2. split; [rewrite E1; reflexivity|]. split; [rewrite E1; reflexivity|].
  split; [|split; reflexivity].
  unfold getCurrentTodo, currentPointer, getVisibleTodos. rewrite V1.
  rewrite E1. cbn [cursor withCursor].
  change (pointee (withCursor m 0 (currentPage m + 1))) with (pointee m).
  destruct (Z.ltb_spec 0 (Z.of_nat (length (visiblePointers m)))); [|lia].
  cbn [Z.leb andb Z.to_nat]. destruct (visiblePointers m); reflexivity.
Qed.

(** Eleven visible todos: the second page exists, and [down] after
    [pgdown] shows the first page again. *)
Lemma next_page_then_down_witness :
  let m := dataLoaded NewListModel
             (samples.thirteen, GetStreak NewBoltStorage) in
  let m1 := (keyPressed m NewBoltStorage "pgdown" samples.noon samples.noon
               samples.noon).1.1 in
  let m2 := (keyPressed m1 NewBoltStorage "down" samples.noon samples.noon
               samples.noon).1.1 in
  currentPage m1 = 1 ∧ (ID <$> getCurrentTodo m1) = Some "1" ∧
  cursor m2 = 1 ∧ currentPage m2 = 0.
Proof.
  intros m m1 m2.
  destruct (next_page_then_down m NewBoltStorage samples.noon samples.noon
              samples.noon ltac:(vm_compute; discriminate)
              ltac:(vm_compute; reflexivity)) as (P1 & _ & C & C2 & P2).
  split; [exact P1|]. split; [|split; [exact C2 | exact P2]].
  unfold m1. rewrite C. reflexivity.
Defined.

End ListView.

(** ** Relative deadlines *)

Section RelativeDeadlines.
Import time timeParse strings strconv regexp utils tokens.
Local Open Scope Z_scope.

(** An input that the absolute layout accepts starts with four digits
    and a hyphen. *)
Lemma ParseInLocation_shape value t :
  ParseInLocation value = Some t →
  ∃ c0 c1 c2 c3 rest,
    value = String c0 (String c1 (String c2 (String c3 (String "-" rest)))) ∧
    isDigitChar c0 = true ∧ isDigitChar c1 = true ∧
    isDigitChar c2 = true ∧ isDigitChar c3 = true.
Proof.
  unfold ParseInLocation.
  destruct value as [|c0 [|c1 [|c2 [|c3 rest]]]]; try discriminate.
  cbn [getyear].
  destruct (isDigitChar c0) eqn:D0; [|discriminate].
  destruct (isDigitChar c1) eqn:D1; [|discriminate].
  destruct (isDigitChar c2) eqn:D2; [|discriminate].
  destruct (isDigitChar c3) eqn:D3; [|discriminate].
  cbn [andb mbind option_bind].
  destruct rest as [|c4 rest]; [discriminate|].
  change (skip (String c4 rest) "-")
    with (if Ascii.eqb c4 "-" then Some rest else None).
  destruct (Ascii.eqb_spec c4 "-") as [->|]; [|discriminate].
  intros _. exists c0, c1, c2, c3, rest. auto.
Qed.

(** Digits directly followed by a unit letter are not in the layout. *)
Lemma ParseInLocation_token ds u rest :
  allDigits ds = true → isUnitLetter u = true →
  ParseInLocation (ds +:+ String u rest) = None.
Proof.
  intros Hd Hu.
  destruct (ParseInLocation _) as [t|] eqn:E; [|reflexivity]. exfalso.
  apply ParseInLocation_shape in E
    as (c0 & c1 & c2 & c3 & r & E & D0 & D1 & D2 & D3).
  pose proof (unit_not_digit _ Hu) as Nu.
  destruct ds as [|a0 [|a1 [|a2 [|a3 [|a4 ds]]]]];
    rewrite ?str_app_cons, ?str_app_nil_l in E; injection E; intros; subst;
    cbn in Hd; try congruence; try (vm_compute in Hu; discriminate).
  rewrite !andb_true_iff in Hd. destruct Hd as (_ & _ & _ & _ & H4 & _).
  discriminate H4.
Qed.

Lemma blanks_allSpaces bl : forallChars isBlank bl = true → allSpaces bl = true.
Proof.
  induction bl as [|c bl IH]; [reflexivity|]. cbn.
  intros [Hc Hbl]%andb_prop. rewrite (IH Hbl), andb_true_r.
  destruct (isBlank_cases c Hc) as [-> | ->]; reflexivity.
Qed.

Lemma unit_not_space c : isUnitLetter c = true → isSpace c = false.
Proof. intros [->|[->|[->| ->]]]%isUnitLetter_cases; reflexivity. Qed.

Lemma text_app ts a b : text ts (a +:+ b) = text ts a +:+ b.
Proof.
  induction ts as [|t ts IH]; [reflexivity|]. cbn [text fold_right].
  fold (text ts (a +:+ b)) (text ts a). rewrite IH, str_app_assoc. reflexivity.
Qed.

Lemma text_last ts :
  ts ≠ [] → Forall validToken ts →
  ∃ s u, text ts "" = s +:+ String u "" ∧ isUnitLetter u = true.
Proof.
  intros Hne Hts. induction Hts as [|t ts Ht Hts IH]; [congruence|].
  cbn [text fold_right]. fold (text ts "").
  destruct ts as [|t' ts'].
  - exists (blanks t +:+ pretty (count t)), (unit t). cbn [text fold_right].
    split; [|apply Ht]. unfold tokenText.
    rewrite str_app_nil_r, str_app_assoc. reflexivity.
  - destruct IH as (s & u & E & Hu); [discriminate|].
    exists (tokenText t +:+ s), u. rewrite E, str_app_assoc. auto.
Qed.

(** Trimming a text of tokens removes the blanks before the first token
    and those behind the last. *)
Lemma TrimSpace_text t ts trailing :
  Forall validToken (t :: ts) → forallChars isBlank trailing = true →
  let t' := {| blanks := ""; count := count t; unit := unit t |} in
  TrimSpace (text (t :: ts) trailing) = text (t' :: ts) "" ∧
  Forall validToken (t' :: ts) ∧
  exactDuration (t' :: ts) = exactDuration (t :: ts).
Proof.
  intros Hts Htr t'.
  assert (Hts' : Forall validToken (t' :: ts)).
  { inversion Hts as [|? ? (Hb & Hc & Hu) Hrest]; subst.
    constructor; [|exact Hrest]. split; [reflexivity|]. split; assumption. }
  split; [|split; [exact Hts' | reflexivity]].
  inversion Hts as [|? ? (Hb & Hc & Hu) Hrest]; subst.
  destruct (pretty_pos_digits (count t)) as (Hd & Hne & _); [lia|].
  unfold TrimSpace.
  assert (L : TrimLeft (text (t :: ts) trailing) = text (t' :: ts) trailing).
  { cbn [text fold_right]. rewrite tokenText_app.
    rewrite TrimLeft_spaces_app by apply blanks_allSpaces, Hb.
    unfold tokenText, t'. cbn [blanks count unit].
    rewrite str_app_nil_l, str_app_assoc.
    destruct (pretty (count t)) as [|c ds] eqn:Ep; [congruence|].
    cbn in Hd. apply andb_prop in Hd as [Hc0 _].
    rewrite !str_app_cons. cbn [TrimLeft].
    rewrite (digit_not_space c Hc0). reflexivity. }
  rewrite L.
  rewrite <- (str_app_nil_l trailing), text_app.
  rewrite TrimRight_app_spaces by apply blanks_allSpaces, Htr.
  destruct (text_last (t' :: ts)) as (s & u & E & Hu'); [discriminate|exact Hts'|].
  rewrite E. apply TrimRight_digit_end, unit_not_space, Hu'.
Qed.

(** X26. A relative deadline written as tokens (a positive count and
    one of [m], [h], [d], [w] each, blanks at will before, between and
    after them) whose durations add up within the range of a duration
    is accepted by [ParseDeadline], and resolves to the reading of the
    clock plus that sum: the absolute layout never takes such a text. *)
Theorem ParseDeadline_relative (ts : list token) (trailing : string)
    (nowRel now : Time) :
  ts ≠ [] → Forall validToken ts → forallChars isBlank trailing = true →
  exactDuration ts <= GoInt.maxInt64 →
  ParseInLocation (TrimSpace (text ts trailing)) = None ∧
  ParseDeadline (text ts trailing) nowRel now = Ok (now + exactDuration ts).
Proof.
  intros Hne Hts Htr Hfit. destruct ts as [|t ts]; [congruence|].
  destruct (TrimSpace_text t ts trailing Hts Htr) as (ET & Hts' & EE).
  set (t' := {| blanks := ""; count := count t; unit := unit t |}) in *.
  assert (N : ParseInLocation (text (t' :: ts) "") = None).
  { cbn [text fold_right]. rewrite tokenText_app. cbn [blanks count unit t'].
    rewrite str_app_nil_l.
    inversion Hts as [|? ? (Hb & Hc & Hu) Hrest]; subst.
    destruct (pretty_pos_digits (count t)) as (Hd & _ & _); [lia|].
    apply ParseInLocation_token; assumption. }
  rewrite ET. split; [exact N|].
  unfold ParseDeadline, ParseDeadlineWith. rewrite ET, N.
  assert (NE : isEmpty (text (t' :: ts) "") = false).
  { destruct (text_last (t' :: ts)) as (s & u & E & _);
      [discriminate | exact Hts' |].
    rewrite E. destruct s; reflexivity. }
  rewrite NE, parse_tokens, totalDuration_wrap, EE
    by (assumption || discriminate || reflexivity).
  pose proof (exactDuration_pos (t :: ts) Hne Hts).
  rewrite wrap64_small by (unfold GoInt.minInt64; lia).
  destruct (Z.leb_spec (exactDuration (t :: ts)) 0); [lia | reflexivity].
Qed.

(** [" 1w 2d "], the example of the help text with blanks around it. *)
Lemma ParseDeadline_relative_witness :
  ParseDeadline " 1w 2d " samples.noon samples.noon
  = Ok (samples.noon + 9 * (24 * Hour)).
Proof.
  pose (ts := [ {| blanks := " "; count := 1; unit := "w" |};
                {| blanks := " "; count := 2; unit := "d" |} ]).
  assert (V : Forall validToken ts).
  { repeat constructor; try reflexivity; vm_compute; discriminate. }
  exact (proj2 (ParseDeadline_relative ts " " samples.noon samples.noon
                  ltac:(discriminate) V eq_refl
                  ltac:(vm_compute; discriminate))).
Defined.

End RelativeDeadlines.

(** ** The order of the list view *)

Section SortedInput.
Context {A : Type} (less : A → A → bool).

Lemma fold_insertLeft_sorted data rprefix :
  StronglySorted (λ a b, less b a = false) data →
  Forall (λ x, Forall (λ y, less x y = false) rprefix) data →
  fold_left (λ rprefix x, sort.insertLeft less x rprefix) data rprefix
  = rev data ++ rprefix.
Proof.
  intros HS. revert rprefix.
  induction HS as [|x data HS IH Hx]; intros rprefix HF; [reflexivity|].
  apply Forall_cons in HF as [Hxr HF]. cbn [fold_left rev].
  assert (E : sort.insertLeft less x rprefix = x :: rprefix).
  { destruct rprefix as [|y rest]; [reflexivity|]. cbn.
    apply Forall_cons in Hxr as [-> _]. reflexivity. }
  rewrite E, IH, <- app_assoc; [reflexivity|].
  rewrite Forall_forall in HF, Hx. apply Forall_forall. intros z Hz.
  constructor; [apply Hx, Hz | apply HF, Hz].
Qed.

(** [sort.Slice] leaves a slice that is in order as it is: no element is
    [less] than its left neighbour, so none is moved.  (Go's strategy for
    longer slices finds such a slice in order on its first pass and
    stops, too.) *)
Lemma Slice_sorted_id data :
  StronglySorted (λ a b, less b a = false) data → sort.Slice less data = data.
Proof.
  intros HS. unfold sort.Slice. rewrite fold_insertLeft_sorted.
  - rewrite app_nil_r. apply rev_involutive.
  - exact HS.
  - apply Forall_forall. intros. constructor.
Qed.

End SortedInput.

Section ListOrder.
Import time models storage ui.
Local Open Scope Z_scope.

Lemma filter_none {A} (f : A → bool) l :
  Forall (λ x, f x = false) l → List.filter f l = [].
Proof.
  induction 1 as [|x l Hx _ IH]; [reflexivity|]. cbn. rewrite Hx. exact IH.
Qed.

Lemma filter_all {A} (f : A → bool) l :
  Forall (λ x, f x = true) l → List.filter f l = l.
Proof.
  induction 1 as [|x l Hx _ IH]; [reflexivity|]. cbn. rewrite Hx, IH. reflexivity.
Qed.

(** A listing in order is its three sections one after the other. *)
Lemma sorted_sections todos :
  StronglySorted (λ a b, todoLess b a = false) todos →
  todos = List.filter isUpcoming todos ++ GetTodosWithoutDeadline todos ++
          List.filter Completed todos.
Proof.
  unfold GetTodosWithoutDeadline.
  induction 1 as [|x todos HS IH Hx]; [reflexivity|].
  cbn [List.filter]. unfold isUpcoming at 1, hasDeadline at 1 2.
  destruct (Completed x) eqn:Cx; cbn [negb andb].
  - assert (HC : Forall (λ y, Completed y = true) todos).
    { eapply Forall_impl; [exact Hx|]. intros y. unfold todoLess. rewrite Cx.
      destruct (Completed y); [reflexivity | discriminate]. }
    rewrite (filter_all Completed) by exact HC.
    rewrite !filter_none; [reflexivity|..];
      (eapply Forall_impl; [exact HC|]); intros y Hy; unfold isUpcoming;
      rewrite Hy; reflexivity.
  - destruct (Deadline x) eqn:Dx; cbn [negb andb].
    + cbn [app]. f_equal. exact IH.
    + assert (HN : Forall (λ y, isUpcoming y = false) todos).
      { eapply Forall_impl; [exact Hx|]. intros y.
        unfold todoLess, isUpcoming, hasDeadline. rewrite Cx, Dx.
        destruct (Completed y); [reflexivity|]. cbn.
        destruct (Deadline y); [discriminate | reflexivity]. }
      rewrite filter_none in IH |- * by exact HN. cbn [app] in IH |- *.
      f_equal. exact IH.
Qed.

Lemma upcoming_sorted todos :
  StronglySorted (λ a b, todoLess b a = false) todos →
  StronglySorted (λ a b, deadlineLess b a = false)
                 (List.filter isUpcoming todos).
Proof.
  induction 1 as [|x todos HS IH Hx]; [constructor|]. cbn [List.filter].
  destruct (isUpcoming x) eqn:Ux; [|exact IH].
  constructor; [exact IH|]. apply Forall_forall. intros y Hy.
  apply list_elem_of_In, filter_In in Hy as [Hy Uy].
  rewrite Forall_forall in Hx. specialize (Hx y ltac:(apply list_elem_of_In, Hy)).
  revert Hx. apply isUpcoming_true in Ux as [Cx Dx], Uy as [Cy Dy].
  unfold todoLess, deadlineLess. rewrite Cx, Cy. cbn.
  destruct (Deadline x), (Deadline y); congruence.
Qed.

Lemma GetAllTodos_StronglySorted s :
  StronglySorted (λ a b, todoLess b a = false) (GetAllTodos s).
Proof.
  apply (Slice_sorted todoLess (λ _, True)).
  - intros ? ? _ _. apply todoLess_asym.
  - intros ? ? ? _ _ _. apply todoLess_incomp_trans.
  - apply Forall_forall. auto.
Qed.

(** X28. After a reload from the store, the list shows the listing of
    [GetAllTodos] in its own order: first the open todos with a deadline,
    of which only the first ten are kept, then everything else as
    listed.  With at most ten open todos that have a deadline the list
    is the listing. *)
Theorem visible_is_listing (m : ListModel) (s : BoltStorage) :
  let all := GetAllTodos s in
  let upcoming := List.filter isUpcoming all in
  let visible := getVisibleTodos (dataLoaded m (loadData s)) in
  ∃ others,
    all = upcoming ++ others ∧
    visible = take 10 upcoming ++ others ∧
    ((length upcoming <= 10)%nat → visible = all).
Proof.
  intros all upcoming visible.
  pose proof (GetAllTodos_StronglySorted s) as HS. fold all in HS.
  pose proof (sorted_sections all HS) as E. fold upcoming in E.
  exists (GetTodosWithoutDeadline all ++ List.filter Completed all).
  assert (V : visible = take 10 upcoming ++ GetTodosWithoutDeadline all ++
                        List.filter Completed all).
  { unfold visible, loadData. rewrite getVisibleTodos_dataLoaded.
    fold all upcoming.
    rewrite (Slice_sorted_id deadlineLess upcoming) by apply upcoming_sorted, HS.
    reflexivity. }
  split; [exact E|]. split; [exact V|].
  intros Hle. rewrite V, take_ge by exact Hle. symmetry. exact E.
Qed.

(** The store of the tasks A, B and C: the list is B, A, C. *)
Lemma visible_is_listing_witness :
  getVisibleTodos
    (dataLoaded NewListModel
       (loadData (samples.storeOf [samples.taskA; samples.taskB; samples.taskC])))
  = GetAllTodos (samples.storeOf [samples.taskA; samples.taskB; samples.taskC]).
Proof.
  destruct (visible_is_listing NewListModel
              (samples.storeOf [samples.taskA; samples.taskB; samples.taskC]))
    as (others & _ & _ & V).
  apply V. vm_compute. lia.
Defined.

(** X27. With a negative limit [GetTopUpcomingTodos] panics whatever the
    todos, even none: the length of a slice is never below the limit
    then, and the slice expression up to the limit is out of range. *)
Theorem GetTopUpcomingTodos_negative_limit (todos : list Todo) (limit : Z) :
  limit < 0 → GetTopUpcomingTodos todos limit = None.
Proof.
  intros Hl. unfold GetTopUpcomingTodos.
  destruct (Z.ltb_spec limit (Z.of_nat (length (sort.Slice deadlineLess
                                                  (List.filter isUpcoming todos)))));
    [|lia].
  destruct (Z.ltb_spec limit 0); [reflexivity | lia].
Qed.

Lemma GetTopUpcomingTodos_negative_limit_witness :
  GetTopUpcomingTodos [] (-1) = None.
Proof. apply GetTopUpcomingTodos_negative_limit. reflexivity. Defined.

End ListOrder.

(** ** The deadline shown behind a title *)

Section DeadlineInfo.
Import time models storage ui.
Local Open Scope Z_scope.

(** From one day overdue on, the count is at most -1, and never below
    the days of the largest negative duration. *)
Lemma daysOf_le_m1 d :
  minDuration <= d <= - (24 * Hour) → -106752 <= daysOf d <= -1.
Proof.
  intros [Hlo Hhi].
  assert (Hd : d <= 0) by (unfold Hour, Minute, Second in *; lia).
  destruct (quot_rem_nonpos d Hd) as [Eq Er].
  pose proof (Z.div_mod (- d) Hour ltac:(discriminate)) as E1.
  pose proof (Z.mod_pos_bound (- d) Hour eq_refl) as B1.
  pose proof (daysOf_between d (-2562048) (-3599999999999) (-24) 0) as B.
  replace (Float64.to_int (Float64.div (hoursOf (-2562048) (-3599999999999))
                             (inject_Z 24))) with (-106752) in B
    by (vm_compute; reflexivity).
  replace (Float64.to_int (Float64.div (hoursOf (-24) 0) (inject_Z 24)))
    with (-1) in B by (vm_compute; reflexivity).
  apply B; rewrite ?Eq, ?Er;
    unfold minDuration, GoInt.minInt64, Hour, Minute, Second in *; lia.
Qed.

(** From four days on, the count is at least four. *)
Lemma daysOf_ge_4 d : 4 * (24 * Hour) <= d → 4 <= daysOf d.
Proof.
  intros Hd.
  destruct (quot_rem_nonneg d ltac:(unfold Hour, Minute, Second in *; lia))
    as [Eq Er].
  pose proof (Z.div_mod d Hour ltac:(discriminate)) as E1.
  pose proof (Z.mod_pos_bound d Hour eq_refl) as B1.
  assert (L : Float64.to_int (Float64.div (hoursOf 96 0) (inject_Z 24))
              <= daysOf d).
  { unfold daysOf, Hours. apply days_parts_mono; rewrite ?Eq, ?Er;
      unfold Hour, Minute, Second in *; lia. }
  replace (Float64.to_int (Float64.div (hoursOf 96 0) (inject_Z 24))) with 4 in L
    by (vm_compute; reflexivity).
  exact L.
Qed.

(** X29. What the list shows behind the title of an open todo with a
    deadline, by the time left: overdue by a count of at least one day
    from 24 hours past the deadline on; due today within 24 hours of the
    deadline on either side, so also for a todo that is up to a day
    overdue; one to three days left, the whole days of the time left,
    from 24 hours up to 96 hours before; and the date from 96 hours on.
    A completed todo, or one without a deadline, shows nothing. *)
Theorem renderDeadlineInfo_by_time_left (todo : Todo) (deadline now : Time) :
  Deadline todo = Some deadline → Completed todo = false →
  let left := deadline - now in
  (left <= - (24 * Hour) →
   ∃ days, 1 <= days ∧ renderDeadlineInfo todo now = OverdueBy days) ∧
  (- (24 * Hour) < left < 24 * Hour → renderDeadlineInfo todo now = DueToday) ∧
  (24 * Hour <= left < 4 * (24 * Hour) →
   renderDeadlineInfo todo now = DaysLeft (left / (24 * Hour)) ∧
   1 <= left / (24 * Hour) <= 3) ∧
  (4 * (24 * Hour) <= left → renderDeadlineInfo todo now = OnDate deadline) ∧
  (∀ other, Deadline other = None ∨ Completed other = true →
            renderDeadlineInfo other now = NoInfo).
Proof.
  intros Hd Hc left. subst left. unfold renderDeadlineInfo, DaysUntilDeadline, Until.
  rewrite Hd, Hc. cbn [negb].
  pose proof (Sub_range deadline now) as SR.
  assert (Q : - (170 * (24 * Hour)) < (deadline - now) < 170 * (24 * Hour) →
              daysOf (Sub deadline now) = Z.quot (deadline - now) (24 * Hour)).
  { intros R. rewrite Sub_exact.
    - apply daysOf_quot, R.
    - unfold minDuration, maxDuration, GoInt.minInt64, GoInt.maxInt64,
        Hour, Minute, Second in *. lia. }
  split; [|split; [|split; [|split]]].
  - intros R.
    assert (S : minDuration <= Sub deadline now <= - (24 * Hour)).
    { split; [apply SR|]. unfold Sub.
      destruct (Z.ltb_spec (deadline - now) minDuration);
        [unfold minDuration, GoInt.minInt64, Hour, Minute, Second; lia|].
      destruct (Z.ltb_spec maxDuration (deadline - now));
        [unfold maxDuration, GoInt.maxInt64, Hour, Minute, Second in *; lia|].
      exact R. }
    pose proof (daysOf_le_m1 _ S) as D.
    destruct (Z.ltb_spec (daysOf (Sub deadline now)) 0); [|lia].
    exists (- daysOf (Sub deadline now)). split; [lia|].
    rewrite wrap64_small
      by (unfold GoInt.minInt64, GoInt.maxInt64; lia).
    reflexivity.
  - intros R. rewrite Q by (unfold Hour, Minute, Second in *; lia).
    rewrite (proj2 (Z.quot_small_iff (deadline - now) (24 * Hour) ltac:(discriminate)))
      by (unfold Hour, Minute, Second in *; lia).
    reflexivity.
  - intros R. rewrite Q by (unfold Hour, Minute, Second in *; lia).
    rewrite Z.quot_div_nonneg by (unfold Hour, Minute, Second in *; lia).
    assert (1 <= (deadline - now) / (24 * Hour) <= 3).
    { split; [apply Z.div_le_lower_bound | apply Z.lt_succ_r,
                Z.div_lt_upper_bound];
        unfold Hour, Minute, Second in *; lia. }
    destruct (Z.ltb_spec ((deadline - now) / (24 * Hour)) 0); [lia|].
    destruct (Z.eqb_spec ((deadline - now) / (24 * Hour)) 0); [lia|].
    destruct (Z.leb_spec ((deadline - now) / (24 * Hour)) 3); [|lia].
    split; [reflexivity | assumption].
  - intros R.
    assert (S : 4 * (24 * Hour) <= Sub deadline now).
    { unfold Sub.
      destruct (Z.ltb_spec (deadline - now) minDuration);
        [unfold minDuration, GoInt.minInt64, Hour, Minute, Second in *; lia|].
      destruct (Z.ltb_spec maxDuration (deadline - now));
        [unfold maxDuration, GoInt.maxInt64, Hour, Minute, Second; lia|].
      exact R. }
    pose proof (daysOf_ge_4 _ S) as D.
    destruct (Z.ltb_spec (daysOf (Sub deadline now)) 0); [lia|].
    destruct (Z.eqb_spec (daysOf (Sub deadline now)) 0); [lia|].
    destruct (Z.leb_spec (daysOf (Sub deadline now)) 3); [lia|].
    reflexivity.
  - intros other [-> | H]; [reflexivity|].
    destruct (Deadline other); [rewrite H|]; reflexivity.
Qed.

(** A todo that is 12 hours overdue is due today; 30 hours overdue,
    overdue by one day; due in 50 hours, two days left; due in five
    days, shown by its date. *)
Lemma renderDeadlineInfo_by_time_left_witness :
  let at_ left := samples.task "t" (Some (samples.noon + left)) false
                    samples.noon in
  renderDeadlineInfo (at_ (- (12 * Hour))) samples.noon = DueToday ∧
  (∃ days, 1 <= days ∧
           renderDeadlineInfo (at_ (- (30 * Hour))) samples.noon
           = OverdueBy days) ∧
  renderDeadlineInfo (at_ (50 * Hour)) samples.noon = DaysLeft 2 ∧
  renderDeadlineInfo (at_ (120 * Hour)) samples.noon
  = OnDate (samples.noon + 120 * Hour).
Proof.
  intros at_.
  split; [|split; [|split]].
  - destruct (renderDeadlineInfo_by_time_left (at_ (- (12 * Hour))) _
                samples.noon eq_refl eq_refl) as (_ & T & _).
    apply T. vm_compute. split; reflexivity.
  - destruct (renderDeadlineInfo_by_time_left (at_ (- (30 * Hour))) _
                samples.noon eq_refl eq_refl) as (O & _).
    apply O. vm_compute. discriminate.
  - destruct (renderDeadlineInfo_by_time_left (at_ (50 * Hour)) _
                samples.noon eq_refl eq_refl) as (_ & _ & L & _).
    refine (proj1 (L _)). vm_compute. split; [discriminate | reflexivity].
  - destruct (renderDeadlineInfo_by_time_left (at_ (120 * Hour)) _
                samples.noon eq_refl eq_refl) as (_ & _ & _ & D & _).
    apply D. vm_compute. discriminate.
Defined.

End DeadlineInfo.
